(** * doctl: the [serverless] project commands

    A shallow embedding of the serverless project lifecycle commands of
    doctl ([init], [deploy], [get-metadata], [watch]) and of the helpers
    they are built from, followed by the properties the design document
    states about them.

    Go strings are byte sequences; they are modelled by [string] (a list
    of 8-bit characters).  Maps are [gmap]s, slices are lists. *)

From Stdlib Require Import Ascii String.
From stdpp Require Import base option list gmap strings.

Set Default Proof Using "Type".

(** ** The parts of Go's [strings] package that the commands call *)

Module strings.

(** [len(s)] *)
Definition len (s : string) : nat := String.length s.

(** [s[:n]] (the whole of [s] when [n] is past its end) *)
Fixpoint take (n : nat) (s : string) : string :=
  match n, s with
  | S n', String a s' => String a (take n' s')
  | _, _ => ""
  end.

(** [s[n:]] (empty when [n] is past the end of [s]) *)
Fixpoint drop (n : nat) (s : string) : string :=
  match n, s with
  | S n', String _ s' => drop n' s'
  | _, _ => s
  end.

(** [strings.HasPrefix(s, prefix)] *)
Definition HasPrefix (s prefix : string) : bool := String.prefix prefix s.

(** [strings.Index(s, substr)]: the byte offset of the first occurrence
    of [substr] in [s]; [None] stands for Go's [-1]. *)
Fixpoint Index (s substr : string) : option nat :=
  if HasPrefix s substr then Some 0
  else match s with
       | "" => None
       | String _ s' => S <$> Index s' substr
       end.

(** [strings.Contains(s, substr)] is [Index(s, substr) >= 0]. *)
Definition Contains (s substr : string) : bool :=
  bool_decide (is_Some (Index s substr)).

(** [strings.Replace(s, old, new, n)] for [n >= 0] and a non-empty
    [old]: the first [n] non-overlapping occurrences of [old], found
    left to right, are replaced by [new]. *)
Fixpoint Replace (s old new : string) (n : nat) : string :=
  match n with
  | 0 => s
  | S n' =>
      match Index s old with
      | None => s
      | Some i => take i s +:+ new +:+ Replace (drop (i + len old) s) old new n'
      end
  end.

(** [strings.Split(s, sep)] for a separator of one byte, which is what
    every call in the commands passes.  The result is never empty:
    splitting [""] gives [[""]]. *)
Fixpoint Split (s : string) (sep : ascii) : list string :=
  match s with
  | "" => [""]
  | String a s' =>
      if decide (a = sep) then "" :: Split s' sep
      else match Split s' sep with
           | tok :: toks => String a tok :: toks
           | [] => [String a ""]
           end
  end.

(** [strings.Join(elems, sep)] *)
Fixpoint Join (elems : list string) (sep : string) : string :=
  match elems with
  | [] => ""
  | [e] => e
  | e :: rest => e +:+ sep +:+ Join rest sep
  end.

(** [strings.ToLower(s)] on ASCII text: the bytes ['A'..'Z'] are mapped
    to ['a'..'z'], every other byte is kept.  This is the path Go takes
    for a string all of whose bytes are below [utf8.RuneSelf]; a string
    with other bytes Go maps rune by rune through [unicode.ToLower],
    which is not modelled, so the model is exact on the strings that
    [is_ascii] accepts and properties of the lowercase form of an
    arbitrary token are stated for those. *)
Definition lower_byte (a : ascii) : ascii :=
  let n := nat_of_ascii a in
  if bool_decide (65 ≤ n ≤ 90) then ascii_of_nat (n + 32) else a.

Fixpoint ToLower (s : string) : string :=
  match s with
  | "" => ""
  | String a s' => String (lower_byte a) (ToLower s')
  end.

(** Every byte of the string is below [utf8.RuneSelf] (0x80). *)
Fixpoint is_ascii (s : string) : bool :=
  match s with
  | "" => true
  | String a s' => bool_decide (nat_of_ascii a < 128) && is_ascii s'
  end.

(** Membership of a byte in a string. *)
Fixpoint has_byte (c : ascii) (s : string) : bool :=
  match s with
  | "" => false
  | String a s' => bool_decide (a = c) || has_byte c s'
  end.

End strings.

(** ** Errors and results *)

(** The [syscall.Errno] values that the modelled file system produces. *)
Inductive Errno := ENOENT | ENOTDIR | EEXIST | EISDIR | EINVAL | ENOTEMPTY | EBUSY.

(** Go [error] values.  [Errorf] carries the formatted text of a
    [fmt.Errorf]; [PathError] is [*fs.PathError]; [MissingArgsErr] is what
    [doctl.NewMissingArgsErr] builds; [ExternalErr] stands for an error
    produced by a collaborator (the functions backend, the host, the
    output writer, the YAML encoder). *)
Inductive error :=
| Errorf (msg : string)
| PathError (op path : string) (errno : Errno)
| MissingArgsErr (ns : string)
| ExternalErr (msg : string).

(** How a call ends: it returns a value, returns a non-nil [error], or the
    goroutine panics. *)
Inductive result (A : Type) :=
| Ok (a : A)
| Err (e : error)
| Panic (msg : string).
Arguments Ok {A} a.
Arguments Err {A} e.
Arguments Panic {A} msg.

#[global] Instance Errno_eq_dec : EqDecision Errno.
Proof. solve_decision. Defined.
#[global] Instance error_eq_dec : EqDecision error.
Proof. solve_decision. Defined.

(** ** Paths: [path/filepath] on a Unix system *)

Module filepath.

(** A path is rooted when it starts with the separator. *)
Definition rooted (p : string) : bool := strings.HasPrefix p "/".

(** One step of the lexical walk over the components of a path: empty
    components and [.] are skipped, [..] removes the component before
    it (at the root it is dropped; at the start of a relative path it
    is kept), any other name is appended. *)
Definition step (r : bool) (st : list string) (c : string) : list string :=
  if bool_decide (c = "" ∨ c = ".") then st
  else if bool_decide (c = "..") then
    if r then removelast st
    else match last st with
         | None => st ++ [c]
         | Some top => if bool_decide (top = "..") then st ++ [c] else removelast st
         end
  else st ++ [c].

(** The components of the cleaned path. *)
Definition lex (p : string) : list string :=
  fold_left (step (rooted p)) (strings.Split p "/") [].

(** [filepath.Clean(p)] *)
Definition Clean (p : string) : string :=
  if rooted p then "/" +:+ strings.Join (lex p) "/"
  else match lex p with
       | [] => "."
       | cs => strings.Join cs "/"
       end.

(** [filepath.Join(elem...)]: leading empty elements are ignored, the
    rest is joined with the separator and cleaned; the result is [""]
    when every element is empty. *)
Fixpoint Join (elem : list string) : string :=
  match elem with
  | [] => ""
  | e :: rest =>
      if bool_decide (e = "") then Join rest
      else Clean (strings.Join elem "/")
  end.

(** The absolute location a path names when used by a process whose
    working directory is [cwd]: the list of directory entries walked
    from the root. *)
Definition abs (cwd : list string) (p : string) : list string :=
  fold_left (step true) (strings.Split p "/") (if rooted p then [] else cwd).

(** A plain entry name: not empty, not [.] or [..], no separator. *)
Definition plain (n : string) : Prop :=
  n ≠ "" ∧ n ≠ "." ∧ n ≠ ".." ∧ strings.has_byte "/" n = false.

End filepath.

(** ** The file system: package [os]

    The disk is a finite map from absolute locations to nodes, together
    with the working directory of the process.  The root directory always
    exists.  Permissions, links and devices are not modelled.  [Stat] and
    [RemoveAll], which the commands call with a path as the user wrote
    it, walk the path element by element as the kernel does: an element
    is looked up in a directory that exists, also when [..] follows it.
    [Mkdir], [MkdirAll] and [WriteFile], which the commands call with
    paths that [filepath.Join] has cleaned, take the location the cleaned
    path names. *)

Inductive node :=
| Dir
| File (data : string).

Record FS := mkFS {
  cwd : list string;
  nodes : gmap (list string) node;
}.

Module os.

(** The node at a location. *)
Definition node_at (fs : FS) (k : list string) : option node :=
  match k with
  | [] => Some Dir
  | _ => nodes fs !! k
  end.

(** Walks the directories leading to the last component of [rest] below
    [pre]: a missing one is [ENOENT], a file in the way is [ENOTDIR]. *)
Fixpoint walk_parents (m : gmap (list string) node) (pre rest : list string)
  : option Errno :=
  match rest with
  | [] => None
  | c :: rest' =>
      match rest' with
      | [] => None
      | _ =>
          match m !! (pre ++ [c]) with
          | Some Dir => walk_parents m (pre ++ [c]) rest'
          | Some (File _) => Some ENOTDIR
          | None => Some ENOENT
          end
      end
  end.

(** How the walk of the kernel along a path ends: at a location, or at
    a location that is no directory in which the next element could be
    looked up, with the elements still to walk. *)
Inductive walked :=
| Reached (k : list string)
| Stopped (e : Errno) (k : list string) (rest : list string).

(** The walk along the elements of a path from the location [cur]: each
    element is looked up in a directory; a location that does not exist
    is [ENOENT], one that is a file is [ENOTDIR]; empty elements and [.]
    stay, [..] goes to the parent, and the parent of the root is the root.
    The location reached need not exist. *)
Fixpoint walk (fs : FS) (cur : list string) (elems : list string) : walked :=
  match elems with
  | [] => Reached cur
  | c :: rest =>
      match node_at fs cur with
      | None => Stopped ENOENT cur elems
      | Some (File _) => Stopped ENOTDIR cur elems
      | Some Dir => walk fs (filepath.step true cur c) rest
      end
  end.

Definition resolve (fs : FS) (name : string) : walked :=
  walk fs (if filepath.rooted name then [] else cwd fs) (strings.Split name "/").

(** [os.Stat(name)]; the [FileInfo] is represented by the node. *)
Definition Stat (name : string) (fs : FS) : option node * option error :=
  if bool_decide (name = "") then (None, Some (PathError "stat" name ENOENT))
  else
    match resolve fs name with
    | Stopped e _ _ => (None, Some (PathError "stat" name e))
    | Reached k =>
        match node_at fs k with
        | Some n => (Some n, None)
        | None => (None, Some (PathError "stat" name ENOENT))
        end
    end.

(** [os.IsNotExist(err)] *)
Definition IsNotExist (err : option error) : bool :=
  match err with
  | Some (PathError _ _ ENOENT) => true
  | _ => false
  end.

(** [k] is the location [d] or lies below it. *)
Definition under (d k : list string) : bool :=
  bool_decide (take (length d) k = d).

(** The disk without the location [k] and what lies below it, and the
    disk without what lies below [k]. *)
Definition without (k : list string) (fs : FS) : FS :=
  mkFS (cwd fs) (filter (λ kv, under k kv.1 = false) (nodes fs)).

Definition emptied (k : list string) (fs : FS) : FS :=
  mkFS (cwd fs) (filter (λ kv, under k kv.1 = false ∨ kv.1 = k) (nodes fs)).

(** [endsWithDot] of package [os] *)
Definition endsWithDot (path : string) : bool :=
  bool_decide (path = ".") ||
  bool_decide (strings.drop (strings.len path - 2) path = "/.").

(** [splitPath] of package [os]: the parent directory and the base name
    of a path, once all but one leading separator and the trailing
    separators are dropped. *)
Fixpoint lstrip (path : string) : string :=
  match path with
  | String a rest =>
      match rest with
      | String b _ =>
          if bool_decide (a = "/"%char) && bool_decide (b = "/"%char) then lstrip rest
          else path
      | "" => path
      end
  | "" => path
  end.

Fixpoint rstrip (path : string) : string :=
  match path with
  | "" => ""
  | String a rest =>
      let rest' := rstrip rest in
      if bool_decide (a = "/"%char) && bool_decide (rest' = "") then "" else String a rest'
  end.

Definition splitPath (path : string) : string * string :=
  let path := match lstrip path with
              | "" => ""
              | String a rest => String a (rstrip rest)
              end in
  if bool_decide (path = "/") then (".", path)
  else
    match strings.Split path "/" with
    | [] | [_] => (".", path)
    | elems =>
        let dirname := strings.Join (removelast elems) "/" in
        (if bool_decide (dirname = "") then "/" else dirname, List.last elems "")
    end.

(** [os.RemoveAll(path)].  An empty path is left alone and a path ending
    in a [.] element is refused.  Then [Remove] is tried: it removes a
    file or an empty directory, and when it finds nothing there is
    nothing to do.  Otherwise the base name is removed from the parent
    directory with all it holds.  When the base name is [.] or [..], or
    the path names the root, the directory is emptied and the removal of
    the directory itself fails.  When a file stands where a directory is
    needed, the file is removed if only separators follow its name, and
    the call fails otherwise. *)
Definition RemoveAll (path : string) (fs : FS) : option error * FS :=
  if bool_decide (path = "") then (None, fs)
  else if endsWithDot path then (Some (PathError "RemoveAll" path EINVAL), fs)
  else
    let '(parentDir, base) := splitPath path in
    let failed e := Some (PathError "unlinkat" (parentDir +:+ "/" +:+ base) e) in
    match resolve fs path with
    | Reached k =>
        match node_at fs k with
        | None => (None, fs)
        | Some (File _) => (None, without k fs)
        | Some Dir =>
            if bool_decide (base = ".") then (failed EINVAL, emptied k fs)
            else if bool_decide (base = "..") then (failed ENOTEMPTY, emptied k fs)
            else if bool_decide (base = "/") then (failed EBUSY, emptied k fs)
            else (None, without k fs)
        end
    | Stopped ENOTDIR k rest =>
        if forallb (λ c, bool_decide (c = "")) rest then (None, without k fs)
        else
          match resolve fs parentDir with
          | Reached _ => (failed ENOTDIR, fs)
          | Stopped ENOENT _ _ => (None, fs)
          | Stopped e _ _ => (Some (PathError "open" parentDir e), fs)
          end
    | Stopped _ _ _ => (None, fs)
    end.

(** [os.Mkdir(name, perm)] *)
Definition Mkdir (name : string) (fs : FS) : option error * FS :=
  if bool_decide (name = "") then (Some (PathError "mkdir" name ENOENT), fs)
  else
    let k := filepath.abs (cwd fs) name in
    match walk_parents (nodes fs) [] k with
    | Some e => (Some (PathError "mkdir" name e), fs)
    | None =>
        match node_at fs k with
        | Some _ => (Some (PathError "mkdir" name EEXIST), fs)
        | None => (None, mkFS (cwd fs) (<[k := Dir]> (nodes fs)))
        end
    end.

(** [os.MkdirAll(path, perm)]: creates the missing directories on the
    way to [path], and [path] itself; succeeds when [path] is already a
    directory. *)
Fixpoint mkdir_walk (m : gmap (list string) node) (pre rest : list string)
  : option Errno * gmap (list string) node :=
  match rest with
  | [] => (None, m)
  | c :: rest' =>
      match m !! (pre ++ [c]) with
      | Some Dir => mkdir_walk m (pre ++ [c]) rest'
      | Some (File _) => (Some ENOTDIR, m)
      | None => mkdir_walk (<[pre ++ [c] := Dir]> m) (pre ++ [c]) rest'
      end
  end.

Definition MkdirAll (path : string) (fs : FS) : option error * FS :=
  if bool_decide (path = "") then (Some (PathError "mkdir" path ENOENT), fs)
  else
    let k := filepath.abs (cwd fs) path in
    match mkdir_walk (nodes fs) [] k with
    | (Some e, m) => (Some (PathError "mkdir" path e), mkFS (cwd fs) m)
    | (None, m) => (None, mkFS (cwd fs) m)
    end.

(** [os.WriteFile(name, data, perm)]: creates or truncates the file. *)
Definition WriteFile (name : string) (data : string) (fs : FS)
  : option error * FS :=
  if bool_decide (name = "") then (Some (PathError "open" name ENOENT), fs)
  else
    let k := filepath.abs (cwd fs) name in
    match walk_parents (nodes fs) [] k with
    | Some e => (Some (PathError "open" name e), fs)
    | None =>
        match node_at fs k with
        | Some Dir => (Some (PathError "open" name EISDIR), fs)
        | _ => (None, mkFS (cwd fs) (<[k := File data]> (nodes fs)))
        end
    end.

End os.

(** ** Package [do]: the project specification and the functions service *)

(** Modelled from the spec: [do.ServerlessFunction], [do.ServerlessPackage]
    and [do.ServerlessSpec] are declared elsewhere in the repository.
    Their fields are the ones the data model lists and the commands
    assign.  In Go the slices hold pointers; here they hold the values, so
    a slice has no nil element and no package occurs in it twice, and a
    pointer into [Packages] is a position in the list. *)
Record ServerlessFunction := mkFunction {
  fnName : string;
  fnRuntime : string;
  fnWeb : bool;
  fnWebSecure : bool;
}.

Record ServerlessPackage := mkPackage {
  pkgName : string;
  pkgFunctions : list ServerlessFunction;
}.

Record ServerlessSpec := mkSpec {
  Packages : list ServerlessPackage;
}.

(** Modelled from the spec: [do.ServerlessOutput], declared elsewhere in
    the repository, the transcript of a backend invocation.  [Captured]
    is the sequence of captured lines; [Rest] stands for the fields the
    commands below never touch. *)
Record ServerlessOutput := mkOutput {
  Captured : list string;
  Rest : string;
}.

Record ServerlessCredentials := mkCredentials {
  APIHost : string;
}.

(** [Runtimes] maps the name of a runtime to the kinds the host offers. *)
Record ServerlessHostInfo := mkHostInfo {
  Runtimes : gmap string (list string);
}.

(** Modelled from the spec: [doctl.Config], the interface behind [c.Doit],
    is declared elsewhere in the repository.  It is a store of option
    values keyed by namespace and option name.  An option that is not
    present reads as the zero value.  The getters of the interface return
    an error next to the value: the options listed in [cfgUnreadable] are
    the ones whose reads fail. *)
Record Config := mkConfig {
  cfgStrings : gmap (string * string) string;
  cfgBools : gmap (string * string) bool;
  cfgUnreadable : gset (string * string);
}.

Module Doit.

Definition GetString (d : Config) (ns key : string) : string * option error :=
  if bool_decide ((ns, key) ∈ cfgUnreadable d)
  then ("", Some (MissingArgsErr (ns +:+ "." +:+ key)))
  else (default "" (cfgStrings d !! (ns, key)), None).

Definition GetBool (d : Config) (ns key : string) : bool * option error :=
  if bool_decide ((ns, key) ∈ cfgUnreadable d)
  then (false, Some (MissingArgsErr (ns +:+ "." +:+ key)))
  else (default false (cfgBools d !! (ns, key)), None).

Definition Set_ (d : Config) (ns key val : string) : Config :=
  mkConfig (<[(ns, key) := val]> (cfgStrings d)) (cfgBools d) (cfgUnreadable d).

End Doit.

(** What reached the output stream [c.Out]: raw text, or a transcript
    handed to the display layer. *)
Inductive Shown :=
| Text (s : string)
| Display (o : ServerlessOutput).

(** The writer behind [c.Out].  A broken writer fails every write. *)
Record Writer := mkWriter {
  written : list Shown;
  broken : bool;
}.

(** The calls a command makes on the functions service. *)
Inductive ServiceCall :=
| CallCheckServerlessStatus
| CallReadCredentials
| CallGetHostInfo (apihost : string)
| CallExec (command : string) (args : list string)
| CallStream (command : string) (args : list string)
| CallReadProject (path : string).

(** Modelled from the spec: [do.ServerlessService], declared elsewhere in
    the repository, the interface to the functions host and to the
    deployment backend.  Each field is the
    answer the collaborator gives; a Go pair [(value, err)] is a pair. *)
Record ServerlessService := mkService {
  CheckServerlessStatus : option error;
  ReadCredentials : ServerlessCredentials * option error;
  GetHostInfo : string → ServerlessHostInfo * option error;
  Exec : string → list string → Config → ServerlessOutput * option error;
  Stream : string → list string → Config → list string * option error;
  ReadProject : string → list string → ServerlessOutput * option error;
}.

(** [CmdConfig]: the namespace of the command, its positional arguments
    and its service.  The objects behind [c.Doit] and [c.Out] are mutable;
    their state is part of the [World]. *)
Record CmdConfig := mkCmdConfig {
  NS : string;
  Args : list string;
  Serverless : ServerlessService;
}.

(** ** The state a command runs in *)

Record World := mkWorld {
  w_fs : FS;
  w_doit : Config;
  w_out : Writer;
  w_calls : list ServiceCall;
}.

Definition set_fs (fs : FS) (w : World) : World :=
  mkWorld fs (w_doit w) (w_out w) (w_calls w).
Definition set_doit (d : Config) (w : World) : World :=
  mkWorld (w_fs w) d (w_out w) (w_calls w).
Definition set_out (o : Writer) (w : World) : World :=
  mkWorld (w_fs w) (w_doit w) o (w_calls w).
Definition log_call (call : ServiceCall) (w : World) : World :=
  mkWorld (w_fs w) (w_doit w) (w_out w) (w_calls w ++ [call]).

(** A computation reads and updates the world and ends in a [result]. *)
Definition M (A : Type) : Type := World → result A * World.

Definition ret {A} (a : A) : M A := λ w, (Ok a, w).
Definition fail {A} (e : error) : M A := λ w, (Err e, w).
Definition panic {A} (msg : string) : M A := λ w, (Panic msg, w).

Definition bind {A B} (m : M A) (k : A → M B) : M B :=
  λ w, match m w with
       | (Ok a, w') => k a w'
       | (Err e, w') => (Err e, w')
       | (Panic msg, w') => (Panic msg, w')
       end.

Declare Scope go_scope.
Delimit Scope go_scope with go.
Notation "x <~ m ; k" := (bind m (λ x, k))
  (at level 20, m at level 100, k at level 200, only parsing) : go_scope.
Notation "'run' m ; k" := (bind m (λ _, k))
  (at level 20, m at level 100, k at level 200, only parsing) : go_scope.
Open Scope go_scope.

(** Reading the world. *)
Definition gets {A} (f : World → A) : M A := λ w, (Ok (f w), w).

(** [if err != nil { return err }] *)
Definition check (err : option error) : M unit :=
  match err with
  | Some e => fail e
  | None => ret tt
  end.

(** A file-system call that returns only an [error]: a non-nil error ends
    the computation, as [if err != nil { return err }] does at every call
    site. *)
Definition fs_call (op : FS → option error * FS) : M unit :=
  λ w, match op (w_fs w) with
       | (None, fs') => (Ok tt, set_fs fs' w)
       | (Some e, fs') => (Err e, set_fs fs' w)
       end.

(** [fmt.Fprintln(c.Out, s)] and [fmt.Fprintf(c.Out, ...)] once the text
    is formatted: the error of the write is returned to the caller. *)
Definition Fprint (s : string) : M (option error) :=
  λ w, if broken (w_out w) then (Ok (Some (ExternalErr "write failed")), w)
       else (Ok None, set_out (mkWriter (written (w_out w) ++ [Text s]) false) w).

Definition newline : string := String "010"%char "".

Definition Fprintln (s : string) : M (option error) := Fprint (s +:+ newline).

(** Modelled from the spec: [c.PrintServerlessTextOutput], declared
    elsewhere in the repository, displays a transcript as the normal
    output of the command; rendering belongs to the display layer. *)
Definition PrintServerlessTextOutput (output : ServerlessOutput) : M unit :=
  λ w, if broken (w_out w) then (Err (ExternalErr "write failed"), w)
       else (Ok tt, set_out (mkWriter (written (w_out w) ++ [Display output]) false) w).

(** Modelled from the spec: [ensureOneArg], declared elsewhere in the
    repository: exactly one positional argument is required, otherwise
    the command fails with the missing-arguments error. *)
Definition ensureOneArg (c : CmdConfig) : option error :=
  if bool_decide (length (Args c) = 1) then None
  else Some (MissingArgsErr (NS c)).

(** Modelled from the spec: [RunServerlessExec] and
    [RunServerlessExecStreaming], declared elsewhere in the repository,
    invoke the backend with an operation name and the allow-listed boolean
    and string options; the first returns a transcript and an optional
    error, the second streams the backend's output to [c.Out]. *)
Definition RunServerlessExec (command : string) (c : CmdConfig)
    (booleanFlags stringFlags : list string) : M (ServerlessOutput * option error) :=
  λ w, (Ok (Exec (Serverless c) command (Args c) (w_doit w)),
        log_call (CallExec command (Args c)) w).

Definition RunServerlessExecStreaming (command : string) (c : CmdConfig)
    (booleanFlags stringFlags : list string) : M unit :=
  λ w, let '(lines, err) := Stream (Serverless c) command (Args c) (w_doit w) in
       let w1 := log_call (CallStream command (Args c)) w in
       let w2 := if broken (w_out w1) then w1
                 else set_out (mkWriter (written (w_out w1) ++ (Text <$> lines)) false) w1 in
       check err w2.

(** Modelled from the spec: the constants for the names of the options
    and for the reserved folder name are declared elsewhere in the
    repository; the names are the ones the commands register. *)
Definition flagInclude : string := "include".
Definition flagExclude : string := "exclude".
Definition flagEnv : string := "env".
Definition flagBuildEnv : string := "build-env".
Definition flagApihost : string := "apihost".
Definition flagAuth : string := "auth".
Definition flagInsecure : string := "insecure".
Definition flagVerboseBuild : string := "verbose-build".
Definition flagVerboseZip : string := "verbose-zip".
Definition flagYarn : string := "yarn".
Definition flagRemoteBuild : string := "remote-build".
Definition flagIncremental : string := "incremental".
Definition flagJSON : string := "json".
Definition flagProjectReader : string := "project-reader".
Definition keywordWeb : string := "web".

(** ** The commands *)

Section commands.

(** Package-level tables and texts that are declared elsewhere in the
    repository.  [languageKeywords] maps a runtime to the keywords accepted
    for it, listed in the order the loop of [isValidLanguage] visits the
    entries; [samples] maps a language keyword to its sample source. *)
Variable languageKeywords : list (string * list string).
Variable samples : gmap string string.
Variable gitignores : string.
Variable ignoreForTypescript : string.
Variable packageJSONForTypescript : string.
Variable tsconfigJSON : string.

(** [yaml.Marshal] on a project specification. *)
Variable yaml_Marshal : ServerlessSpec → string * option error.

(** [writeAFile] is a thin wrapper around [os.WriteFile]. *)
Definition writeAFile (path contents : string) : M unit :=
  fs_call (os.WriteFile path contents).

(** [doMkdir] is a thin wrapper around [os.Mkdir] or [os.MkdirAll]. *)
Definition doMkdir (path : string) (parents : bool) : M unit :=
  if parents then fs_call (os.MkdirAll path)
  else fs_call (os.Mkdir path).

(** [prepareProjectArea] prepares a disk area for receiving a project. *)
Definition prepareProjectArea (project : string) (overwrite : bool) : M unit :=
  st <~ gets (λ w, os.Stat project (w_fs w)) ;
  let err := st.2 in
  if os.IsNotExist err then ret tt
  else
    match err with
    | Some e => fail e
    | None =>
        (* project exists in the file system *)
        if negb overwrite then
          fail (Errorf (project +:+ " already exists; use '--overwrite' to replace"))
        else
          (* overwrite was specified: it is permitted to remove what's there *)
          fs_call (os.RemoveAll project)
    end.

(** [fileExtensionForRuntime] maps runtimes to extensions in naming
    samples. *)
Definition fileExtensionForRuntime (runtime : string) : string :=
  if bool_decide (runtime = "nodejs") then "js"
  else if bool_decide (runtime = "python") then "py"
  else runtime.

(** The loop of [generateSample] over [config.Packages]: the position of
    the first package named [sample].  A position stands for the pointer
    to that package; [None] is the nil pointer the variable starts as. *)
Fixpoint find_sample (pkgs : list ServerlessPackage) (i : nat) : option nat :=
  match pkgs with
  | [] => None
  | pkg :: rest =>
      if bool_decide (pkgName pkg = "sample") then Some i
      else find_sample rest (S i)
  end.

(** Following a pointer into [config.Packages]; following nil panics. *)
Definition deref (config : ServerlessSpec) (p : option nat) : M ServerlessPackage :=
  match p with
  | None => panic "invalid memory address or nil pointer dereference"
  | Some i =>
      match Packages config !! i with
      | Some pkg => ret pkg
      | None => panic "invalid memory address or nil pointer dereference"
      end
  end.

(** Assigning the [Functions] field through a pointer into
    [config.Packages]: the package at that position changes, inside the
    configuration. *)
Definition set_Functions (config : ServerlessSpec) (p : option nat)
    (fns : list ServerlessFunction) : ServerlessSpec :=
  match p with
  | Some i => mkSpec (alter (λ pkg, mkPackage (pkgName pkg) fns) i (Packages config))
  | None => config
  end.

(** [generateSample] generates a sample function in the sample package.
    The configuration is updated in place in the source; here the
    updated configuration is returned next to the action directory. *)
Definition generateSample (kind : string) (config : ServerlessSpec)
    (sample samplePackage : string) (ts : bool) : M (string * ServerlessSpec) :=
  let runtime := hd "" (strings.Split kind ":") in
  let suffix := if ts then "ts" else fileExtensionForRuntime runtime in
  let actionDir := filepath.Join [samplePackage; "hello"] in
  run doMkdir actionDir true ;
  file <~ (if ts then
             let srcDir := filepath.Join [actionDir; "src"] in
             run doMkdir srcDir false ;
             ret (filepath.Join [srcDir; "hello." +:+ suffix])
           else
             ret (filepath.Join [actionDir; "hello." +:+ suffix])) ;
  run writeAFile file sample ;
  let sampPkg := find_sample (Packages config) 0 in
  pkg <~ deref config sampPkg ;
  if negb (bool_decide (pkgName pkg = "sample")) then
    fail (Errorf "could not find sample package in config (internal error)")
  else
    let function := mkFunction "hello" kind true false in
    ret (actionDir, set_Functions config sampPkg [function]).

(** [validateRuntime] takes the name of a runtime and tries to contact
    the host to determine if that runtime exists. *)
Definition validateRuntime (c : CmdConfig) (runtime : string) : M bool :=
  if bool_decide (runtime = "nodejs") then ret true
  else
    let sls := Serverless c in
    err <~ (λ w, (Ok (CheckServerlessStatus sls), log_call CallCheckServerlessStatus w)) ;
    match err with
    | Some _ => ret true (* err in the permissive direction *)
    | None =>
        r <~ (λ w, (Ok (ReadCredentials sls), log_call CallReadCredentials w)) ;
        let '(creds, err) := r in
        match err with
        | Some _ => ret true (* err in the permissive direction *)
        | None =>
            r <~ (λ w, (Ok (GetHostInfo sls (APIHost creds)),
                        log_call (CallGetHostInfo (APIHost creds)) w)) ;
            let '(info, err) := r in
            match err with
            | Some _ => ret true (* err in the permissive direction *)
            | None =>
                ret (existsb (λ validRuntime, bool_decide (runtime = validRuntime))
                             (map fst (map_to_list (Runtimes info))))
            end
        end
    end.

(** The loops of [isValidLanguage] over the [languageKeywords] table:
    the runtime of the first entry one of whose keywords is the
    language. *)
Fixpoint kwds_match (language : string) (kwds : list string) : bool :=
  match kwds with
  | [] => false
  | kwd :: rest => bool_decide (language = kwd) || kwds_match language rest
  end.

Fixpoint runtime_of (language : string) (table : list (string * list string))
  : option string :=
  match table with
  | [] => None
  | (runtime, kwds) :: rest =>
      if kwds_match language kwds then Some runtime
      else runtime_of language rest
  end.

(** [isValidLanguage] uses the [languageKeywords] table to decide if a
    language name is valid.  If it appears to be valid, a runtime check
    is run. *)
Definition isValidLanguage (c : CmdConfig) (language : string) : M bool :=
  match runtime_of language languageKeywords with
  | Some runtime => validateRuntime c runtime
  | None => ret false
  end.

(** [languageToKindAndSample] converts a user-specified language name to
    a runtime kind plus a sample; the third component tells that the
    language is typescript. *)
Definition languageToKindAndSample (c : CmdConfig) (language : string)
  : M (string * string * bool) :=
  let language := strings.ToLower language in
  valid <~ isValidLanguage c language ;
  if negb valid then
    fail (Errorf (language +:+ " is not a supported language"))
  else
    let '(runtime, ts) :=
      if bool_decide (language = "ts" ∨ language = "typescript") then ("nodejs", true)
      else if bool_decide (language = "js" ∨ language = "javascript") then ("nodejs", false)
      else if bool_decide (language = "py") then ("python", false)
      else if bool_decide (language = "golang") then ("go", false)
      else (language, false) in
    ret (runtime +:+ ":default", default "" (samples !! language), ts).

(** [configTemplate] builds a minimal project configuration in memory. *)
Definition configTemplate : ServerlessSpec :=
  let defPkg := mkPackage "sample" [] in
  mkSpec [defPkg].

(** [qualifyWebWithSlash]: given a comma-separated list of tokens, if any
    of those tokens are [web], change that token to [web/] and return
    the modified list. *)
Definition qualifyWebWithSlash (original : string) : string :=
  let tokens := strings.Split original "," in
  let tokens :=
    fold_left (λ tokens '(i, token),
                 if bool_decide (token = "web") then <[i := "web/"]> tokens
                 else tokens)
              (imap pair tokens) tokens in
  strings.Join tokens ",".

(** [adjustIncludeAndExclude] deals with the fact that [web] has special
    meaning to the backend. *)
Definition adjustIncludeAndExclude (c : CmdConfig) : M unit :=
  r <~ gets (λ w, Doit.GetString (w_doit w) (NS c) flagInclude) ;
  let '(includes, err) := r in
  run (if bool_decide (err = None) && negb (bool_decide (includes = "")) then
         let includes := qualifyWebWithSlash includes in
         λ w, (Ok tt, set_doit (Doit.Set_ (w_doit w) (NS c) flagInclude includes) w)
       else ret tt) ;
  r <~ gets (λ w, Doit.GetString (w_doit w) (NS c) flagExclude) ;
  let '(excludes, err) := r in
  if bool_decide (err = None) && negb (bool_decide (excludes = "")) then
    let excludes := qualifyWebWithSlash excludes in
    let excludes := excludes +:+ "," +:+ keywordWeb in
    λ w, (Ok tt, set_doit (Doit.Set_ (w_doit w) (NS c) flagExclude excludes) w)
  else
    λ w, (Ok tt, set_doit (Doit.Set_ (w_doit w) (NS c) flagExclude keywordWeb) w).

(** The loop of [RunServerlessExtraDeploy] that fixes up what is in
    [Captured], line by line and in place. *)
Definition fixupCaptured (captured : list string) : list string :=
  fold_left
    (λ captured '(index, value),
       if strings.Contains value "Deploying project" then
         <[index := strings.Replace value "Deploying project" "Deployed" 1]> captured
       else if strings.Contains value "Deployed actions" then
         <[index := "Deployed functions ('doctl sbx fn get <funcName> --url' for URL):"]> captured
       else captured)
    (imap pair captured) captured.

(** [RunServerlessExtraCreate] supports the [serverless init] command. *)
Definition RunServerlessExtraCreate (c : CmdConfig) : M unit :=
  run check (ensureOneArg c) ;
  let project := nth 0 (Args c) "" in
  overwrite <~ gets (λ w, (Doit.GetBool (w_doit w) (NS c) "overwrite").1) ;
  language <~ gets (λ w, (Doit.GetString (w_doit w) (NS c) "language").1) ;
  (* Determine the kind and sample *)
  r <~ languageToKindAndSample c language ;
  let '(kind, sample, ts) := r in
  (* Make the config and various paths *)
  let config := configTemplate in
  let configFile := filepath.Join [project; "project.yml"] in
  let gitignoreFile := filepath.Join [project; ".gitignore"] in
  let samplePackage := filepath.Join [project; "packages"; "sample"] in
  (* Prepare the project area *)
  run prepareProjectArea project overwrite ;
  run doMkdir samplePackage true ;
  (* Generate the sample *)
  r <~ generateSample kind config sample samplePackage ts ;
  let '(actionDir, config) := r in
  (* Write the config *)
  let '(data, err) := yaml_Marshal config in
  run check err ;
  run writeAFile configFile data ;
  (* Add the .gitignore *)
  let ignores := if ts then gitignores +:+ ignoreForTypescript else gitignores in
  run writeAFile gitignoreFile ignores ;
  (* Add typescript-specific information *)
  run (if ts then
         let pjFile := filepath.Join [actionDir; "package.json"] in
         run writeAFile pjFile packageJSONForTypescript ;
         let tscFile := filepath.Join [actionDir; "tsconfig.json"] in
         run writeAFile tscFile tsconfigJSON ;
         let includeFile := filepath.Join [actionDir; ".include"] in
         writeAFile includeFile ("lib" +:+ newline)
       else ret tt) ;
  (* Print informational success message *)
  run Fprint ("A local functions project directory '" +:+ project +:+
              "' was created for you." +:+ newline +:+
              "You may deploy it by running the command shown on the next line:" +:+
              newline +:+ "  doctl serverless deploy " +:+ project +:+ newline) ;
  ret tt.

(** [RunServerlessExtraDeploy] supports the [serverless deploy] command. *)
Definition RunServerlessExtraDeploy (c : CmdConfig) : M unit :=
  run adjustIncludeAndExclude c ;
  run check (ensureOneArg c) ;
  r <~ RunServerlessExec "deploy" c
         [flagInsecure; flagVerboseBuild; flagVerboseZip; flagYarn; flagRemoteBuild;
          flagIncremental]
         [flagEnv; flagBuildEnv; flagApihost; flagAuth; flagInclude; flagExclude] ;
  let '(output, err) := r in
  if negb (bool_decide (err = None)) && bool_decide (length (Captured output) = 0) then
    (* Just an error, nothing in 'Captured' *)
    check err
  else
    let output := mkOutput (fixupCaptured (Captured output)) (Rest output) in
    match err with
    | None =>
        (* Normal error-free return *)
        PrintServerlessTextOutput output
    | Some e =>
        (* display the transcript before returning the error; any error
           return from the print statement is ignored *)
        run Fprintln (strings.Join (Captured output) newline) ;
        fail e
    end.

(** [RunServerlessExtraGetMetadata] supports the [serverless get-metadata]
    command. *)
Definition RunServerlessExtraGetMetadata (c : CmdConfig) : M unit :=
  run adjustIncludeAndExclude c ;
  run check (ensureOneArg c) ;
  r <~ gets (λ w, (Doit.GetBool (w_doit w) (NS c) flagProjectReader).1) ;
  let ProjectPath := nth 0 (Args c) "" in
  res <~ (if r then
            λ w, (Ok (ReadProject (Serverless c) ProjectPath (Args c)),
                  log_call (CallReadProject ProjectPath) w)
          else
            RunServerlessExec "get-metadata" c [flagJSON; flagProjectReader]
              [flagEnv; flagInclude; flagExclude]) ;
  let '(output, err) := res in
  run check err ;
  PrintServerlessTextOutput output.

(** [RunServerlessExtraWatch] supports [serverless watch]. *)
Definition RunServerlessExtraWatch (c : CmdConfig) : M unit :=
  run adjustIncludeAndExclude c ;
  run check (ensureOneArg c) ;
  RunServerlessExecStreaming "watch" c
    [flagInsecure; flagVerboseBuild; flagVerboseZip; flagYarn; flagRemoteBuild]
    [flagEnv; flagBuildEnv; flagApihost; flagAuth; flagInclude; flagExclude].

(** The entries a successful [init] has written, over the disk [m] as it
    was once the directories were made and the sample was written. *)
Definition written_by_init (here : list string) (data : string) (ts : bool)
    (m : gmap (list string) node) : gmap (list string) node :=
  let hello := here ++ ["packages"; "sample"; "hello"] in
  let m :=
    <[here ++ [".gitignore"] :=
        File (if ts then gitignores +:+ ignoreForTypescript else gitignores)]>
      (<[here ++ ["project.yml"] := File data]> m) in
  if ts then
    <[hello ++ [".include"] := File ("lib" +:+ newline)]>
      (<[hello ++ ["tsconfig.json"] := File tsconfigJSON]>
         (<[hello ++ ["package.json"] := File packageJSONForTypescript]> m))
  else m.

End commands.

(** ** Notions used to state the properties *)

(** What [qualifyWebWithSlash] does to one token. *)
Definition qualifyToken (token : string) : string :=
  if bool_decide (token = "web") then "web/" else token.

(** No token holds a comma. *)
Definition comma_free (tokens : list string) : Prop :=
  Forall (λ t, strings.has_byte "," t = false) tokens.

(** [sub] occurs in [s]. *)
Definition occurs (sub s : string) : Prop :=
  ∃ pre post, s = pre +:+ sub +:+ post.

(** [s] is [pre], then [sub], then [post], and no occurrence of [sub] in
    [s] starts further left. *)
Definition first_occurrence (sub s pre post : string) : Prop :=
  s = pre +:+ sub +:+ post ∧
  ∀ pre' post', s = pre' +:+ sub +:+ post' → strings.len pre ≤ strings.len pre'.

(** The text that takes the place of a line reporting the deployed
    actions. *)
Definition deployedFunctions : string :=
  "Deployed functions ('doctl sbx fn get <funcName> --url' for URL):".

(** What the fix-up loop of the deploy command does to one line. *)
Definition rewriteLine (value : string) : string :=
  if strings.Contains value "Deploying project" then
    strings.Replace value "Deploying project" "Deployed" 1
  else if strings.Contains value "Deployed actions" then deployedFunctions
  else value.

(** The value of the exclude option after normalization ends in the
    reserved folder name. *)
Definition excludes_web (d : Config) (ns : string) : Prop :=
  ∃ v, cfgStrings d !! (ns, flagExclude) = Some v ∧
       (v = keywordWeb ∨ ∃ p, v = p +:+ "," +:+ keywordWeb).

(** The project specification a scaffold is expected to hold: one package,
    named [sample], with one function, named [hello], of the given kind,
    invocable from the web and not secured. *)
Definition scaffolded (kind : string) : ServerlessSpec :=
  mkSpec [mkPackage "sample" [mkFunction "hello" kind true false]].

(** A failed file-system call reports a path error. *)
Definition path_error (e : error) : Prop := ∃ op path errno, e = PathError op path errno.

(** The part of [generateSample] that makes the directories and writes
    the sample file. *)
Definition write_sample (kind sample samplePackage : string) (ts : bool) : M unit :=
  let runtime := hd "" (strings.Split kind ":") in
  let suffix := if ts then "ts" else fileExtensionForRuntime runtime in
  let actionDir := filepath.Join [samplePackage; "hello"] in
  run doMkdir actionDir true ;
  file <~ (if ts then
             let srcDir := filepath.Join [actionDir; "src"] in
             run doMkdir srcDir false ;
             ret (filepath.Join [srcDir; "hello." +:+ suffix])
           else
             ret (filepath.Join [actionDir; "hello." +:+ suffix])) ;
  writeAFile file sample.

(** The part of [generateSample] that registers the function in the
    package named [sample]. *)
Definition register_sample (kind : string) (config : ServerlessSpec)
    (actionDir : string) : M (string * ServerlessSpec) :=
  let sampPkg := find_sample (Packages config) 0 in
  pkg <~ deref config sampPkg ;
  if negb (bool_decide (pkgName pkg = "sample")) then
    fail (Errorf "could not find sample package in config (internal error)")
  else
    ret (actionDir,
         set_Functions config sampPkg [mkFunction "hello" kind true false]).

(** The normalizer as a function on the option store: the store after the
    include option is handled, and the value the exclude option gets. *)
Definition normalized_include (d : Config) (ns : string) : Config :=
  match Doit.GetString d ns flagInclude with
  | (includes, None) =>
      if bool_decide (includes = "") then d
      else Doit.Set_ d ns flagInclude (qualifyWebWithSlash includes)
  | _ => d
  end.

Definition normalized_exclude (d : Config) (ns : string) : string :=
  match Doit.GetString d ns flagExclude with
  | (excludes, None) =>
      if bool_decide (excludes = "") then keywordWeb
      else qualifyWebWithSlash excludes +:+ "," +:+ keywordWeb
  | _ => keywordWeb
  end.

(** ** A concrete environment, for examples *)

Module Demo.

Definition languageKeywords : list (string * list string) :=
  [("nodejs", ["javascript"; "js"]); ("typescript", ["typescript"; "ts"]);
   ("go", ["go"; "golang"]); ("python", ["python"; "py"]); ("php", ["php"])].

Definition samples : gmap string string :=
  list_to_map [("javascript", "function main(args) {}");
               ("typescript", "export function main(args: {}): {} {}");
               ("go", "package main")].

Definition gitignores : string := ".nimbella" +:+ newline +:+ ".deployed" +:+ newline.

Definition ignoreForTypescript : string := "node_modules" +:+ newline +:+ "lib" +:+ newline.

Definition packageJSONForTypescript : string := "{ 'main': 'lib/hello.js' }".
Definition tsconfigJSON : string := "{ 'compilerOptions': { 'outDir': 'lib' } }".

Definition yaml_function (f : ServerlessFunction) : string :=
  "  - name: " +:+ fnName f +:+ ", runtime: " +:+ fnRuntime f +:+ newline.

Definition yaml_package (p : ServerlessPackage) : string :=
  "- name: " +:+ pkgName p +:+ newline +:+
  strings.Join (yaml_function <$> pkgFunctions p) "".

Definition yaml_Marshal (s : ServerlessSpec) : string * option error :=
  (strings.Join (yaml_package <$> Packages s) "", None).

(** A host that cannot be reached. *)
Definition offline : ServerlessService :=
  mkService (Some (ExternalErr "not connected"))
    (mkCredentials "", Some (ExternalErr "no credentials"))
    (λ _, (mkHostInfo ∅, Some (ExternalErr "unreachable")))
    (λ _ _ _, (mkOutput [] "", Some (ExternalErr "unreachable")))
    (λ _ _ _, ([], Some (ExternalErr "unreachable")))
    (λ _ _, (mkOutput [] "", Some (ExternalErr "unreachable"))).

(** A host that offers [go] and [python], and a backend that answers
    with the given transcript and error. *)
Definition online (output : ServerlessOutput) (err : option error) : ServerlessService :=
  mkService None
    (mkCredentials "faas.example.com", None)
    (λ _, (mkHostInfo {[ "go" := ["go:1.17"]; "python" := ["python:3.9"] ]}, None))
    (λ _ _ _, (output, err))
    (λ _ _ _, (Captured output, err))
    (λ _ _, (output, err)).

(** An empty disk, the options as given, nothing printed yet. *)
Definition world (strs : list (string * string * string))
    (bools : list (string * string * bool)) : World :=
  mkWorld (mkFS ["home"; "dev"] {[ ["home"] := Dir; ["home"; "dev"] := Dir ]})
          (mkConfig (list_to_map strs) (list_to_map bools) ∅)
          (mkWriter [] false) [].

(** The same world, with a project directory [proj] that holds a file. *)
Definition populated (strs : list (string * string * string))
    (bools : list (string * string * bool)) : World :=
  mkWorld (mkFS ["home"; "dev"]
             {[ ["home"] := Dir; ["home"; "dev"] := Dir;
                ["home"; "dev"; "proj"] := Dir;
                ["home"; "dev"; "proj"; "notes.txt"] := File "keep me";
                ["home"; "dev"; "other.txt"] := File "elsewhere" ]})
          (mkConfig (list_to_map strs) (list_to_map bools) ∅)
          (mkWriter [] false) [].

Definition init (c : CmdConfig) : M unit :=
  RunServerlessExtraCreate languageKeywords samples gitignores ignoreForTypescript
    packageJSONForTypescript tsconfigJSON yaml_Marshal c.

End Demo.

(** ** Numbers in decimal: [strconv.Atoi] *)

Module strconv.

Inductive NumErrKind := ErrSyntax | ErrRange.

#[global] Instance NumErrKind_eq_dec : EqDecision NumErrKind.
Proof. solve_decision. Defined.

(** [*strconv.NumError] *)
Record NumError := mkNumError {
  Func : string;
  Num : string;
  Err : NumErrKind;
}.

(** The value of a decimal digit; [None] for any other byte. *)
Definition digit (c : ascii) : option Z :=
  let n := Z.of_N (N_of_ascii c) in
  if bool_decide (48 ≤ n ≤ 57)%Z then Some (n - 48)%Z else None.

Definition maxUint64 : Z := 2 ^ 64 - 1.

(** The loop of [ParseUint] for base 10 and [bitSize] bits, from the
    value [n] read so far: a byte that is no digit is a syntax error; the
    loop stops with a range error as soon as the value leaves the
    unsigned range of [bitSize] bits. *)
Fixpoint ParseUint_loop (bitSize : Z) (s : string) (n : Z) : Z * option NumErrKind :=
  let maxVal := (2 ^ bitSize - 1)%Z in
  match s with
  | "" => (n, None)
  | String c rest =>
      match digit c with
      | None => (0%Z, Some ErrSyntax)
      | Some d =>
          if bool_decide (maxUint64 / 10 + 1 ≤ n)%Z then (maxVal, Some ErrRange)
          else
            let n1 := (n * 10 + d)%Z in
            if bool_decide (maxVal < n1)%Z then (maxVal, Some ErrRange)
            else ParseUint_loop bitSize rest n1
      end
  end.

Definition ParseUint (bitSize : Z) (s : string) : Z * option NumErrKind :=
  if bool_decide (s = "") then (0%Z, Some ErrSyntax) else ParseUint_loop bitSize s 0%Z.

(** [ParseInt(s, 10, 0)], where the bit size 0 stands for the size
    [intSize] of an [int]. *)
Definition ParseInt (intSize : Z) (s : string) : Z * option NumErrKind :=
  match s with
  | "" => (0%Z, Some ErrSyntax)
  | String c rest =>
      let '(neg, body) :=
        if bool_decide (c = "+"%char) then (false, rest)
        else if bool_decide (c = "-"%char) then (true, rest)
        else (false, s) in
      let '(un, err) := ParseUint intSize body in
      if bool_decide (err = Some ErrSyntax) then (0%Z, err)
      else
        let cutoff := (2 ^ (intSize - 1))%Z in
        if negb neg && bool_decide (cutoff ≤ un)%Z then ((cutoff - 1)%Z, Some ErrRange)
        else if neg && bool_decide (cutoff < un)%Z then ((- cutoff)%Z, Some ErrRange)
        else ((if neg then - un else un)%Z, None)
  end.

(** The loop of the fast path of [Atoi]. *)
Fixpoint Atoi_loop (s : string) (n : Z) : option Z :=
  match s with
  | "" => Some n
  | String ch rest =>
      match digit ch with
      | None => None
      | Some d => Atoi_loop rest (n * 10 + d)%Z
      end
  end.

(** [strconv.Atoi], for a build whose [int] has [intSize] bits (32 or
    64, by the architecture the program is built for): a string of 1 to
    9 bytes on a 32-bit build, of 1 to 18 bytes on a 64-bit build, takes
    the fast path, on which the value cannot leave the range of [int];
    any other string is handed to [ParseInt]. *)
Definition Atoi (intSize : Z) (s : string) : Z * option NumError :=
  let syntaxError := (0%Z, Some (mkNumError "Atoi" s ErrSyntax)) in
  let sLen := strings.len s in
  if bool_decide (intSize = 32%Z ∧ 0 < sLen < 10 ∨ intSize = 64%Z ∧ 0 < sLen < 19) then
    match s with
    | "" => syntaxError
    | String c rest =>
        let signed := bool_decide (c = "-"%char) || bool_decide (c = "+"%char) in
        let body := if signed then rest else s in
        if signed && bool_decide (strings.len body < 1) then syntaxError
        else
          match Atoi_loop body 0%Z with
          | None => syntaxError
          | Some n => ((if bool_decide (c = "-"%char) then - n else n)%Z, None)
          end
    end
  else
    let '(i64, err) := ParseInt intSize s in
    (i64, mkNumError "Atoi" s <$> err).

End strconv.

(** ** The image commands *)

Module images.

(** An error a command returns: the error of a number that does not
    parse, or one of the errors above. *)
Inductive cmd_error :=
| NumErr (e : strconv.NumError)
| Plain (e : error).

(** The fields of [do.Image] that identify an image; the commands below
    pass images on without looking into them. *)
Record Image := mkImage {
  imgID : Z;
  imgName : string;
  imgSlug : string;
}.

Inductive ImagesCall :=
| CallList (public : bool)
| CallListDistribution (public : bool)
| CallListApplication (public : bool)
| CallListUser (public : bool)
| CallGetByID (id : Z)
| CallGetBySlug (slug : string)
| CallUpdate (id : Z) (name : string)
| CallDelete (id : Z).

#[global] Instance ImagesCall_eq_dec : EqDecision ImagesCall.
Proof. solve_decision. Defined.

(** [do.ImagesService], declared elsewhere in the repository, as the
    commands use it: each method returns a value next to an error, and
    [Delete] an error only.  An answer may depend on the calls made
    before, which is the first argument of each field.  A method that
    returns no error returns an image or a list of images, never a nil
    pointer. *)
Record ImagesService := mkImages {
  List : list ImagesCall → bool → list Image * option error;
  ListDistribution : list ImagesCall → bool → list Image * option error;
  ListApplication : list ImagesCall → bool → list Image * option error;
  ListUser : list ImagesCall → bool → list Image * option error;
  GetByID : list ImagesCall → Z → Image * option error;
  GetBySlug : list ImagesCall → string → Image * option error;
  Update : list ImagesCall → Z → string → Image * option error;
  Delete : list ImagesCall → Z → option error;
}.

(** The commands below that read a number take the size [intSize] of an
    [int] of the build as their first argument. *)

(** The part of [CmdConfig] the image commands use.  [Confirm] is the
    answer [AskForConfirm], declared elsewhere in the repository, gets
    from the user for a message. *)
Record CmdConfig := mkCmdConfig {
  NS : string;
  Args : list string;
  Images : ImagesService;
  Confirm : string → option error;
}.

(** What a command reads and changes: the options, the calls made on the
    service, the questions put to the user, and what was handed to
    [c.Display] (a display that is broken fails). *)
Record State := mkState {
  doit : Config;
  calls : list ImagesCall;
  asked : list string;
  shown : list (list Image);
  broken : bool;
}.

Definition call (k : ImagesCall) (st : State) : State :=
  mkState (doit st) (calls st ++ [k]) (asked st) (shown st) (broken st).

(** [c.Display(item)] for an item that holds images, declared elsewhere
    in the repository: the images reach the display, or the write fails. *)
Definition Display (item : list Image) (st : State) : option cmd_error * State :=
  if broken st then (Some (Plain (ExternalErr "write failed")), st)
  else (None, mkState (doit st) (calls st) (asked st) (shown st ++ [item]) false).

(** [AskForConfirm(message)] *)
Definition AskForConfirm (c : CmdConfig) (message : string) (st : State)
  : option error * State :=
  (Confirm c message,
   mkState (doit st) (calls st) (asked st ++ [message]) (shown st) (broken st)).

(** The names of the options, declared elsewhere in the repository. *)
Definition ArgImagePublic : string := "public".
Definition ArgImageName : string := "image-name".
Definition ArgForce : string := "force".

(** The body the four list commands share: they differ in the method
    they call. *)
Definition list_with (method : list ImagesCall → bool → list Image * option error)
    (k : bool → ImagesCall) (c : CmdConfig) (st : State) : option cmd_error * State :=
  match Doit.GetBool (doit st) (NS c) ArgImagePublic with
  | (_, Some err) => (Some (Plain err), st)
  | (public, None) =>
      let '(list, err) := method (calls st) public in
      let st := call (k public) st in
      match err with
      | Some err => (Some (Plain err), st)
      | None => Display list st
      end
  end.

(** [RunImagesList] *)
Definition RunImagesList (c : CmdConfig) : State → option cmd_error * State :=
  list_with (List (Images c)) CallList c.

(** [RunImagesListDistribution] lists distributions that are available. *)
Definition RunImagesListDistribution (c : CmdConfig) : State → option cmd_error * State :=
  list_with (ListDistribution (Images c)) CallListDistribution c.

(** [RunImagesListApplication] lists application images. *)
Definition RunImagesListApplication (c : CmdConfig) : State → option cmd_error * State :=
  list_with (ListApplication (Images c)) CallListApplication c.

(** [RunImagesListUser] lists user images. *)
Definition RunImagesListUser (c : CmdConfig) : State → option cmd_error * State :=
  list_with (ListUser (Images c)) CallListUser c.

(** [RunImagesGet] retrieves an image by id or slug. *)
Definition RunImagesGet (intSize : Z) (c : CmdConfig) (st : State) : option cmd_error * State :=
  if negb (bool_decide (length (Args c) = 1)) then
    (Some (Plain (MissingArgsErr (NS c))), st)
  else
    let rawID := nth 0 (Args c) "" in
    let '(i, err, st) :=
      match strconv.Atoi intSize rawID with
      | (id, None) =>
          let '(i, err) := GetByID (Images c) (calls st) id in
          (Some i, err, call (CallGetByID id) st)
      | (_, Some cerr) =>
          if bool_decide (0 < strings.len rawID) then
            let '(i, err) := GetBySlug (Images c) (calls st) rawID in
            (Some i, err, call (CallGetBySlug rawID) st)
          else
            (None, Some (Errorf "image identifier is required"), st)
      end in
    match err, i with
    | Some err, _ => (Some (Plain err), st)
    | None, Some i => Display [i] st
    | None, None => (None, st)
    end.

(** [RunImagesUpdate] updates an image. *)
Definition RunImagesUpdate (intSize : Z) (c : CmdConfig) (st : State) : option cmd_error * State :=
  if negb (bool_decide (length (Args c) = 1)) then
    (Some (Plain (MissingArgsErr (NS c))), st)
  else
    match strconv.Atoi intSize (nth 0 (Args c) "") with
    | (_, Some err) => (Some (NumErr err), st)
    | (id, None) =>
        match Doit.GetString (doit st) (NS c) ArgImageName with
        | (_, Some err) => (Some (Plain err), st)
        | (name, None) =>
            let '(i, err) := Update (Images c) (calls st) id name in
            let st := call (CallUpdate id name) st in
            match err with
            | Some err => (Some (Plain err), st)
            | None => Display [i] st
            end
        end
    end.

(** The loop of [RunImagesDelete] over the arguments. *)
Fixpoint delete_each (intSize : Z) (c : CmdConfig) (args : list string) (st : State)
  : option cmd_error * State :=
  match args with
  | [] => (None, st)
  | el :: rest =>
      match strconv.Atoi intSize el with
      | (_, Some err) => (Some (NumErr err), st)
      | (id, None) =>
          match Delete (Images c) (calls st) id with
          | Some err => (Some (Plain err), call (CallDelete id) st)
          | None => delete_each intSize c rest (call (CallDelete id) st)
          end
      end
  end.

(** [RunImagesDelete] deletes an image. *)
Definition RunImagesDelete (intSize : Z) (c : CmdConfig) (st : State) : option cmd_error * State :=
  if bool_decide (length (Args c) < 1) then
    (Some (Plain (MissingArgsErr (NS c))), st)
  else
    match Doit.GetBool (doit st) (NS c) ArgForce with
    | (_, Some err) => (Some (Plain err), st)
    | (force, None) =>
        let '(go, st) :=
          if force then (true, st)
          else
            let '(answer, st) := AskForConfirm c "delete image(s)" st in
            (bool_decide (answer = None), st) in
        if go then delete_each intSize c (Args c) st
        else (Some (Plain (Errorf "operation aborted")), st)
    end.

End images.

(** A service for the examples: it holds every image asked for, and
    refuses to delete the image 13 and any image a second time. *)
Module ImagesDemo.

Definition ubuntu : images.Image := images.mkImage 7 "ubuntu" "ubuntu-22-04-x64".

Definition service : images.ImagesService :=
  images.mkImages
    (λ _ _, ([ubuntu], None)) (λ _ _, ([ubuntu], None))
    (λ _ _, ([], None)) (λ _ _, ([], None))
    (λ _ id, (images.mkImage id "found by id" "", None))
    (λ _ slug, (images.mkImage 7 "found by slug" slug, None))
    (λ _ id name, (images.mkImage id name "", None))
    (λ log id, if bool_decide (images.CallDelete id ∈ log) then Some (ExternalErr "not found")
               else if bool_decide (id = 13%Z) then Some (ExternalErr "in use")
               else None).

(** The command run with the given arguments by a user who declines. *)
Definition config (args : list string) : images.CmdConfig :=
  images.mkCmdConfig "image" args service (λ _, Some (Errorf "invalid answer")).

Definition state (strs : list (string * string * string))
    (bools : list (string * string * bool)) : images.State :=
  images.mkState (mkConfig (list_to_map strs) (list_to_map bools) ∅) [] [] [] false.

End ImagesDemo.

(** ** Notions used to state further properties *)

(** The runtime a lowercased language keyword stands for, as the switch of
    [languageToKindAndSample] assigns it. *)
Definition canonical_runtime (language : string) : string :=
  if bool_decide (language = "ts" ∨ language = "typescript" ∨
                  language = "js" ∨ language = "javascript") then "nodejs"
  else if bool_decide (language = "py") then "python"
  else if bool_decide (language = "golang") then "go"
  else language.

(** The disk [fs'] keeps what the disk [fs] holds outside [here]: the
    working directory is the same and every entry of [fs] that is not at
    or below [here] is in [fs'], unchanged. *)
Definition keeps_outside (here : list string) (fs fs' : FS) : Prop :=
  cwd fs' = cwd fs ∧
  ∀ k n, os.under here k = false → nodes fs !! k = Some n → nodes fs' !! k = Some n.

(** The locations a scaffold occupies at or below the project location
    [here]; [file] is the name of the sample file. *)
Definition scaffold (here : list string) (ts : bool) (file : string)
  : list (list string) :=
  let hello := here ++ ["packages"; "sample"; "hello"] in
  [here; here ++ ["packages"]; here ++ ["packages"; "sample"]; hello;
   here ++ ["project.yml"]; here ++ [".gitignore"]] ++
  (if ts then
     [hello ++ ["src"]; hello ++ ["src"; file]; hello ++ ["package.json"];
      hello ++ ["tsconfig.json"]; hello ++ [".include"]]
   else [hello ++ [file]]).

(** The computation [m], run in a world whose working directory is
    [cwd0], keeps what the disk holds outside [here], however it ends. *)
Definition stays_inside {A} (cwd0 here : list string) (m : M A) : Prop :=
  ∀ w, cwd (w_fs w) = cwd0 → keeps_outside here (w_fs w) (w_fs (m w).2).

(** The name of the sample file that [init] writes for a lowercased
    language keyword. *)
Definition sample_file (language : string) : string :=
  if bool_decide (language = "ts" ∨ language = "typescript") then "hello.ts"
  else "hello." +:+ fileExtensionForRuntime (canonical_runtime language).

(** A language keyword without a path separator whose runtime holds no
    colon. *)
Definition sane_language (language : string) : Prop :=
  strings.has_byte "/" language = false ∧
  strings.has_byte ":" (canonical_runtime language) = false.

(** The result is a normal return. *)
Definition succeeded {A} (r : result A) : bool :=
  match r with Ok _ => true | _ => false end.

(** The computation [m] leaves the output and the options as they are. *)
Definition quiet {A} (m : M A) : Prop :=
  ∀ w, w_out (m w).2 = w_out w ∧ w_doit (m w).2 = w_doit w.

(** The computation [m] leaves the options as they are and prints [msg],
    once, exactly when it returns normally; a writer that is broken
    receives nothing. *)
Definition announces {A} (msg : string) (m : M A) : Prop :=
  ∀ w, w_doit (m w).2 = w_doit w ∧
       w_out (m w).2
       = if succeeded (m w).1 && negb (broken (w_out w))
         then mkWriter (written (w_out w) ++ [Text msg]) false
         else w_out w.

(** Every byte of the string is a decimal digit. *)
Fixpoint all_digits (s : string) : bool :=
  match s with
  | "" => true
  | String c rest => bool_decide (is_Some (strconv.digit c)) && all_digits rest
  end.

(** The arguments [els] are numbers, the identifiers [ids], and the
    service deletes each of them without error when they are deleted in
    order from the state [st]. *)
Definition deleted_in_order (intSize : Z) (c : images.CmdConfig) (st : images.State)
    (els : list string) (ids : list Z) : Prop :=
  Forall2 (λ el id, strconv.Atoi intSize el = (id, None)) els ids ∧
  ∀ i id, ids !! i = Some id →
    images.Delete (images.Images c)
      (images.calls st ++ (images.CallDelete <$> take i ids)) id = None.

(** The state [st] after the calls [ks] on the service. *)
Definition after_calls (ks : list images.ImagesCall) (st : images.State) : images.State :=
  images.mkState (images.doit st) (images.calls st ++ ks) (images.asked st)
    (images.shown st) (images.broken st).

(** The image commands that only look things up or change one image. *)
Definition image_queries (intSize : Z)
  : list (images.CmdConfig → images.State → option images.cmd_error * images.State) :=
  [images.RunImagesList; images.RunImagesListDistribution; images.RunImagesListApplication;
   images.RunImagesListUser; images.RunImagesGet intSize; images.RunImagesUpdate intSize].

(** * Properties *)

(** ** Strings *)

Example Split_example : strings.Split "foo,web,,x" "," = ["foo"; "web"; ""; "x"].
Proof. reflexivity. Qed.

Example Replace_example :
  strings.Replace "aXYbXYc" "XY" "-" 1 = "a-bXYc".
Proof. reflexivity. Qed.

Example ToLower_example : strings.ToLower "TypeScript" = "typescript".
Proof. reflexivity. Qed.

Section string_facts.

Implicit Types s t pre post sub : string.

Lemma sapp_nil_l s : "" +:+ s = s.
Proof. reflexivity. Qed.

Lemma sapp_cons a s t : String a s +:+ t = String a (s +:+ t).
Proof. reflexivity. Qed.

Lemma sapp_nil_r s : s +:+ "" = s.
Proof. induction s as [|a s IH]; [done|]. by rewrite sapp_cons, IH. Qed.

Lemma sapp_assoc s t u : (s +:+ t) +:+ u = s +:+ t +:+ u.
Proof. induction s as [|a s IH]; [done|]. by rewrite !sapp_cons, IH. Qed.

Lemma len_cons a s : strings.len (String a s) = S (strings.len s).
Proof. reflexivity. Qed.

Lemma take_S n a s : strings.take (S n) (String a s) = String a (strings.take n s).
Proof. reflexivity. Qed.

Lemma drop_S n a s : strings.drop (S n) (String a s) = strings.drop n s.
Proof. reflexivity. Qed.

Lemma len_app s t : strings.len (s +:+ t) = strings.len s + strings.len t.
Proof.
  induction s as [|a s IH]; [done|].
  by rewrite sapp_cons, !len_cons, IH.
Qed.

Lemma take_app_len s t : strings.take (strings.len s) (s +:+ t) = s.
Proof.
  induction s as [|a s IH]; [by destruct t|].
  by rewrite sapp_cons, len_cons, take_S, IH.
Qed.

Lemma drop_app_len s t : strings.drop (strings.len s) (s +:+ t) = t.
Proof.
  induction s as [|a s IH]; [by destruct t|].
  by rewrite sapp_cons, len_cons, drop_S.
Qed.

Lemma drop_drop n m s : strings.drop n (strings.drop m s) = strings.drop (m + n) s.
Proof.
  revert s. induction m as [|m IH]; intros s; [done|].
  destruct s as [|a s]; [by destruct n|].
  rewrite Nat.add_succ_l, !drop_S. apply IH.
Qed.

(** [HasPrefix] is the prefix relation. *)
Lemma HasPrefix_spec s sub :
  strings.HasPrefix s sub = true ↔ ∃ post, s = sub +:+ post.
Proof.
  unfold strings.HasPrefix. revert s.
  induction sub as [|b sub IH]; intros s.
  - split; [intros _; by exists s|]. intros _. by destruct s.
  - destruct s as [|a s]; cbn.
    + split; [done|]. intros [post Hp]. by rewrite sapp_cons in Hp.
    + destruct (ascii_dec b a) as [->|Hne].
      * rewrite IH. split; intros [post Hp]; exists post.
        -- by rewrite sapp_cons, Hp.
        -- rewrite sapp_cons in Hp. by simplify_eq.
      * split; [done|]. intros [post Hp]. rewrite sapp_cons in Hp. by simplify_eq.
Qed.

Lemma Index_nil sub :
  strings.Index "" sub = if strings.HasPrefix "" sub then Some 0 else None.
Proof. reflexivity. Qed.

Lemma Index_cons a s sub :
  strings.Index (String a s) sub =
  if strings.HasPrefix (String a s) sub then Some 0 else S <$> strings.Index s sub.
Proof. reflexivity. Qed.

(** [Index] finds the first occurrence. *)
Lemma Index_Some s sub i :
  strings.Index s sub = Some i →
  ∃ pre post, s = pre +:+ sub +:+ post ∧ strings.len pre = i.
Proof.
  revert i. induction s as [|a s IH]; intros i.
  - rewrite Index_nil. destruct (strings.HasPrefix "" sub) eqn:Hp; [|done].
    intros [= <-]. apply HasPrefix_spec in Hp as [post Hp]. by exists "", post.
  - rewrite Index_cons. destruct (strings.HasPrefix (String a s) sub) eqn:Hp.
    + intros [= <-]. apply HasPrefix_spec in Hp as [post Hp]. by exists "", post.
    + destruct (strings.Index s sub) as [j|] eqn:Hj; [|done].
      intros [= <-]. destruct (IH j eq_refl) as (pre & post & -> & <-).
      by exists (String a pre), post.
Qed.

Lemma Index_first s sub pre post :
  s = pre +:+ sub +:+ post →
  ∃ i, strings.Index s sub = Some i ∧ i ≤ strings.len pre.
Proof.
  revert s. induction pre as [|a pre IH]; intros s ->.
  - exists 0. split; [|done]. rewrite sapp_nil_l.
    assert (strings.HasPrefix (sub +:+ post) sub = true) as Hp
      by (apply HasPrefix_spec; by exists post).
    destruct (sub +:+ post); [rewrite Index_nil|rewrite Index_cons]; by rewrite Hp.
  - rewrite sapp_cons, Index_cons.
    destruct (strings.HasPrefix _ sub); [exists 0; split; [done|rewrite len_cons; lia]|].
    destruct (IH _ eq_refl) as (i & -> & Hi). exists (S i). split; [done|].
    rewrite len_cons. lia.
Qed.

Lemma Contains_spec s sub :
  strings.Contains s sub = true ↔ ∃ pre post, s = pre +:+ sub +:+ post.
Proof.
  unfold strings.Contains. rewrite bool_decide_eq_true. split.
  - intros [i Hi]. apply Index_Some in Hi as (pre & post & ? & _). eauto.
  - intros (pre & post & Hs). apply Index_first in Hs as (i & -> & _). eauto.
Qed.

(** Replacing one occurrence replaces the first one. *)
Lemma Replace_one s old new pre post :
  s = pre +:+ old +:+ post →
  ∃ pre' post',
    s = pre' +:+ old +:+ post' ∧ strings.len pre' ≤ strings.len pre ∧
    strings.Replace s old new 1 = pre' +:+ new +:+ post'.
Proof.
  intros Hs. destruct (Index_first _ _ _ _ Hs) as (i & Hi & Hle).
  destruct (Index_Some _ _ _ Hi) as (pre' & post' & Hs' & Hlen).
  exists pre', post'. split; [done|]. split; [lia|].
  cbn. rewrite Hi. subst i. rewrite Hs' at 1 2.
  rewrite take_app_len. do 2 f_equal.
  rewrite <-drop_drop, drop_app_len. apply drop_app_len.
Qed.

Lemma Replace_none s old new n :
  strings.Contains s old = false → strings.Replace s old new n = s.
Proof.
  unfold strings.Contains. rewrite bool_decide_eq_false.
  intros Hno. destruct n; [done|]. cbn.
  destruct (strings.Index s old); [|done]. destruct Hno; eauto.
Qed.

(** [Split] and [Join] with a one-byte separator are inverse to each
    other on tokens that do not hold the separator. *)
Lemma Split_nonempty s c : strings.Split s c ≠ [].
Proof.
  destruct s as [|a s]; cbn; [done|].
  case_decide; [done|]. by destruct (strings.Split s c).
Qed.

Lemma Split_no_sep s c :
  Forall (λ t, strings.has_byte c t = false) (strings.Split s c).
Proof.
  induction s as [|a s IH]; cbn.
  - by repeat constructor.
  - case_decide as Hac; [by constructor|].
    pose proof (Split_nonempty s c) as Hne.
    destruct (strings.Split s c) as [|tok toks]; [done|].
    inversion_clear IH as [|?? Htok Htoks]. constructor; [|done].
    cbn. rewrite Htok. by rewrite bool_decide_eq_false_2.
Qed.

Lemma Split_app_sep t c s :
  strings.has_byte c t = false →
  strings.Split (t +:+ String c s) c = t :: strings.Split s c.
Proof.
  induction t as [|a t IH]; cbn; intros Ht.
  - rewrite sapp_nil_l. cbn. by rewrite decide_True.
  - apply orb_false_iff in Ht as [Ha Ht]. apply bool_decide_eq_false in Ha.
    rewrite sapp_cons. cbn. rewrite decide_False by done. by rewrite IH.
Qed.

Lemma Split_single t c :
  strings.has_byte c t = false → strings.Split t c = [t].
Proof.
  induction t as [|a t IH]; cbn; intros Ht; [done|].
  apply orb_false_iff in Ht as [Ha Ht]. apply bool_decide_eq_false in Ha.
  rewrite decide_False by done. by rewrite IH.
Qed.

Lemma Join_cons e rest sep :
  rest ≠ [] → strings.Join (e :: rest) sep = e +:+ sep +:+ strings.Join rest sep.
Proof. by destruct rest. Qed.

Lemma Split_Join ts c :
  ts ≠ [] → Forall (λ t, strings.has_byte c t = false) ts →
  strings.Split (strings.Join ts (String c "")) c = ts.
Proof.
  induction ts as [|t ts IH]; [done|]. intros _ Hts.
  inversion_clear Hts as [|?? Ht Hts'].
  destruct (decide (ts = [])) as [->|Hne]; [by apply Split_single|].
  rewrite Join_cons by done. rewrite sapp_cons, sapp_nil_l.
  rewrite Split_app_sep by done. by rewrite IH.
Qed.

Lemma Join_Split s c : strings.Join (strings.Split s c) (String c "") = s.
Proof.
  induction s as [|a s IH]; [done|]. cbn.
  pose proof (Split_nonempty s c) as Hne. case_decide as Hac.
  - subst a. rewrite Join_cons by done. by rewrite IH.
  - destruct (strings.Split s c) as [|tok toks]; [done|].
    destruct toks as [|tok' toks].
    + cbn in *. by rewrite IH.
    + rewrite Join_cons by done. rewrite Join_cons in IH by done.
      by rewrite sapp_cons, IH.
Qed.

Lemma Join_snoc ts t sep :
  ts ≠ [] → strings.Join (ts ++ [t]) sep = strings.Join ts sep +:+ sep +:+ t.
Proof.
  induction ts as [|e ts IH]; [done|]. intros _.
  destruct (decide (ts = [])) as [->|Hne]; [done|].
  rewrite <-app_comm_cons. rewrite !Join_cons; [|done|by destruct ts].
  rewrite IH by done. by rewrite !sapp_assoc.
Qed.

Lemma Split_snoc s c t :
  strings.has_byte c t = false →
  strings.Split (s +:+ String c t) c = strings.Split s c ++ [t].
Proof.
  intros Ht. induction s as [|a s IH].
  - rewrite sapp_nil_l. cbn. rewrite decide_True by done. by rewrite Split_single.
  - rewrite sapp_cons. cbn. case_decide; rewrite IH; [done|].
    pose proof (Split_nonempty s c). by destruct (strings.Split s c).
Qed.

End string_facts.

(** ** Loops that update a slice in place

    A loop [for i, x := range l { ... l[i] = f(x) ... }] that writes at
    most the element it is visiting computes [f] on every element. *)

Lemma inplace_loop_from {A} (step : list A → nat * A → list A) (f : A → A) :
  (∀ acc i x, acc !! i = Some x → step acc (i, x) = <[i := f x]> acc) →
  ∀ rest seen,
    fold_left step (imap (λ j, pair (length seen + j)) rest) ((f <$> seen) ++ rest)
    = f <$> (seen ++ rest).
Proof.
  intros Hstep rest. induction rest as [|x rest IH]; intros seen.
  - by rewrite !app_nil_r.
  - rewrite imap_cons. cbn [fold_left]. rewrite Nat.add_0_r.
    rewrite Hstep.
    2:{ rewrite lookup_app_r by (by rewrite length_fmap).
        by rewrite length_fmap, Nat.sub_diag. }
    rewrite insert_app_r_alt by (by rewrite length_fmap).
    rewrite length_fmap, Nat.sub_diag. cbn [list_insert].
    specialize (IH (seen ++ [x])).
    rewrite fmap_app, <-!app_assoc in IH. cbn in IH.
    rewrite <-IH. f_equal. apply imap_ext. intros j y _. cbn.
    f_equal. rewrite length_app. cbn. lia.
Qed.

Lemma inplace_loop {A} (step : list A → nat * A → list A) (f : A → A) (l : list A) :
  (∀ acc i x, acc !! i = Some x → step acc (i, x) = <[i := f x]> acc) →
  fold_left step (imap pair l) l = f <$> l.
Proof. intros Hstep. exact (inplace_loop_from step f Hstep l []). Qed.

Lemma qualifyWebWithSlash_tokens original :
  qualifyWebWithSlash original
  = strings.Join (qualifyToken <$> strings.Split original ",") ",".
Proof.
  unfold qualifyWebWithSlash. f_equal. apply inplace_loop.
  intros acc i x Hx. unfold qualifyToken. cbn.
  case_bool_decide; [done|]. by rewrite list_insert_id.
Qed.

Lemma fixupCaptured_lines captured :
  fixupCaptured captured = rewriteLine <$> captured.
Proof.
  unfold fixupCaptured. apply inplace_loop.
  intros acc i x Hx. unfold rewriteLine. cbn.
  destruct (strings.Contains x "Deploying project"); [done|].
  destruct (strings.Contains x "Deployed actions"); [done|].
  by rewrite list_insert_id.
Qed.

(** ** Transcript rewriting *)

Lemma rewriteLine_deploying line :
  occurs "Deploying project" line →
  ∃ pre post,
    first_occurrence "Deploying project" line pre post ∧
    rewriteLine line = pre +:+ "Deployed" +:+ post.
Proof.
  intros Hocc. unfold rewriteLine.
  rewrite (proj2 (Contains_spec _ _) Hocc).
  destruct Hocc as (pre0 & post0 & Hline).
  destruct (Index_first _ _ _ _ Hline) as (i & Hi & _).
  destruct (Index_Some _ _ _ Hi) as (pre & post & Hs & Hlen).
  exists pre, post. split; [split; [done|]|].
  - intros pre' post' Hs'. destruct (Index_first _ _ _ _ Hs') as (i' & Hi' & Hle).
    rewrite Hi in Hi'. injection Hi' as <-. lia.
  - destruct (Replace_one _ _ "Deployed" _ _ Hs) as (pre' & post' & Hs' & Hle & ->).
    destruct (Index_first _ _ _ _ Hs') as (i' & Hi' & Hle').
    rewrite Hi in Hi'. injection Hi' as <-.
    assert (strings.len pre' = strings.len pre) as Hsame by lia.
    assert (pre' = pre) as ->.
    { rewrite <-(take_app_len pre' ("Deploying project" +:+ post')), <-Hs', Hsame, Hs.
      apply take_app_len. }
    rewrite Hs in Hs'. by simplify_eq.
Qed.

(** C4, as amended: the fix-up loop rewrites every line by itself.  In a
    line in which the text [Deploying project] occurs, its first
    occurrence becomes [Deployed]; a line in which [Deployed actions]
    occurs but [Deploying project] does not is replaced by the fixed
    branded line; every other line is kept. *)
Theorem transcript_rewriting_by_line (captured : list string) :
  fixupCaptured captured = rewriteLine <$> captured ∧
  (∀ line, occurs "Deploying project" line →
     ∃ pre post,
       first_occurrence "Deploying project" line pre post ∧
       rewriteLine line = pre +:+ "Deployed" +:+ post) ∧
  (∀ line, ¬ occurs "Deploying project" line → occurs "Deployed actions" line →
     rewriteLine line = deployedFunctions) ∧
  (∀ line, ¬ occurs "Deploying project" line → ¬ occurs "Deployed actions" line →
     rewriteLine line = line).
Proof.
  split; [apply fixupCaptured_lines|].
  split; [apply rewriteLine_deploying|].
  split; intros line H1 H2; unfold rewriteLine.
  - destruct (strings.Contains line "Deploying project") eqn:E1.
    { destruct H1. by apply Contains_spec. }
    by rewrite (proj2 (Contains_spec _ _) H2).
  - destruct (strings.Contains line "Deploying project") eqn:E1.
    { destruct H1. by apply Contains_spec. }
    destruct (strings.Contains line "Deployed actions") eqn:E2; [|done].
    destruct H2. by apply Contains_spec.
Qed.

Lemma transcript_rewriting_by_line_witness :
  rewriteLine "ok: Deployed actions" = deployedFunctions ∧
  rewriteLine "nothing to see" = "nothing to see".
Proof.
  destruct (transcript_rewriting_by_line []) as (_ & _ & Hactions & Hother).
  split.
  - apply Hactions.
    + intros H%Contains_spec. vm_compute in H. discriminate.
    + by exists "ok: ", "".
  - apply Hother; intros H%Contains_spec; vm_compute in H; discriminate.
Defined.

(** C4, as first stated, fails: a line that holds both texts is not
    replaced by the branded line. *)
Lemma transcript_rewriting_counterexample :
  ¬ (∀ (captured : list string) (index : nat) (line : string),
       captured !! index = Some line → occurs "Deployed actions" line →
       fixupCaptured captured !! index = Some deployedFunctions).
Proof.
  intros H.
  specialize (H ["Deploying project 'demo': Deployed actions"] 0 _ eq_refl).
  assert (occurs "Deployed actions" "Deploying project 'demo': Deployed actions") as Hocc
    by (by exists "Deploying project 'demo': ", "").
  specialize (H Hocc). vm_compute in H. discriminate.
Qed.

Example fixupCaptured_example :
  fixupCaptured ["Deploying project '/home/dev/proj'"; "  to namespace 'fn-1'";
                 "Deployed actions ('nim action get <name> --url' for URL):";
                 "  - sample/hello"]
  = ["Deployed '/home/dev/proj'"; "  to namespace 'fn-1'"; deployedFunctions;
     "  - sample/hello"].
Proof. reflexivity. Qed.

(** ** Include/exclude normalization *)

Lemma GetString_Set_ne d ns key key' val :
  key ≠ key' →
  Doit.GetString (Doit.Set_ d ns key val) ns key' = Doit.GetString d ns key'.
Proof.
  intros Hne. unfold Doit.GetString, Doit.Set_. cbn.
  case_bool_decide; [done|]. rewrite lookup_insert_ne; [done|congruence].
Qed.

(** Settles the tests [err == nil] once the error is known. *)
Ltac err_cases :=
  repeat first
    [ rewrite (bool_decide_eq_true_2 (@None error = None)) by done
    | match goal with
      | |- context [bool_decide (Some ?e = None)] =>
          rewrite (bool_decide_eq_false_2 (Some e = None)) by done
      end ];
  cbv beta iota delta [andb negb].

Lemma adjustIncludeAndExclude_run c w :
  adjustIncludeAndExclude c w
  = (Ok tt,
     set_doit (Doit.Set_ (normalized_include (w_doit w) (NS c)) (NS c) flagExclude
                 (normalized_exclude (w_doit w) (NS c))) w).
Proof.
  unfold adjustIncludeAndExclude, normalized_include, normalized_exclude, bind, gets, ret.
  destruct (Doit.GetString (w_doit w) (NS c) flagInclude) as [includes [e|]] eqn:Hinc;
    err_cases.
  - destruct (Doit.GetString (w_doit w) (NS c) flagExclude) as [excludes [e'|]] eqn:Hexc;
      err_cases; [done|]. by case_bool_decide.
  - case_bool_decide as Hempty.
    + destruct (Doit.GetString (w_doit w) (NS c) flagExclude) as [excludes [e'|]] eqn:Hexc;
        err_cases; [done|]. by case_bool_decide.
    + cbn [w_doit set_doit]. rewrite GetString_Set_ne by done.
      destruct (Doit.GetString (w_doit w) (NS c) flagExclude) as [excludes [e'|]] eqn:Hexc;
        err_cases; [done|]. by case_bool_decide.
Qed.

Lemma Join_tokens_nonempty tokens sep : strings.Join tokens sep ≠ "" → tokens ≠ [].
Proof. by intros H ->. Qed.

Lemma qualifyWebWithSlash_Join tokens :
  tokens ≠ [] → comma_free tokens →
  qualifyWebWithSlash (strings.Join tokens ",")
  = strings.Join (qualifyToken <$> tokens) ",".
Proof.
  intros Hne Hfree. rewrite qualifyWebWithSlash_tokens.
  by rewrite (Split_Join tokens ",").
Qed.

(** C3: the normalizer never fails and touches nothing but the two
    options.  An exclude option that is unset, empty or unreadable becomes
    exactly [web].  An exclude option that holds the comma-separated
    tokens [tokens] becomes the same tokens, in the same order, with every
    token [web] turned into [web/], followed by one more token [web].  An
    include option that holds tokens gets only the [web] to [web/]
    rewriting; otherwise it is left as it is. *)
Theorem adjustIncludeAndExclude_normalizes (c : CmdConfig) (w : World) :
  let r := adjustIncludeAndExclude c w in
  let inc := Doit.GetString (w_doit w) (NS c) flagInclude in
  let exc := Doit.GetString (w_doit w) (NS c) flagExclude in
  let strs := cfgStrings (w_doit w) in
  let strs' := cfgStrings (w_doit r.2) in
  r.1 = Ok tt ∧
  (exc.2 ≠ None ∨ exc.1 = "" → strs' !! (NS c, flagExclude) = Some "web") ∧
  (∀ tokens, exc = (strings.Join tokens ",", None) → strings.Join tokens "," ≠ "" →
     comma_free tokens →
     strs' !! (NS c, flagExclude)
     = Some (strings.Join ((qualifyToken <$> tokens) ++ ["web"]) ",")) ∧
  (∀ tokens, inc = (strings.Join tokens ",", None) → strings.Join tokens "," ≠ "" →
     comma_free tokens →
     strs' !! (NS c, flagInclude) = Some (strings.Join (qualifyToken <$> tokens) ",")) ∧
  (inc.2 ≠ None ∨ inc.1 = "" → strs' !! (NS c, flagInclude) = strs !! (NS c, flagInclude)) ∧
  (∀ key, key ≠ flagInclude → key ≠ flagExclude →
     ∀ ns, strs' !! (ns, key) = strs !! (ns, key)) ∧
  cfgBools (w_doit r.2) = cfgBools (w_doit w) ∧
  w_fs r.2 = w_fs w ∧ w_out r.2 = w_out w ∧ w_calls r.2 = w_calls w.
Proof.
  intros r inc exc strs strs'. subst r strs'.
  rewrite adjustIncludeAndExclude_run. cbn [fst snd w_doit set_doit Doit.Set_ cfgStrings].
  split_and!; try done.
  - rewrite lookup_insert_eq. unfold normalized_exclude. fold exc.
    destruct exc as [excludes [e|]]; cbn; [done|].
    intros [?| ->]; [done|]. by rewrite bool_decide_eq_true_2.
  - intros tokens Hexc Hne Hfree. rewrite lookup_insert_eq.
    unfold normalized_exclude. fold exc. rewrite Hexc.
    rewrite bool_decide_eq_false_2 by done.
    pose proof (Join_tokens_nonempty _ _ Hne) as Htok.
    rewrite qualifyWebWithSlash_Join by done.
    rewrite Join_snoc; [done|]. by destruct tokens.
  - intros tokens Hinc Hne Hfree. rewrite lookup_insert_ne by done.
    unfold normalized_include. fold inc. rewrite Hinc.
    rewrite bool_decide_eq_false_2 by done. cbn. rewrite lookup_insert_eq.
    pose proof (Join_tokens_nonempty _ _ Hne) as Htok.
    by rewrite qualifyWebWithSlash_Join.
  - intros Hinc. rewrite lookup_insert_ne by done.
    unfold normalized_include. fold inc.
    destruct inc as [includes [e|]]; cbn in *; [done|].
    destruct Hinc as [?| ->]; [done|]. by rewrite bool_decide_eq_true_2.
  - intros key Hi He ns. rewrite lookup_insert_ne by congruence.
    unfold normalized_include.
    destruct (Doit.GetString _ _ flagInclude) as [includes [e|]]; [done|].
    case_bool_decide; [done|]. cbn. rewrite lookup_insert_ne; [done|congruence].
  - unfold normalized_include.
    destruct (Doit.GetString _ _ flagInclude) as [includes [e|]]; [done|].
    by case_bool_decide.
Qed.

Lemma adjustIncludeAndExclude_normalizes_witness :
  let c := mkCmdConfig "deploy" ["proj"] Demo.offline in
  let w := Demo.world [("deploy", "exclude", "foo,web"); ("deploy", "include", "web,bar")] [] in
  let d' := w_doit (adjustIncludeAndExclude c w).2 in
  cfgStrings d' !! ("deploy", "exclude") = Some "foo,web/,web" ∧
  cfgStrings d' !! ("deploy", "include") = Some "web/,bar" ∧
  cfgStrings (w_doit (adjustIncludeAndExclude c (Demo.world [] [])).2) !! ("deploy", "exclude")
  = Some "web".
Proof.
  intros c w d'.
  destruct (adjustIncludeAndExclude_normalizes c w) as (_ & _ & Hexc & Hinc & _).
  destruct (adjustIncludeAndExclude_normalizes c (Demo.world [] [])) as (_ & Hunset & _).
  split; [|split].
  - apply (Hexc ["foo"; "web"]); [reflexivity|discriminate|].
    repeat constructor.
  - apply (Hinc ["web"; "bar"]); [reflexivity|discriminate|].
    repeat constructor.
  - apply Hunset. right. reflexivity.
Defined.

Example exclude_example :
  qualifyWebWithSlash "foo,web" +:+ "," +:+ keywordWeb = "foo,web/,web".
Proof. reflexivity. Qed.

(** ** The argument check comes after normalization *)

Lemma normalized_excludes_web c w :
  excludes_web (w_doit (adjustIncludeAndExclude c w).2) (NS c).
Proof.
  rewrite adjustIncludeAndExclude_run. unfold excludes_web. cbn.
  rewrite lookup_insert_eq. eexists. split; [done|].
  unfold normalized_exclude.
  destruct (Doit.GetString _ _ _) as [excludes [e|]]; [by left|].
  case_bool_decide; [by left|]. right. eauto.
Qed.

Lemma stops_after_normalization {A} c (k : unit → M A) w e :
  ensureOneArg c = Some e →
  bind (adjustIncludeAndExclude c) (λ _, bind (check (ensureOneArg c)) k) w
  = (Err e, (adjustIncludeAndExclude c w).2).
Proof.
  intros ->. unfold bind. by rewrite adjustIncludeAndExclude_run.
Qed.

(** C10: in the deploy, get-metadata and watch commands the options are
    normalized before the positional arguments are counted.  When the
    count is wrong, each command returns the error of the argument check
    in the world the normalizer left behind, in which the exclude option
    ends in [web]; an exclude option that was not given is now set. *)
Theorem missing_args_after_normalization (c : CmdConfig) (w : World) (e : error) :
  ensureOneArg c = Some e →
  let w' := (adjustIncludeAndExclude c w).2 in
  RunServerlessExtraDeploy c w = (Err e, w') ∧
  RunServerlessExtraGetMetadata c w = (Err e, w') ∧
  RunServerlessExtraWatch c w = (Err e, w') ∧
  excludes_web (w_doit w') (NS c) ∧
  (cfgStrings (w_doit w) !! (NS c, flagExclude) = None → w' ≠ w).
Proof.
  intros Hargs w'. subst w'.
  split_and!.
  - by apply stops_after_normalization.
  - by apply stops_after_normalization.
  - by apply stops_after_normalization.
  - apply normalized_excludes_web.
  - intros Hunset Hsame. destruct (normalized_excludes_web c w) as (v & Hv & _).
    rewrite Hsame in Hv. congruence.
Qed.

Lemma missing_args_after_normalization_witness :
  let c := mkCmdConfig "deploy" [] Demo.offline in
  let w := Demo.world [] [] in
  (RunServerlessExtraDeploy c w).1 = Err (MissingArgsErr "deploy") ∧
  cfgStrings (w_doit (RunServerlessExtraDeploy c w).2) !! ("deploy", "exclude") = Some "web".
Proof.
  intros c w.
  destruct (missing_args_after_normalization c w (MissingArgsErr "deploy") eq_refl)
    as (-> & _).
  split; reflexivity.
Defined.

(** ** The deploy command *)

Lemma RunServerlessExtraDeploy_run c w directory :
  Args c = [directory] →
  let w1 := (adjustIncludeAndExclude c w).2 in
  let w2 := log_call (CallExec "deploy" [directory]) w1 in
  let '(output, err) := Exec (Serverless c) "deploy" [directory] (w_doit w1) in
  RunServerlessExtraDeploy c w
  = match err with
    | Some e =>
        match Captured output with
        | [] => (Err e, w2)
        | _ =>
            (Err e,
             (Fprintln (strings.Join (fixupCaptured (Captured output)) newline) w2).2)
        end
    | None =>
        PrintServerlessTextOutput
          (mkOutput (fixupCaptured (Captured output)) (Rest output)) w2
    end.
Proof.
  intros Hargs w1 w2. subst w1 w2.
  unfold RunServerlessExtraDeploy, bind at 1.
  rewrite adjustIncludeAndExclude_run. cbn [fst snd].
  unfold bind at 1, check at 1, ensureOneArg.
  rewrite Hargs. cbn [length bool_decide decide_rel]. rewrite bool_decide_eq_true_2 by done.
  unfold ret at 1. unfold bind at 1, RunServerlessExec. rewrite Hargs.
  destruct (Exec _ _ _ _) as [output [e|]]; err_cases.
  - destruct (Captured output) as [|line lines] eqn:Hcap.
    + by rewrite bool_decide_eq_true_2.
    + rewrite bool_decide_eq_false_2 by done. cbn [Captured].
      unfold bind, fail, Fprintln, Fprint. by destruct (broken _).
  - done.
Qed.

(** C2: the deploy command, run with one positional argument.  When the
    backend returns an error and no captured line, the command returns
    that error and prints nothing.  When it returns an error and captured
    lines, the command prints the rewritten transcript, joined by
    newlines, in one write whose failure is ignored, and returns the same
    error.  When it returns no error, the rewritten transcript is handed
    to the display of normal output. *)
Theorem deploy_error_policy (c : CmdConfig) (w : World) (directory : string)
    (output : ServerlessOutput) (err : option error) :
  Args c = [directory] →
  let w1 := (adjustIncludeAndExclude c w).2 in
  Exec (Serverless c) "deploy" [directory] (w_doit w1) = (output, err) →
  let w2 := log_call (CallExec "deploy" [directory]) w1 in
  let r := RunServerlessExtraDeploy c w in
  let transcript := fixupCaptured (Captured output) in
  (∀ e, err = Some e → Captured output = [] →
     r = (Err e, w2) ∧ w_out r.2 = w_out w) ∧
  (∀ e, err = Some e → Captured output ≠ [] →
     r.1 = Err e ∧
     w_out r.2
     = if broken (w_out w) then w_out w
       else mkWriter (written (w_out w) ++
                        [Text (strings.Join transcript newline +:+ newline)]) false) ∧
  (err = None →
     r = PrintServerlessTextOutput (mkOutput transcript (Rest output)) w2 ∧
     (broken (w_out w) = false →
        r.1 = Ok tt ∧
        written (w_out r.2)
        = written (w_out w) ++ [Display (mkOutput transcript (Rest output))])).
Proof.
  intros Hargs w1 Hexec w2 r transcript.
  pose proof (RunServerlessExtraDeploy_run c w directory Hargs) as Hrun.
  cbv zeta in Hrun. fold w1 in Hrun. rewrite Hexec in Hrun. fold w2 r in Hrun.
  assert (w_out w2 = w_out w) as Hout.
  { subst w2 w1. by rewrite adjustIncludeAndExclude_run. }
  split_and!.
  - intros e -> Hcap. rewrite Hcap in Hrun. rewrite Hrun. by split.
  - intros e -> Hcap. destruct (Captured output) as [|line lines] eqn:E; [done|].
    rewrite Hrun. split; [done|]. cbn [snd].
    unfold Fprintln, Fprint. rewrite Hout. fold transcript.
    by destruct (broken (w_out w)).
  - intros ->. split; [done|]. intros Hok. rewrite Hrun.
    unfold PrintServerlessTextOutput. rewrite Hout, Hok. by split.
Qed.

Lemma deploy_error_policy_witness :
  let failed := ExternalErr "build failed" in
  let lines := ["Deploying project '/home/dev/proj'"; "Error: build failed"] in
  let c := mkCmdConfig "deploy" ["proj"] (Demo.online (mkOutput lines "") (Some failed)) in
  let c' := mkCmdConfig "deploy" ["proj"] (Demo.online (mkOutput [] "") (Some failed)) in
  let w := Demo.world [] [] in
  ((RunServerlessExtraDeploy c w).1 = Err failed ∧
   w_out (RunServerlessExtraDeploy c w).2
   = mkWriter [Text ("Deployed '/home/dev/proj'" +:+ newline +:+
                     "Error: build failed" +:+ newline)] false) ∧
  ((RunServerlessExtraDeploy c' w).1 = Err failed ∧
   w_out (RunServerlessExtraDeploy c' w).2 = w_out w).
Proof.
  intros failed lines c c' w. split.
  - destruct (deploy_error_policy c w "proj" (mkOutput lines "") (Some failed)
                eq_refl eq_refl) as (_ & Hprint & _).
    destruct (Hprint failed eq_refl) as [Herr Hout]; [discriminate|].
    split; [exact Herr|]. rewrite Hout. reflexivity.
  - destruct (deploy_error_policy c' w "proj" (mkOutput [] "") (Some failed)
                eq_refl eq_refl) as (Hquiet & _).
    destruct (Hquiet failed eq_refl eq_refl) as [Hr Hout].
    split; [by rewrite Hr|exact Hout].
Defined.

(** ** Runtime validation *)

Lemma listed_runtime runtime (info : ServerlessHostInfo) :
  existsb (λ validRuntime, bool_decide (runtime = validRuntime))
          (map fst (map_to_list (Runtimes info))) = true
  ↔ runtime ∈ dom (Runtimes info).
Proof.
  rewrite existsb_exists. rewrite elem_of_dom. split.
  - intros (x & Hin & Heq%bool_decide_eq_true). subst x.
    apply list_elem_of_In, list_elem_of_fmap in Hin as ([k v] & -> & Hkv).
    apply elem_of_map_to_list in Hkv. eauto.
  - intros [v Hv]. exists runtime. split; [|by apply bool_decide_eq_true].
    apply list_elem_of_In, list_elem_of_fmap. exists (runtime, v).
    split; [done|]. by apply elem_of_map_to_list.
Qed.

(** C5: [validateRuntime] always returns.  For [nodejs] it returns true
    and leaves the world as it is: no call is made on the service.  For
    any other runtime, a failure of the status check, of the credential
    read or of the host-info fetch gives true.  It returns false exactly
    when the three calls succeed and the runtime is not among the runtimes
    the host lists. *)
Theorem validateRuntime_permissive (c : CmdConfig) (runtime : string) (w : World) :
  let sls := Serverless c in
  let creds := ReadCredentials sls in
  let info := GetHostInfo sls (APIHost creds.1) in
  validateRuntime c "nodejs" w = (Ok true, w) ∧
  (∃ valid, (validateRuntime c runtime w).1 = Ok valid) ∧
  (CheckServerlessStatus sls ≠ None ∨ creds.2 ≠ None ∨ info.2 ≠ None →
     (validateRuntime c runtime w).1 = Ok true) ∧
  ((validateRuntime c runtime w).1 = Ok false ↔
     runtime ≠ "nodejs" ∧ CheckServerlessStatus sls = None ∧ creds.2 = None ∧
     info.2 = None ∧ runtime ∉ dom (Runtimes info.1)).
Proof.
  intros sls creds info. split; [done|].
  unfold validateRuntime. fold sls.
  case_bool_decide as Hnode.
  { split_and!; [by eexists|done|]. split; [done|]. by intros [? _]. }
  unfold bind, ret. cbn [fst snd].
  destruct (CheckServerlessStatus sls) as [e|] eqn:Hstatus.
  { split_and!; [by eexists|done|]. split; [done|]. by intros (_ & ? & _). }
  fold creds. destruct creds as [cr [e|]] eqn:Hcreds; cbn [fst snd].
  { split_and!; [by eexists|done|]. split; [done|]. by intros (_ & _ & ? & _). }
  subst info. cbn [fst]. destruct (GetHostInfo sls (APIHost cr)) as [info [e|]] eqn:Hinfo;
    cbn [fst snd].
  { split_and!; [by eexists|done|]. split; [done|]. by intros (_ & _ & _ & ? & _). }
  pose proof (listed_runtime runtime info) as Hlisted.
  destruct (existsb _ _).
  - split_and!; [by eexists|done|]. split; [done|].
    intros (_ & _ & _ & _ & Hnot). destruct Hnot. by apply Hlisted.
  - split_and!; [by eexists|by intros [?|[?|?]]|]. split; [|done].
    intros _. split_and!; try done. intros Hin. apply Hlisted in Hin. done.
Qed.

Lemma validateRuntime_permissive_witness :
  let reachable := mkCmdConfig "init" ["proj"] (Demo.online (mkOutput [] "") None) in
  let unreachable := mkCmdConfig "init" ["proj"] Demo.offline in
  let w := Demo.world [] [] in
  (validateRuntime unreachable "cobol" w).1 = Ok true ∧
  (validateRuntime reachable "cobol" w).1 = Ok false.
Proof.
  intros reachable unreachable w. split.
  - destruct (validateRuntime_permissive unreachable "cobol" w) as (_ & _ & Hfail & _).
    apply Hfail. left. discriminate.
  - destruct (validateRuntime_permissive reachable "cobol" w) as (_ & _ & _ & Hfalse).
    apply Hfalse. split_and!; [discriminate|reflexivity..|].
    vm_compute. discriminate.
Defined.

Example validateRuntime_calls :
  w_calls (validateRuntime (mkCmdConfig "init" ["proj"] (Demo.online (mkOutput [] "") None))
             "go" (Demo.world [] [])).2
  = [CallCheckServerlessStatus; CallReadCredentials; CallGetHostInfo "faas.example.com"].
Proof. reflexivity. Qed.

(** ** Paths *)

Section filepath_facts.

Implicit Types (c n p d : string) (st cs names : list string).

Lemma step_skip r st c : c = "" ∨ c = "." → filepath.step r st c = st.
Proof. intros H. unfold filepath.step. by rewrite bool_decide_eq_true_2. Qed.

Lemma step_up st : filepath.step true st ".." = removelast st.
Proof. reflexivity. Qed.

Lemma step_name r st c :
  c ≠ "" → c ≠ "." → c ≠ ".." → filepath.step r st c = st ++ [c].
Proof.
  intros H1 H2 H3. unfold filepath.step.
  rewrite bool_decide_eq_false_2 by (by intros [?|?]).
  by rewrite bool_decide_eq_false_2.
Qed.

Lemma Forall_removelast {A} (P : A → Prop) (l : list A) :
  Forall P l → Forall P (removelast l).
Proof.
  intros H. rewrite removelast_firstn_len. by apply Forall_take.
Qed.

(** What holds of every name pushed by the walk holds of its result. *)
Lemma walk_Forall (P : string → Prop) r cs st :
  (∀ c, c ∈ cs → c ≠ "" → c ≠ "." → (c = ".." → r = false) → P c) →
  Forall P st → Forall P (fold_left (filepath.step r) cs st).
Proof.
  revert st. induction cs as [|c cs IH]; intros st Hcs Hst; [done|].
  cbn [fold_left]. apply IH; [intros c' Hin; apply Hcs; by right|].
  assert (c ∈ c :: cs) as Hc by left.
  unfold filepath.step. case_bool_decide as Hskip; [done|].
  assert (c ≠ "" ∧ c ≠ ".") as [Hne Hnd] by (split; intros ->; apply Hskip; auto).
  case_bool_decide as Hup.
  - destruct r; [by apply Forall_removelast|].
    assert (P c) as HP by (by apply Hcs).
    destruct (last st) as [top|]; [|by apply Forall_app; repeat constructor].
    case_bool_decide; [by apply Forall_app; repeat constructor|].
    by apply Forall_removelast.
  - apply Forall_app. split; [done|]. repeat constructor. apply Hcs; try done.
Qed.

Lemma walk_names st cs :
  Forall (λ c, c ≠ "" ∧ c ≠ "." ∧ c ≠ "..") cs →
  fold_left (filepath.step true) cs st = st ++ cs.
Proof.
  revert st. induction cs as [|c cs IH]; intros st Hcs; [by rewrite app_nil_r|].
  inversion_clear Hcs as [|?? (H1 & H2 & H3) Hcs']. cbn [fold_left].
  rewrite step_name by done. rewrite IH by done. by rewrite <-app_assoc.
Qed.

(** Walking the cleaned components of a relative path from a directory
    leads where walking the path itself leads. *)
Lemma walk_cleaned cs st :
  fold_left (filepath.step true) (fold_left (filepath.step false) cs []) st
  = fold_left (filepath.step true) cs st.
Proof.
  induction cs as [|c cs IH] using rev_ind; [done|].
  rewrite !fold_left_app. cbn [fold_left]. rewrite <-IH.
  set (L := fold_left (filepath.step false) cs []).
  assert (Forall (λ c, c ≠ "" ∧ c ≠ ".") L) as HL.
  { apply walk_Forall; [|done]. by intros. }
  clearbody L. clear IH.
  unfold filepath.step at 2 3. case_bool_decide as Hskip; [done|].
  case_bool_decide as Hup.
  - subst c. destruct (last L) as [top|] eqn:Hlast.
    + apply last_Some in Hlast as [L' ->].
      case_bool_decide as Htop.
      * rewrite fold_left_app. by cbn.
      * rewrite removelast_last, fold_left_app. cbn [fold_left].
        apply Forall_app in HL as [_ Htop']. inversion_clear Htop' as [|?? [H1 H2] _].
        rewrite step_name by done. by rewrite removelast_last.
    + apply last_None in Hlast as ->. by cbn.
  - rewrite fold_left_app. cbn [fold_left].
    rewrite step_name; [done|..|done]; intros ->; apply Hskip; auto.
Qed.

Lemma rooted_cons a s : filepath.rooted (String a s) = bool_decide (a = "/"%char).
Proof.
  unfold filepath.rooted. destruct (strings.HasPrefix (String a s) "/") eqn:H.
  - apply HasPrefix_spec in H as [post H]. rewrite sapp_cons in H.
    injection H as -> _. by rewrite bool_decide_eq_true_2.
  - symmetry. apply bool_decide_eq_false. intros ->.
    assert (strings.HasPrefix (String "/" s) "/" = true) as H'
      by (apply HasPrefix_spec; by exists s).
    congruence.
Qed.

Lemma rooted_app p s : p ≠ "" → filepath.rooted (p +:+ s) = filepath.rooted p.
Proof. destruct p as [|a p]; [done|]. intros _. by rewrite sapp_cons, !rooted_cons. Qed.

Lemma rooted_name c s :
  c ≠ "" → strings.has_byte "/" c = false → filepath.rooted (c +:+ s) = false.
Proof.
  destruct c as [|a c]; [done|]. intros _ Hc. rewrite sapp_cons, rooted_cons.
  cbn in Hc. apply orb_false_iff in Hc as [Ha _].
  apply bool_decide_eq_false in Ha. by rewrite bool_decide_eq_false_2.
Qed.

Lemma rooted_Join_names c cs :
  c ≠ "" → strings.has_byte "/" c = false →
  filepath.rooted (strings.Join (c :: cs) "/") = false.
Proof.
  intros Hne Hc. destruct cs as [|c' cs].
  - cbn [strings.Join]. rewrite <-(sapp_nil_r c). by apply rooted_name.
  - rewrite Join_cons by done. by apply rooted_name.
Qed.

Lemma lex_names p :
  Forall (λ c, (c ≠ "" ∧ c ≠ ".") ∧ strings.has_byte "/" c = false ∧
               (filepath.rooted p = true → c ≠ ".."))
         (filepath.lex p).
Proof.
  unfold filepath.lex. apply walk_Forall; [|done].
  intros c Hin H1 H2 H3. split_and!; try done.
  - pose proof (Split_no_sep p "/") as Hall.
    rewrite Forall_forall in Hall. by apply Hall.
  - intros Hr ->. rewrite Hr in H3. by specialize (H3 eq_refl).
Qed.

(** Cleaning a path does not change the location it names. *)
Lemma abs_Clean cwd p : filepath.abs cwd (filepath.Clean p) = filepath.abs cwd p.
Proof.
  pose proof (lex_names p) as Hlex. unfold filepath.Clean, filepath.abs.
  destruct (filepath.rooted p) eqn:Hr.
  - fold (filepath.lex p).
    change ("/" +:+ ?s) with (String "/" s). rewrite rooted_cons.
    rewrite bool_decide_eq_true_2 by done.
    change (String "/" ?s) with ("" +:+ String "/" s).
    rewrite Split_app_sep by done. cbn [fold_left]. rewrite step_skip by auto.
    assert (fold_left (filepath.step true) (strings.Split p "/") [] = filepath.lex p) as ->.
    { unfold filepath.lex. by rewrite Hr. }
    destruct (filepath.lex p) as [|c cs] eqn:Hcs; [done|].
    rewrite Split_Join; [|done|].
    + rewrite walk_names; [done|]. eapply Forall_impl; [done|].
      intros c' ([??] & _ & Hup). split_and!; auto.
    + eapply Forall_impl; [done|]. by intros c' (_ & ? & _).
  - destruct (filepath.lex p) as [|c cs] eqn:Hcs.
    + change (cwd = fold_left (filepath.step true) (strings.Split p "/") cwd).
      rewrite <-walk_cleaned.
      unfold filepath.lex in Hcs. rewrite Hr in Hcs. by rewrite Hcs.
    + inversion Hlex as [|?? ([Hne _] & Hc & _) Hcs']. subst.
      rewrite rooted_Join_names by done.
      rewrite Split_Join; [|done|].
      * rewrite <-(walk_cleaned (strings.Split p "/")).
        unfold filepath.lex in Hcs. rewrite Hr in Hcs. by rewrite Hcs.
      * eapply Forall_impl; [done|]. by intros c' (_ & ? & _).
Qed.

Lemma plain_names names :
  Forall filepath.plain names →
  Forall (λ c, c ≠ "" ∧ c ≠ "." ∧ c ≠ "..") names ∧
  Forall (λ c, strings.has_byte "/" c = false) names.
Proof.
  intros H. split; (eapply Forall_impl; [done|]); by intros c (?&?&?&?).
Qed.

Lemma Split_Join_under d names :
  Forall (λ c, strings.has_byte "/" c = false) names →
  strings.Split (strings.Join (d :: names) "/") "/" = strings.Split d "/" ++ names.
Proof.
  induction names as [|n names IH] using rev_ind; intros Hn.
  - by rewrite app_nil_r.
  - apply Forall_app in Hn as [Hnames Hn]. inversion_clear Hn as [|?? Hn' _].
    rewrite app_comm_cons, Join_snoc by done.
    change ("/" +:+ n) with (String "/" n).
    rewrite Split_snoc by done. rewrite IH by done. by rewrite <-app_assoc.
Qed.

Lemma abs_empty cwd : filepath.abs cwd "" = cwd.
Proof. reflexivity. Qed.

(** Joining plain names below a path leads to the entries of those
    names below the location the path names. *)
Lemma abs_Join cwd d names :
  Forall filepath.plain names →
  filepath.abs cwd (filepath.Join (d :: names)) = filepath.abs cwd d ++ names.
Proof.
  intros Hplain. destruct (plain_names names Hplain) as [Hnames Hslash].
  cbn [filepath.Join]. case_bool_decide as Hd.
  - subst d. rewrite abs_empty. destruct names as [|n names].
    + by rewrite app_nil_r.
    + inversion_clear Hplain as [|?? (Hne & _ & _ & Hn) _].
      cbn [filepath.Join]. rewrite bool_decide_eq_false_2 by done.
      rewrite abs_Clean. unfold filepath.abs.
      rewrite rooted_Join_names by done.
      rewrite Split_Join by done. by apply walk_names.
  - rewrite abs_Clean. unfold filepath.abs.
    assert (filepath.rooted (strings.Join (d :: names) "/") = filepath.rooted d) as ->.
    { destruct names; [done|]. rewrite Join_cons by done. by apply rooted_app. }
    rewrite Split_Join_under by done. rewrite fold_left_app. by apply walk_names.
Qed.

End filepath_facts.

Example Join_example :
  filepath.Join ["./proj"; "packages"; "sample"] = "proj/packages/sample" ∧
  filepath.abs ["home"; "dev"] "./proj" = ["home"; "dev"; "proj"] ∧
  filepath.abs ["home"; "dev"] "../x/./y//" = ["home"; "x"; "y"] ∧
  filepath.abs ["home"; "dev"] "/tmp/proj" = ["tmp"; "proj"].
Proof. by vm_compute. Qed.

(** ** The file system *)

Section os_facts.

Implicit Types (fs : FS) (k : list string).

Lemma WriteFile_ok name data fs fs' :
  os.WriteFile name data fs = (None, fs') →
  fs' = mkFS (cwd fs) (<[filepath.abs (cwd fs) name := File data]> (nodes fs)).
Proof.
  unfold os.WriteFile. case_bool_decide; [done|].
  destruct (os.walk_parents _ _ _); [done|].
  destruct (os.node_at _ _) as [[|?]|]; [done|..]; by intros [= <-].
Qed.

Lemma WriteFile_cwd name data fs : cwd (os.WriteFile name data fs).2 = cwd fs.
Proof.
  unfold os.WriteFile. case_bool_decide; [done|].
  destruct (os.walk_parents _ _ _); [done|].
  by destruct (os.node_at _ _) as [[|?]|].
Qed.

Lemma Mkdir_cwd name fs : cwd (os.Mkdir name fs).2 = cwd fs.
Proof.
  unfold os.Mkdir. case_bool_decide; [done|].
  destruct (os.walk_parents _ _ _); [done|].
  by destruct (os.node_at _ _).
Qed.

Lemma MkdirAll_cwd path fs : cwd (os.MkdirAll path fs).2 = cwd fs.
Proof.
  unfold os.MkdirAll. case_bool_decide; [done|].
  by destruct (os.mkdir_walk _ _ _) as [[?|] ?].
Qed.

(** A walk that reaches a location reaches the one the cleaned path
    names; a walk that stops still has elements to walk, from a location
    that does not exist or is a file. *)
Lemma walk_reached fs cur elems k :
  os.walk fs cur elems = os.Reached k → k = fold_left (filepath.step true) elems cur.
Proof.
  revert cur. induction elems as [|c elems IH]; intros cur; cbn [os.walk fold_left].
  - by intros [= <-].
  - destruct (os.node_at fs cur) as [[|?]|]; [|done..]. apply IH.
Qed.

Lemma walk_stopped fs cur elems e k rest :
  os.walk fs cur elems = os.Stopped e k rest →
  fold_left (filepath.step true) rest k = fold_left (filepath.step true) elems cur ∧
  (e = ENOENT ∧ os.node_at fs k = None ∨
   e = ENOTDIR ∧ ∃ data, os.node_at fs k = Some (File data)).
Proof.
  revert cur. induction elems as [|c elems IH]; intros cur; cbn [os.walk fold_left]; [done|].
  destruct (os.node_at fs cur) as [[|data]|] eqn:Hcur.
  - apply IH.
  - intros [= <- <- <-]. split; [done|]. right. eauto.
  - intros [= <- <- <-]. split; [done|]. by left.
Qed.

Lemma resolve_reached fs name k :
  os.resolve fs name = os.Reached k → k = filepath.abs (cwd fs) name.
Proof. apply walk_reached. Qed.

Lemma steps_separators k rest :
  forallb (λ c, bool_decide (c = "")) rest = true →
  fold_left (filepath.step true) rest k = k.
Proof.
  induction rest as [|c rest IH]; [done|]. cbn [forallb fold_left].
  intros [->%bool_decide_eq_true Hrest]%andb_true_iff.
  rewrite step_skip by auto. by apply IH.
Qed.

(** A path that [Stat] finds is not the empty path; the walk along it
    reaches the location the cleaned path names, and the location
    exists. *)
Lemma Stat_found name fs : (os.Stat name fs).2 = None → name ≠ "".
Proof. unfold os.Stat. by case_bool_decide. Qed.

Lemma Stat_reached name fs :
  (os.Stat name fs).2 = None →
  os.resolve fs name = os.Reached (filepath.abs (cwd fs) name) ∧
  is_Some (os.node_at fs (filepath.abs (cwd fs) name)).
Proof.
  unfold os.Stat. case_bool_decide; [done|].
  destruct (os.resolve fs name) as [k|e k rest] eqn:Hwalk; [|done].
  apply resolve_reached in Hwalk as Hk. subst k.
  by destruct (os.node_at fs _) as [n|] eqn:Hn.
Qed.

(** A path the walk cannot follow is not found, and [Stat] tells why. *)
Lemma Stat_stopped name fs e k rest :
  name ≠ "" → os.resolve fs name = os.Stopped e k rest →
  os.Stat name fs = (None, Some (PathError "stat" name e)).
Proof. intros Hne Hwalk. unfold os.Stat. by rewrite bool_decide_eq_false_2, Hwalk. Qed.

(** What [RemoveAll] does to the disk: nothing, or it removes the
    location the cleaned path names with what lies below it, or it
    removes only what lies below it. *)
Lemma RemoveAll_disk path fs :
  let k := filepath.abs (cwd fs) path in
  (os.RemoveAll path fs).2 = fs ∨ (os.RemoveAll path fs).2 = os.without k fs ∨
  (os.RemoveAll path fs).2 = os.emptied k fs.
Proof.
  intros k. unfold os.RemoveAll. case_bool_decide; [by left|].
  destruct (os.endsWithDot path); [by left|].
  destruct (os.splitPath path) as [parentDir base].
  destruct (os.resolve fs path) as [k'|e k' rest] eqn:Hwalk.
  - apply resolve_reached in Hwalk. subst k'. fold k.
    destruct (os.node_at fs k) as [[|?]|]; [|auto..].
    repeat case_bool_decide; auto.
  - destruct (walk_stopped _ _ _ _ _ _ Hwalk) as [Hk [[-> _]|[-> _]]]; [by left|].
    destruct (forallb _ rest) eqn:Hrest.
    + rewrite steps_separators in Hk by done. right. left. cbn [snd]. by rewrite Hk.
    + left. destruct (os.resolve fs parentDir) as [?|[] ??]; done.
Qed.

Lemma RemoveAll_cwd path fs : cwd (os.RemoveAll path fs).2 = cwd fs.
Proof. by destruct (RemoveAll_disk path fs) as [->|[->| ->]]. Qed.

Lemma without_lookup d fs k :
  nodes (os.without d fs) !! k = if os.under d k then None else nodes fs !! k.
Proof.
  unfold os.without. cbn [nodes]. destruct (os.under d k) eqn:Hu.
  - apply map_lookup_filter_None. right. intros x _. cbn. congruence.
  - destruct (nodes fs !! k) as [x|] eqn:Hk.
    + by apply map_lookup_filter_Some.
    + apply map_lookup_filter_None. by left.
Qed.

(** After a successful [RemoveAll] of a path that [Stat] finds, nothing
    is left at or below the path, and every other entry is as before. *)
Lemma RemoveAll_ok path fs fs' k :
  (os.Stat path fs).2 = None → os.RemoveAll path fs = (None, fs') →
  nodes fs' !! k
  = if os.under (filepath.abs (cwd fs) path) k then None else nodes fs !! k.
Proof.
  intros Hstat. pose proof (Stat_found _ _ Hstat) as Hne.
  destruct (Stat_reached _ _ Hstat) as [Hwalk [n Hn]].
  unfold os.RemoveAll. rewrite bool_decide_eq_false_2 by done.
  destruct (os.endsWithDot path); [done|].
  destruct (os.splitPath path) as [parentDir base]. rewrite Hwalk, Hn.
  destruct n; [|intros [= <-]; apply without_lookup].
  repeat case_bool_decide; try done. intros [= <-]. apply without_lookup.
Qed.

End os_facts.

(** The walk on a disk whose working directory [/home/dev] holds a
    directory [proj] with one file, and a file [other.txt]. *)
Example splitPath_example :
  os.splitPath "a/b/c" = ("a/b", "c") ∧
  os.splitPath "a" = (".", "a") ∧
  os.splitPath "a//" = (".", "a") ∧
  os.splitPath "a//b" = ("a/", "b") ∧
  os.splitPath "/a" = ("/", "a") ∧
  os.splitPath "//a/b/" = ("/a", "b") ∧
  os.splitPath "/" = (".", "/") ∧
  os.splitPath "///" = (".", "/") ∧
  os.splitPath "proj/./" = ("proj", ".").
Proof. split_and!; vm_compute; reflexivity. Qed.

Example Stat_walks :
  let fs := w_fs (Demo.populated [] []) in
  os.Stat "proj" fs = (Some Dir, None) ∧
  os.Stat "proj/../proj/notes.txt" fs = (Some (File "keep me"), None) ∧
  os.Stat "/home/dev/../../../home" fs = (Some Dir, None) ∧
  os.Stat "ghost" fs = (None, Some (PathError "stat" "ghost" ENOENT)) ∧
  os.Stat "ghost/../proj" fs = (None, Some (PathError "stat" "ghost/../proj" ENOENT)) ∧
  os.Stat "other.txt/../proj" fs
  = (None, Some (PathError "stat" "other.txt/../proj" ENOTDIR)) ∧
  os.Stat "other.txt/" fs = (None, Some (PathError "stat" "other.txt/" ENOTDIR)) ∧
  os.Stat "proj/notes.txt/." fs = (None, Some (PathError "stat" "proj/notes.txt/." ENOTDIR)).
Proof. split_and!; vm_compute; reflexivity. Qed.

Example RemoveAll_walks :
  let fs := w_fs (Demo.populated [] []) in
  let notes := ["home"; "dev"; "proj"; "notes.txt"] in
  let other := ["home"; "dev"; "other.txt"] in
  let on_disk path := let fs' := (os.RemoveAll path fs).2 in
                      (nodes fs' !! ["home"; "dev"], nodes fs' !! ["home"; "dev"; "proj"],
                       nodes fs' !! notes, nodes fs' !! other) in
  let untouched := (Some Dir, Some Dir, Some (File "keep me"), Some (File "elsewhere")) in
  (os.RemoveAll "proj" fs).1 = None ∧
  on_disk "proj" = (Some Dir, None, None, Some (File "elsewhere")) ∧
  (os.RemoveAll "proj/" fs).1 = None ∧
  on_disk "proj/" = (Some Dir, None, None, Some (File "elsewhere")) ∧
  os.RemoveAll "ghost/../proj" fs = (None, fs) ∧
  os.RemoveAll "proj/ghost" fs = (None, fs) ∧
  (os.RemoveAll "other.txt/" fs).1 = None ∧
  on_disk "other.txt/" = (Some Dir, Some Dir, Some (File "keep me"), None) ∧
  os.RemoveAll "other.txt/x" fs
  = (Some (PathError "unlinkat" "other.txt/x" ENOTDIR), fs) ∧
  os.RemoveAll "other.txt/x/y" fs = (Some (PathError "open" "other.txt/x" ENOTDIR), fs) ∧
  os.RemoveAll "other.txt/../proj" fs = (Some (PathError "open" "other.txt/.." ENOTDIR), fs) ∧
  os.RemoveAll "proj/." fs = (Some (PathError "RemoveAll" "proj/." EINVAL), fs) ∧
  (os.RemoveAll "proj/./" fs).1 = Some (PathError "unlinkat" "proj/." EINVAL) ∧
  on_disk "proj/./" = (Some Dir, Some Dir, None, Some (File "elsewhere")) ∧
  (os.RemoveAll "proj/.." fs).1 = Some (PathError "unlinkat" "proj/.." ENOTEMPTY) ∧
  on_disk "proj/.." = (Some Dir, None, None, None) ∧
  on_disk "ghost/../proj" = untouched.
Proof. split_and!; vm_compute; reflexivity. Qed.

(** ** Running computations *)

Section run_facts.

Context {A B : Type}.

Lemma bind_Ok (m : M A) (k : A → M B) w b w' :
  bind m k w = (Ok b, w') ↔ ∃ a w1, m w = (Ok a, w1) ∧ k a w1 = (Ok b, w').
Proof.
  unfold bind. split.
  - destruct (m w) as [[a|e|msg] w1]; [eauto|done..].
  - by intros (a & w1 & -> & ?).
Qed.

Lemma bind_Err_l (m : M A) (k : A → M B) w e w' :
  m w = (Err e, w') → bind m k w = (Err e, w').
Proof. unfold bind. by intros ->. Qed.

Lemma bind_Ok_l (m : M A) (k : A → M B) w a w1 :
  m w = (Ok a, w1) → bind m k w = k a w1.
Proof. unfold bind. by intros ->. Qed.

End run_facts.

Lemma check_Ok err w u w' : check err w = (Ok u, w') ↔ err = None ∧ w' = w.
Proof.
  destruct err; cbn; [by split; [|intros []]|].
  split; [by intros [= _ <-]|]. intros [_ ->]. by destruct u.
Qed.

Lemma fs_call_Ok op w u w' :
  fs_call op w = (Ok u, w') ↔ ∃ fs', op (w_fs w) = (None, fs') ∧ w' = set_fs fs' w.
Proof.
  unfold fs_call. destruct (op (w_fs w)) as [[e|] fs'].
  - split; [done|]. by intros (? & ? & _).
  - split; [intros [= _ <-]; eauto|]. intros (? & [= <-] & ->). by destruct u.
Qed.

(** A file-system call touches nothing but the disk. *)
Lemma fs_call_frame op w :
  w_doit (fs_call op w).2 = w_doit w ∧ w_out (fs_call op w).2 = w_out w ∧
  w_calls (fs_call op w).2 = w_calls w.
Proof. unfold fs_call. by destruct (op (w_fs w)) as [[e|] fs']. Qed.

Lemma writeAFile_Ok path contents w u w' :
  writeAFile path contents w = (Ok u, w') →
  w' = set_fs (mkFS (cwd (w_fs w))
                 (<[filepath.abs (cwd (w_fs w)) path := File contents]> (nodes (w_fs w)))) w.
Proof.
  unfold writeAFile. intros (fs' & Hop & ->)%fs_call_Ok.
  by apply WriteFile_ok in Hop as ->.
Qed.

Lemma doMkdir_cwd path parents w :
  cwd (w_fs (doMkdir path parents w).2) = cwd (w_fs w).
Proof.
  unfold doMkdir, fs_call. destruct parents.
  - pose proof (MkdirAll_cwd path (w_fs w)) as H.
    by destruct (os.MkdirAll path (w_fs w)) as [[e|] fs'].
  - pose proof (Mkdir_cwd path (w_fs w)) as H.
    by destruct (os.Mkdir path (w_fs w)) as [[e|] fs'].
Qed.

(** ** The [init] command *)

Section init_facts.

Variable languageKeywords : list (string * list string).
Variable samples : gmap string string.
Variables gitignores ignoreForTypescript packageJSONForTypescript tsconfigJSON : string.
Variable yaml_Marshal : ServerlessSpec → string * option error.

Local Abbreviation init :=
  (RunServerlessExtraCreate languageKeywords samples gitignores ignoreForTypescript
     packageJSONForTypescript tsconfigJSON yaml_Marshal).
Local Abbreviation resolve := (languageToKindAndSample languageKeywords samples).

(** *** Language resolution *)

Lemma kwds_match_spec language kwds :
  kwds_match language kwds = true ↔ language ∈ kwds.
Proof.
  induction kwds as [|kwd rest IH]; cbn.
  - split; [done|]. by intros ?%elem_of_nil.
  - rewrite orb_true_iff, IH, bool_decide_eq_true, elem_of_cons. done.
Qed.

Lemma runtime_of_None language table :
  runtime_of language table = None ↔
  ∀ runtime kwds, (runtime, kwds) ∈ table → language ∉ kwds.
Proof.
  induction table as [|[runtime kwds] rest IH]; cbn.
  - split; [|done]. by intros _ ?? ?%elem_of_nil.
  - destruct (kwds_match language kwds) eqn:Hm.
    + split; [done|]. intros Hno. apply kwds_match_spec in Hm.
      exfalso. apply (Hno runtime kwds); [by left|done].
    + rewrite IH. split.
      * intros Hrest r k [[= -> ->]|Hin]%elem_of_cons; [|by eapply Hrest].
        intros Hin%kwds_match_spec. congruence.
      * intros Hall r k Hin. apply (Hall r k). by right.
Qed.

(** C6: a language that, once lowercased, is no keyword of any entry of
    the language table is rejected.  A string that is no keyword of the
    table is not a valid language, and no call is made on the service to
    find that out.  For a token of ASCII bytes, whose lowercase form is
    the one modelled: the resolver fails with the error that names the
    lowercased token; [init], run with one positional argument, returns
    that error and leaves the world as it was: no directory or file is
    made, nothing is printed, no call is made on the service. *)
Theorem unsupported_language_rejected (c : CmdConfig) (w : World)
    (project token : string) :
  (∀ language,
     (∀ runtime kwds, (runtime, kwds) ∈ languageKeywords → language ∉ kwds) →
     isValidLanguage languageKeywords c language w = (Ok false, w)) ∧
  (Args c = [project] →
   (Doit.GetString (w_doit w) (NS c) "language").1 = token →
   strings.is_ascii token = true →
   (∀ runtime kwds, (runtime, kwds) ∈ languageKeywords →
      strings.ToLower token ∉ kwds) →
   let unsupported := Errorf (strings.ToLower token +:+ " is not a supported language") in
   resolve c token w = (Err unsupported, w) ∧
   init c w = (Err unsupported, w)).
Proof.
  split.
  { intros language Hno%runtime_of_None. unfold isValidLanguage. by rewrite Hno. }
  intros Hargs Hflag _ Hno%runtime_of_None unsupported.
  assert (resolve c token w = (Err unsupported, w)) as Hres.
  { unfold languageToKindAndSample, isValidLanguage, bind. by rewrite Hno. }
  split; [done|].
  unfold RunServerlessExtraCreate, ensureOneArg. rewrite Hargs.
  unfold bind at 1. cbn [check length bool_decide decide_rel].
  rewrite bool_decide_eq_true_2 by done. unfold check, ret at 1.
  unfold bind at 1, gets at 1. unfold bind at 1, gets at 1.
  rewrite Hflag. unfold bind at 1. by rewrite Hres.
Qed.


(** *** Sample generation *)

Lemma find_sample_Some pkgs i j :
  find_sample pkgs i = Some j →
  i ≤ j ∧ ∃ pkg, pkgs !! (j - i) = Some pkg ∧ pkgName pkg = "sample".
Proof.
  revert i. induction pkgs as [|pkg rest IH]; intros i; cbn; [done|].
  case_bool_decide as Hname.
  - intros [= <-]. split; [done|]. rewrite Nat.sub_diag. by exists pkg.
  - intros [Hle (pkg' & Hpkg & Hn)]%IH. split; [lia|]. exists pkg'.
    split; [|done]. by replace (j - i) with (S (j - S i)) by lia.
Qed.

Lemma doMkdir_Err path parents w e w' :
  doMkdir path parents w = (Err e, w') → path_error e.
Proof.
  unfold doMkdir, fs_call. destruct parents.
  - unfold os.MkdirAll. case_bool_decide.
    + intros [= <- _]. by repeat eexists.
    + destruct (os.mkdir_walk _ _ _) as [[?|] ?]; [|done].
      intros [= <- _]. by repeat eexists.
  - unfold os.Mkdir. case_bool_decide.
    + intros [= <- _]. by repeat eexists.
    + destruct (os.walk_parents _ _ _); [intros [= <- _]; by repeat eexists|].
      destruct (os.node_at _ _); [|done]. intros [= <- _]. by repeat eexists.
Qed.

Lemma writeAFile_Err path contents w e w' :
  writeAFile path contents w = (Err e, w') → path_error e.
Proof.
  unfold writeAFile, fs_call, os.WriteFile. case_bool_decide.
  - intros [= <- _]. by repeat eexists.
  - destruct (os.walk_parents _ _ _); [intros [= <- _]; by repeat eexists|].
    destruct (os.node_at _ _) as [[|?]|]; [|done..]. intros [= <- _]. by repeat eexists.
Qed.

Lemma fs_call_no_panic op w msg w' : fs_call op w ≠ (Panic msg, w').
Proof. unfold fs_call. by destruct (op (w_fs w)) as [[?|] ?]. Qed.

Lemma generateSample_parts kind config sample samplePackage ts w :
  generateSample kind config sample samplePackage ts w
  = bind (write_sample kind sample samplePackage ts)
         (λ _, register_sample kind config (filepath.Join [samplePackage; "hello"])) w.
Proof.
  unfold generateSample, write_sample, register_sample, bind.
  destruct (doMkdir _ true w) as [[[]|?|?] w1]; [|done..].
  destruct ts.
  - destruct (doMkdir _ false w1) as [[[]|?|?] w2]; [|done..].
    unfold ret. by destruct (writeAFile _ _ w2) as [[[]|?|?] w3].
  - unfold ret. by destruct (writeAFile _ _ w1) as [[[]|?|?] w3].
Qed.

Lemma write_sample_result kind sample samplePackage ts w :
  match write_sample kind sample samplePackage ts w with
  | (Ok _, _) => True
  | (Err e, _) => path_error e
  | (Panic _, _) => False
  end.
Proof.
  unfold write_sample, bind.
  destruct (doMkdir _ true w) as [[[]|e|msg] w1] eqn:H1;
    [|by eapply doMkdir_Err|by apply fs_call_no_panic in H1].
  destruct ts.
  - destruct (doMkdir _ false w1) as [[[]|e|msg] w2] eqn:H2;
      [|by eapply doMkdir_Err|by apply fs_call_no_panic in H2].
    unfold ret. destruct (writeAFile _ _ w2) as [[[]|e|msg] w3] eqn:H3;
      [done|by eapply writeAFile_Err|by apply fs_call_no_panic in H3].
  - unfold ret. destruct (writeAFile _ _ w1) as [[[]|e|msg] w3] eqn:H3;
      [done|by eapply writeAFile_Err|by apply fs_call_no_panic in H3].
Qed.

(** The defensive error of [generateSample] is never returned. *)
Lemma register_sample_result kind config actionDir w :
  (∃ i pkg, find_sample (Packages config) 0 = Some i ∧
            Packages config !! i = Some pkg ∧ pkgName pkg = "sample" ∧
            register_sample kind config actionDir w
            = (Ok (actionDir,
                   set_Functions config (Some i) [mkFunction "hello" kind true false]), w)) ∨
  (find_sample (Packages config) 0 = None ∧
   register_sample kind config actionDir w
   = (Panic "invalid memory address or nil pointer dereference", w)).
Proof.
  unfold register_sample. destruct (find_sample (Packages config) 0) as [i|] eqn:Hfind.
  - left. destruct (find_sample_Some _ _ _ Hfind) as [_ (pkg & Hpkg & Hname)].
    rewrite Nat.sub_0_r in Hpkg. exists i, pkg. split_and!; try done.
    unfold bind, deref. rewrite Hpkg. unfold ret.
    by rewrite bool_decide_eq_true_2.
  - by right.
Qed.

Lemma find_sample_None pkgs i :
  find_sample pkgs i = None ↔ Forall (λ pkg, pkgName pkg ≠ "sample") pkgs.
Proof.
  revert i. induction pkgs as [|pkg rest IH]; intros i; cbn; [done|].
  case_bool_decide as Hname.
  - split; [done|]. by intros [? _]%Forall_cons.
  - rewrite IH. split; [by constructor|]. by intros [_ ?]%Forall_cons.
Qed.

(** When the files can be written and no package is named [sample],
    [generateSample] follows a nil pointer. *)
Lemma generateSample_nil_package kind config sample samplePackage ts w w1 :
  write_sample kind sample samplePackage ts w = (Ok tt, w1) →
  Forall (λ pkg, pkgName pkg ≠ "sample") (Packages config) →
  generateSample kind config sample samplePackage ts w
  = (Panic "invalid memory address or nil pointer dereference", w1).
Proof.
  intros Hwrite Hnone%(find_sample_None _ 0). rewrite generateSample_parts.
  rewrite (bind_Ok_l _ _ _ _ _ Hwrite).
  by destruct (register_sample_result kind config
                 (filepath.Join [samplePackage; "hello"]) w1)
    as [(i & pkg & Hfind & _)|[_ ->]]; [congruence|].
Qed.

(** C7: where the code departs from the claim.  Given a configuration
    without a package named [sample], on a disk where the sample file
    can be written, [generateSample] panics on a nil pointer instead of
    returning the error [could not find sample package].  That error is
    not returned on any input at all.  On the configuration built by
    [configTemplate] the function neither returns that error nor
    panics. *)
Theorem generateSample_missing_package (kind sample samplePackage : string)
    (ts : bool) (config : ServerlessSpec) (w : World) :
  let internal := Errorf "could not find sample package in config (internal error)" in
  (generateSample "nodejs:default" (mkSpec []) "function main() {}"
     "proj/packages/sample" false (Demo.world [] [])).1
  = Panic "invalid memory address or nil pointer dereference" ∧
  (generateSample "nodejs:default" (mkSpec [mkPackage "default" []]) "function main() {}"
     "proj/packages/sample" false (Demo.world [] [])).1
  = Panic "invalid memory address or nil pointer dereference" ∧
  (generateSample kind config sample samplePackage ts w).1 ≠ Err internal ∧
  (generateSample kind configTemplate sample samplePackage ts w).1 ≠ Err internal ∧
  (∀ msg, (generateSample kind configTemplate sample samplePackage ts w).1 ≠ Panic msg).
Proof.
  intros internal.
  assert (∀ config', (generateSample kind config' sample samplePackage ts w).1 ≠ Err internal)
    as Hnever.
  { intros config'. rewrite generateSample_parts. unfold bind.
    pose proof (write_sample_result kind sample samplePackage ts w) as Hw.
    destruct (write_sample _ _ _ _ w) as [[[]|e|msg] w1]; [|by destruct Hw as (?&?&?&->)|done].
    by destruct (register_sample_result kind config'
                   (filepath.Join [samplePackage; "hello"]) w1)
      as [(i & pkg & _ & _ & _ & ->)|[_ ->]]. }
  split_and!; [by vm_compute|by vm_compute|apply Hnever|apply Hnever|].
  intros msg. rewrite generateSample_parts. unfold bind.
  pose proof (write_sample_result kind sample samplePackage ts w) as Hw.
  by destruct (write_sample _ _ _ _ w) as [[[]|e|msg'] w1].
Qed.

(** *** Preparing the project area *)

(** Runtime validation and language resolution only add to the log of
    service calls, and never panic. *)
Lemma validateRuntime_frame c runtime w :
  ∃ valid calls,
    validateRuntime c runtime w
    = (Ok valid, mkWorld (w_fs w) (w_doit w) (w_out w) (w_calls w ++ calls)).
Proof.
  unfold validateRuntime. case_bool_decide.
  { exists true, []. rewrite app_nil_r. by destruct w. }
  unfold bind, ret, log_call. cbn [w_fs w_doit w_out w_calls].
  destruct (CheckServerlessStatus _); [by eexists _, [_]|].
  destruct (ReadCredentials _) as [creds [?|]].
  { eexists _, [_; _]. f_equal. f_equal. cbn. by rewrite <-app_assoc. }
  destruct (GetHostInfo _ _) as [info [?|]];
    eexists _, [_; _; _]; f_equal; f_equal; cbn; by rewrite <-!app_assoc.
Qed.

Lemma resolve_frame c language w :
  ∃ calls,
    (resolve c language w).2
    = mkWorld (w_fs w) (w_doit w) (w_out w) (w_calls w ++ calls) ∧
    ∀ msg, (resolve c language w).1 ≠ Panic msg.
Proof.
  unfold languageToKindAndSample, isValidLanguage, bind.
  destruct (runtime_of _ _) as [runtime|].
  - destruct (validateRuntime_frame c runtime w) as (valid & calls & ->).
    exists calls. destruct valid; cbn [negb]; [|done].
    by destruct (if bool_decide _ then _ else _) as [??].
  - exists []. rewrite app_nil_r. by destruct w.
Qed.

Lemma prepareProjectArea_absent project overwrite w :
  os.IsNotExist (os.Stat project (w_fs w)).2 = true →
  prepareProjectArea project overwrite w = (Ok tt, w).
Proof. unfold prepareProjectArea, bind, gets. by intros ->. Qed.

Lemma prepareProjectArea_present project overwrite w :
  (os.Stat project (w_fs w)).2 = None →
  prepareProjectArea project overwrite w
  = if overwrite then fs_call (os.RemoveAll project) w
    else (Err (Errorf (project +:+ " already exists; use '--overwrite' to replace")), w).
Proof. unfold prepareProjectArea, bind, gets. intros ->. by destruct overwrite. Qed.

Lemma init_one_arg c w project :
  Args c = [project] →
  init c w
  = bind (resolve c (Doit.GetString (w_doit w) (NS c) "language").1)
      (λ r, let '(kind, sample, ts) := r in
         run prepareProjectArea project (Doit.GetBool (w_doit w) (NS c) "overwrite").1 ;
         run doMkdir (filepath.Join [project; "packages"; "sample"]) true ;
         r <~ generateSample kind configTemplate sample
                (filepath.Join [project; "packages"; "sample"]) ts ;
         let '(actionDir, config) := r in
         let '(data, err) := yaml_Marshal config in
         run check err ;
         run writeAFile (filepath.Join [project; "project.yml"]) data ;
         run writeAFile (filepath.Join [project; ".gitignore"])
               (if ts then gitignores +:+ ignoreForTypescript else gitignores) ;
         run (if ts then
                run writeAFile (filepath.Join [actionDir; "package.json"])
                      packageJSONForTypescript ;
                run writeAFile (filepath.Join [actionDir; "tsconfig.json"]) tsconfigJSON ;
                writeAFile (filepath.Join [actionDir; ".include"]) ("lib" +:+ newline)
              else ret tt) ;
         run Fprint ("A local functions project directory '" +:+ project +:+
                     "' was created for you." +:+ newline +:+
                     "You may deploy it by running the command shown on the next line:" +:+
                     newline +:+ "  doctl serverless deploy " +:+ project +:+ newline) ;
         ret tt) w.
Proof.
  intros Hargs. unfold RunServerlessExtraCreate, ensureOneArg. rewrite Hargs.
  cbn [length nth]. rewrite bool_decide_eq_true_2 by done. reflexivity.
Qed.

(** C1: preparing the project area.  [Stat] looks the elements of the
    path up one after the other, so a path through a directory that does
    not exist is not found, whatever follows.  When [Stat] reports that
    the path does not exist, the preparation succeeds and changes nothing.  When
    the path exists (empty or not) and overwriting was not asked for, it
    fails with the error that names the path and tells to use
    [--overwrite], and changes nothing; so does [init], which leaves the
    disk as it was.  When the path exists and overwriting was asked for,
    the outcome is that of removing the path recursively: if the removal
    succeeds, nothing is left at or below the path and every other entry
    of the disk is as before. *)
Theorem project_area_preparation (c : CmdConfig) (w : World) (project : string)
    (overwrite : bool) :
  let st := os.Stat project (w_fs w) in
  let here := filepath.abs (cwd (w_fs w)) project in
  let r := prepareProjectArea project overwrite w in
  let conflict := Errorf (project +:+ " already exists; use '--overwrite' to replace") in
  (os.IsNotExist st.2 = true → r = (Ok tt, w)) ∧
  (st.2 = None → overwrite = false → r = (Err conflict, w)) ∧
  (st.2 = None → overwrite = true →
     r = fs_call (os.RemoveAll project) w ∧
     (r.1 = Ok tt →
        ∀ k, nodes (w_fs r.2) !! k
             = if os.under here k then None else nodes (w_fs w) !! k)) ∧
  (Args c = [project] → (Doit.GetBool (w_doit w) (NS c) "overwrite").1 = false →
   st.2 = None →
     w_fs (init c w).2 = w_fs w ∧
     (∃ e, (init c w).1 = Err e) ∧
     (∀ r1 w1,
        resolve c (Doit.GetString (w_doit w) (NS c) "language").1 w = (Ok r1, w1) →
        init c w = (Err conflict, w1))).
Proof.
  intros st here r conflict. subst r. split_and!.
  - apply prepareProjectArea_absent.
  - intros Hst ->. by rewrite prepareProjectArea_present.
  - intros Hst ->. rewrite prepareProjectArea_present by done. split; [done|].
    intros Hok k. pose proof (Stat_found _ _ Hst) as Hne.
    unfold fs_call in *. destruct (os.RemoveAll project (w_fs w)) as [[e|] fs'] eqn:Hrm;
      [done|]. cbn [snd w_fs set_fs]. by eapply RemoveAll_ok.
  - intros Hargs Hflag Hst.
    set (language := (Doit.GetString (w_doit w) (NS c) "language").1).
    destruct (resolve_frame c language w) as (calls & Hw1 & Hnopanic).
    assert (init c w
            = match resolve c language w with
              | (Ok _, w1) => (Err conflict, w1)
              | (Err e, w1) => (Err e, w1)
              | (Panic msg, w1) => (Panic msg, w1)
              end) as Hinit.
    { rewrite (init_one_arg _ _ _ Hargs), Hflag. fold language. unfold bind at 1.
      destruct (resolve c language w) as [[[[kind sample] ts]|e|msg] w1]; [|done..].
      cbn [snd] in Hw1. unfold bind at 1.
      rewrite prepareProjectArea_present; [done|]. by subst w1. }
    rewrite Hinit.
    destruct (resolve c language w) as [[r1|e|msg] w1];
      cbn [fst snd] in *; [| |by destruct (Hnopanic msg)].
    + split_and!; [by subst w1|by eexists|]. by intros r1' w1' [= <- <-].
    + split_and!; [by subst w1|by eexists|done].
Qed.

(** *** What a successful [init] leaves on the disk *)

#[local] Arguments filepath.Join : simpl never.
#[local] Arguments filepath.abs : simpl never.

Ltac plain_names :=
  repeat (constructor; [unfold filepath.plain; split_and!; by vm_compute|]);
  constructor.

Lemma doMkdir_Ok path parents w u w' :
  doMkdir path parents w = (Ok u, w') →
  ∃ fs', w' = set_fs fs' w ∧ cwd fs' = cwd (w_fs w).
Proof.
  intros Hrun. pose proof (doMkdir_cwd path parents w) as Hcwd.
  rewrite Hrun in Hcwd. unfold doMkdir in Hrun.
  destruct parents; apply fs_call_Ok in Hrun as (fs' & _ & ->); by exists fs'.
Qed.

Lemma write_sample_Ok kind sample samplePackage ts w u w' :
  write_sample kind sample samplePackage ts w = (Ok u, w') →
  ∃ fs', w' = set_fs fs' w ∧ cwd fs' = cwd (w_fs w) ∧
    (ts = true →
     nodes fs' !! (filepath.abs (cwd (w_fs w)) samplePackage ++ ["hello"; "src"; "hello.ts"])
     = Some (File sample)).
Proof.
  unfold write_sample.
  intros ([] & w1 & (fs1 & -> & Hcwd1)%doMkdir_Ok & Hrest)%bind_Ok.
  destruct ts.
  - apply bind_Ok in Hrest as (file & w2 & Hfile & Hwrite).
    apply bind_Ok in Hfile as ([] & w3 & (fs3 & -> & Hcwd3)%doMkdir_Ok & [= <- <-]).
    apply writeAFile_Ok in Hwrite as ->. cbn [w_fs set_fs] in *.
    eexists. split; [done|]. cbn [cwd nodes]. split; [congruence|]. intros _.
    rewrite Hcwd3, Hcwd1. change ("hello." +:+ "ts") with "hello.ts".
    rewrite (abs_Join _ _ ["hello.ts"]) by plain_names.
    rewrite (abs_Join _ _ ["src"]) by plain_names.
    rewrite (abs_Join _ _ ["hello"]) by plain_names.
    rewrite <-!app_assoc. apply lookup_insert_eq.
  - apply bind_Ok in Hrest as (file & w2 & [= <- <-] & Hwrite).
    apply writeAFile_Ok in Hwrite as ->. cbn [w_fs set_fs] in *.
    eexists. split; [done|]. by split.
Qed.

Lemma prepareProjectArea_Ok project overwrite w u w' :
  prepareProjectArea project overwrite w = (Ok u, w') →
  ∃ fs', w' = set_fs fs' w ∧ cwd fs' = cwd (w_fs w).
Proof.
  unfold prepareProjectArea, bind, gets.
  destruct (os.IsNotExist _).
  - intros [= _ <-]. exists (w_fs w). by destruct w.
  - destruct (os.Stat project (w_fs w)).2; [done|].
    destruct overwrite; [|done]. cbn [negb].
    pose proof (RemoveAll_cwd project (w_fs w)) as Hcwd.
    intros (fs' & Hrm & ->)%fs_call_Ok. rewrite Hrm in Hcwd. by exists fs'.
Qed.

Lemma generateSample_Ok kind sample samplePackage ts w actionDir config w' :
  generateSample kind configTemplate sample samplePackage ts w
  = (Ok (actionDir, config), w') →
  actionDir = filepath.Join [samplePackage; "hello"] ∧ config = scaffolded kind ∧
  ∃ fs', w' = set_fs fs' w ∧ cwd fs' = cwd (w_fs w) ∧
    (ts = true →
     nodes fs' !! (filepath.abs (cwd (w_fs w)) samplePackage ++ ["hello"; "src"; "hello.ts"])
     = Some (File sample)).
Proof.
  rewrite generateSample_parts.
  intros ([] & w1 & Hwrite & Hreg)%bind_Ok.
  injection Hreg as <- <- <-. split_and!; [done..|].
  by apply write_sample_Ok in Hwrite.
Qed.

Lemma init_Ok c w project w' :
  Args c = [project] → init c w = (Ok tt, w') →
  let here := filepath.abs (cwd (w_fs w)) project in
  ∃ kind sample ts w1 data m,
    resolve c (Doit.GetString (w_doit w) (NS c) "language").1 w
    = (Ok (kind, sample, ts), w1) ∧
    yaml_Marshal (scaffolded kind) = (data, None) ∧
    (ts = true →
     m !! (here ++ ["packages"; "sample"; "hello"; "src"; "hello.ts"])
     = Some (File sample)) ∧
    w_fs w'
    = mkFS (cwd (w_fs w))
        (written_by_init gitignores ignoreForTypescript packageJSONForTypescript
           tsconfigJSON here data ts m).
Proof.
  intros Hargs Hrun here. rewrite (init_one_arg _ _ _ Hargs) in Hrun.
  apply bind_Ok in Hrun as ([[kind sample] ts] & w1 & Hres & Hrun).
  destruct (resolve_frame c (Doit.GetString (w_doit w) (NS c) "language").1 w)
    as (calls & Hw1 & _).
  rewrite Hres in Hw1. cbn [snd] in Hw1.
  assert (w_fs w1 = w_fs w) as Hfs1 by (by subst w1). clear Hw1.
  apply bind_Ok in Hrun as ([] & w2 & (fs2 & -> & Hcwd2)%prepareProjectArea_Ok & Hrun).
  apply bind_Ok in Hrun as ([] & w3 & (fs3 & -> & Hcwd3)%doMkdir_Ok & Hrun).
  apply bind_Ok in Hrun as ([actionDir config] & w4 & Hgen & Hrun).
  apply generateSample_Ok in Hgen as (-> & -> & fs4 & -> & Hcwd4 & Hhello).
  cbn [w_fs set_fs] in *.
  assert (cwd fs4 = cwd (w_fs w)) as Hcwd by congruence.
  destruct (yaml_Marshal (scaffolded kind)) as [data err] eqn:Hyaml.
  apply bind_Ok in Hrun as ([] & w5 & [-> ->]%check_Ok & Hrun).
  apply bind_Ok in Hrun as ([] & w6 & ->%writeAFile_Ok & Hrun).
  apply bind_Ok in Hrun as ([] & w7 & ->%writeAFile_Ok & Hrun).
  apply bind_Ok in Hrun as ([] & w8 & Hts & Hrun).
  apply bind_Ok in Hrun as (printed & w9 & Hprint & [= <-]).
  assert (w_fs w9 = w_fs w8) as ->.
  { unfold Fprint in Hprint. destruct (broken _); by injection Hprint as _ <-. }
  cbn [w_fs set_fs cwd nodes] in *.
  exists kind, sample, ts, w1, data, (nodes fs4). split_and!; [done..| |].
  { intros Hts'. specialize (Hhello Hts'). rewrite Hcwd3, Hcwd2, Hfs1 in Hhello.
    rewrite (abs_Join _ _ ["packages"; "sample"]) in Hhello by plain_names.
    by rewrite <-app_assoc in Hhello. }
  unfold written_by_init. rewrite Hcwd in *.
  rewrite !(abs_Join _ project [_]) in * by plain_names.
  destruct ts.
  - apply bind_Ok in Hts as ([] & wa & ->%writeAFile_Ok & Hts).
    apply bind_Ok in Hts as ([] & wb & ->%writeAFile_Ok & Hts).
    apply writeAFile_Ok in Hts as ->. cbn [w_fs set_fs cwd nodes].
    rewrite !(abs_Join _ (filepath.Join [_; "hello"]) [_]) by plain_names.
    rewrite (abs_Join _ _ ["hello"]) by plain_names.
    rewrite (abs_Join _ _ ["packages"; "sample"]) by plain_names.
    by rewrite <-!app_assoc.
  - by injection Hts as <-.
Qed.


Lemma resolve_Ok c language w kind sample ts w1 :
  resolve c language w = (Ok (kind, sample, ts), w1) →
  let language := strings.ToLower language in
  sample = default "" (samples !! language) ∧
  ts = bool_decide (language = "ts" ∨ language = "typescript") ∧
  ∃ runtime, kind = runtime +:+ ":default".
Proof.
  unfold languageToKindAndSample. intros (valid & w2 & _ & Hrest)%bind_Ok.
  destruct valid; [|done]. cbn [negb] in Hrest.
  destruct (if bool_decide (_ ∨ _) then _ else _) as [runtime ts'] eqn:Hcase.
  injection Hrest as <- <- <- <-. split_and!; [done| |by eexists].
  repeat case_bool_decide; by injection Hcase as <- <-.
Qed.

(** C8: every successful [init] has built the specification with exactly
    one package, named [sample], holding exactly one function, named
    [hello], whose runtime is the kind the language resolved to, with
    web set and webSecure not set; this is the specification it has
    encoded and written to [project.yml] below the project path.  The
    template the specification starts from holds exactly one package,
    named [sample], with no function yet. *)
Theorem scaffolded_spec_invariant (c : CmdConfig) (w w' : World) (project : string) :
  Args c = [project] → init c w = (Ok tt, w') →
  Packages configTemplate = [mkPackage "sample" []] ∧
  ∃ kind sample ts w1 config data,
    resolve c (Doit.GetString (w_doit w) (NS c) "language").1 w
    = (Ok (kind, sample, ts), w1) ∧
    (∀ samplePackage v v' dir cfg,
       generateSample kind configTemplate sample samplePackage ts v = (Ok (dir, cfg), v') →
       cfg = config) ∧
    Packages config = [mkPackage "sample" [mkFunction "hello" kind true false]] ∧
    yaml_Marshal config = (data, None) ∧
    nodes (w_fs w') !! (filepath.abs (cwd (w_fs w)) project ++ ["project.yml"])
    = Some (File data).
Proof.
  intros Hargs Hrun. split; [done|].
  destruct (init_Ok c w project w' Hargs Hrun)
    as (kind & sample & ts & w1 & data & m & Hres & Hyaml & _ & Hfs).
  exists kind, sample, ts, w1, (scaffolded kind), data.
  split_and!; [done| |done..|].
  { intros samplePackage v v' dir cfg Hgen.
    by apply generateSample_Ok in Hgen as (_ & -> & _). }
  rewrite Hfs. cbn [nodes]. unfold written_by_init.
  assert (<[filepath.abs (cwd (w_fs w)) project ++ [".gitignore"] :=
              File (if ts then gitignores +:+ ignoreForTypescript else gitignores)]>
            (<[filepath.abs (cwd (w_fs w)) project ++ ["project.yml"] := File data]> m)
          !! (filepath.abs (cwd (w_fs w)) project ++ ["project.yml"])
          = Some (File data)) as Hbase.
  { rewrite lookup_insert_ne by (by intros ?%app_inv_head).
    apply lookup_insert_eq. }
  destruct ts; [|done]. rewrite <-!app_assoc. cbn [app].
  by do 3 rewrite lookup_insert_ne by (by intros ?%app_inv_head).
Qed.



End init_facts.

Lemma unsupported_language_rejected_witness :
  let c := mkCmdConfig "init" ["proj"] Demo.offline in
  let w := Demo.world [("init", "language", "COBOL")] [] in
  Demo.init c w = (Err (Errorf "cobol is not a supported language"), w).
Proof.
  intros c w.
  refine (proj2 (proj2 (unsupported_language_rejected Demo.languageKeywords Demo.samples
                          _ _ _ _ _ c w "proj" "COBOL") eq_refl eq_refl eq_refl _)).
  apply runtime_of_None. reflexivity.
Defined.

Lemma project_area_preparation_witness :
  let c := mkCmdConfig "init" ["proj"] Demo.offline in
  let w := Demo.populated [("init", "language", "javascript")] [] in
  let conflict := Errorf "proj already exists; use '--overwrite' to replace" in
  prepareProjectArea "fresh" false w = (Ok tt, w) ∧
  prepareProjectArea "ghost/../proj" false w = (Ok tt, w) ∧
  prepareProjectArea "ghost/../proj" true w = (Ok tt, w) ∧
  prepareProjectArea "proj" false w = (Err conflict, w) ∧
  prepareProjectArea "proj/../proj" false w
  = (Err (Errorf "proj/../proj already exists; use '--overwrite' to replace"), w) ∧
  (Demo.init c w).1 = Err conflict ∧
  w_fs (Demo.init c w).2 = w_fs w ∧
  nodes (w_fs (prepareProjectArea "proj" true w).2) !! ["home"; "dev"; "proj"; "notes.txt"]
  = None ∧
  nodes (w_fs (prepareProjectArea "proj" true w).2) !! ["home"; "dev"; "other.txt"]
  = Some (File "elsewhere").
Proof.
  intros c w conflict.
  destruct (project_area_preparation Demo.languageKeywords Demo.samples Demo.gitignores
              Demo.ignoreForTypescript Demo.packageJSONForTypescript Demo.tsconfigJSON
              Demo.yaml_Marshal c w "fresh" false) as (Habsent & _).
  destruct (project_area_preparation Demo.languageKeywords Demo.samples Demo.gitignores
              Demo.ignoreForTypescript Demo.packageJSONForTypescript Demo.tsconfigJSON
              Demo.yaml_Marshal c w "ghost/../proj" false) as (Hghost & _).
  destruct (project_area_preparation Demo.languageKeywords Demo.samples Demo.gitignores
              Demo.ignoreForTypescript Demo.packageJSONForTypescript Demo.tsconfigJSON
              Demo.yaml_Marshal c w "ghost/../proj" true) as (Hghost' & _).
  destruct (project_area_preparation Demo.languageKeywords Demo.samples Demo.gitignores
              Demo.ignoreForTypescript Demo.packageJSONForTypescript Demo.tsconfigJSON
              Demo.yaml_Marshal c w "proj" false) as (_ & Hconflict & _ & Hinit).
  destruct (project_area_preparation Demo.languageKeywords Demo.samples Demo.gitignores
              Demo.ignoreForTypescript Demo.packageJSONForTypescript Demo.tsconfigJSON
              Demo.yaml_Marshal c w "proj/../proj" false) as (_ & Hconflict' & _).
  destruct (project_area_preparation Demo.languageKeywords Demo.samples Demo.gitignores
              Demo.ignoreForTypescript Demo.packageJSONForTypescript Demo.tsconfigJSON
              Demo.yaml_Marshal c w "proj" true) as (_ & _ & Hremove & _).
  destruct (Hinit eq_refl eq_refl eq_refl) as (Hdisk & _ & Herr).
  destruct (Hremove eq_refl eq_refl) as (_ & Hgone).
  split_and!.
  - apply Habsent. reflexivity.
  - apply Hghost. reflexivity.
  - apply Hghost'. reflexivity.
  - apply Hconflict; reflexivity.
  - apply Hconflict'; reflexivity.
  - unfold Demo.init. erewrite Herr; [reflexivity|]. vm_compute. reflexivity.
  - exact Hdisk.
  - rewrite Hgone; [reflexivity|]. vm_compute. reflexivity.
  - rewrite Hgone; [reflexivity|]. vm_compute. reflexivity.
Defined.

Lemma scaffolded_spec_invariant_witness :
  let c := mkCmdConfig "init" ["./proj"] Demo.offline in
  let w := Demo.world [("init", "language", "golang")] [] in
  nodes (w_fs (Demo.init c w).2) !! ["home"; "dev"; "proj"; "project.yml"]
  = Some (File ("- name: sample" +:+ newline +:+
                "  - name: hello, runtime: go:default" +:+ newline)).
Proof.
  intros c w.
  destruct (scaffolded_spec_invariant Demo.languageKeywords Demo.samples Demo.gitignores
              Demo.ignoreForTypescript Demo.packageJSONForTypescript Demo.tsconfigJSON
              Demo.yaml_Marshal c w (Demo.init c w).2 "./proj" eq_refl)
    as (_ & kind & sample & ts & w1 & config & data & Hres & _ & Hconfig & Hyaml & Hfile).
  { vm_compute. reflexivity. }
  vm_compute in Hres. injection Hres as <- _ _ _.
  destruct config as [pkgs]. cbn [Packages] in Hconfig. subst pkgs.
  vm_compute in Hyaml. injection Hyaml as <-.
  exact Hfile.
Defined.


Example init_typescript_disk :
  let c := mkCmdConfig "init" ["./proj"] Demo.offline in
  let w := Demo.world [("init", "language", "ts")] [] in
  (Demo.init c w).1 = Ok tt ∧
  size (nodes (w_fs (Demo.init c w).2)) = 13 ∧
  written (w_out (Demo.init c w).2)
  = [Text ("A local functions project directory './proj' was created for you." +:+ newline +:+
           "You may deploy it by running the command shown on the next line:" +:+ newline +:+
           "  doctl serverless deploy ./proj" +:+ newline)].
Proof. split_and!; vm_compute; reflexivity. Qed.

Example init_overwrite_replaces :
  let c := mkCmdConfig "init" ["proj"] Demo.offline in
  let w := Demo.populated [("init", "language", "python")] [("init", "overwrite", true)] in
  (Demo.init c w).1 = Ok tt ∧
  nodes (w_fs (Demo.init c w).2) !! ["home"; "dev"; "proj"; "notes.txt"] = None ∧
  nodes (w_fs (Demo.init c w).2)
  !! ["home"; "dev"; "proj"; "packages"; "sample"; "hello"; "hello.py"]
  = Some (File "").
Proof. split_and!; vm_compute; reflexivity. Qed.

(** A project path through a directory that does not exist is not found
    by [Stat], while [filepath.Join] cleans it to the directory [proj]:
    the project is laid out in [proj] next to what it holds, with or
    without [--overwrite]. *)
Example init_through_missing_directory :
  let c := mkCmdConfig "init" ["ghost/../proj"] Demo.offline in
  let w := Demo.populated [("init", "language", "python")] [] in
  let w' := Demo.populated [("init", "language", "python")] [("init", "overwrite", true)] in
  (Demo.init c w).1 = Ok tt ∧
  nodes (w_fs (Demo.init c w).2) !! ["home"; "dev"; "proj"; "notes.txt"]
  = Some (File "keep me") ∧
  is_Some (nodes (w_fs (Demo.init c w).2) !! ["home"; "dev"; "proj"; "project.yml"]) ∧
  nodes (w_fs (Demo.init c w).2) !! ["home"; "dev"; "ghost"] = None ∧
  (Demo.init c w').1 = Ok tt ∧
  nodes (w_fs (Demo.init c w').2) !! ["home"; "dev"; "proj"; "notes.txt"]
  = Some (File "keep me").
Proof. split_and!; vm_compute; try reflexivity. by eexists. Qed.

(** * Further properties of the serverless commands *)

Section resolution_facts.

Variable languageKeywords : list (string * list string).
Variable samples : gmap string string.

Local Abbreviation resolve := (languageToKindAndSample languageKeywords samples).

Lemma lower_byte_idemp a : strings.lower_byte (strings.lower_byte a) = strings.lower_byte a.
Proof. by destruct a as [[] [] [] [] [] [] [] []]. Qed.

Lemma ToLower_idemp s : strings.ToLower (strings.ToLower s) = strings.ToLower s.
Proof. induction s as [|a s IH]; [done|]. cbn. by rewrite lower_byte_idemp, IH. Qed.

Lemma resolve_kind c language w kind sample ts w1 :
  resolve c language w = (Ok (kind, sample, ts), w1) →
  kind = canonical_runtime (strings.ToLower language) +:+ ":default".
Proof.
  unfold languageToKindAndSample, canonical_runtime.
  intros (valid & w2 & _ & Hrest)%bind_Ok.
  destruct valid; [|done]. cbn [negb] in Hrest.
  set (l := strings.ToLower language) in *.
  destruct (decide (l = "ts" ∨ l = "typescript")) as [Hts|Hts].
  { rewrite bool_decide_eq_true_2 in Hrest by done. injection Hrest as <- _ _ _.
    rewrite bool_decide_eq_true_2; [done|]. destruct Hts; auto. }
  rewrite (bool_decide_eq_false_2 _ Hts) in Hrest.
  destruct (decide (l = "js" ∨ l = "javascript")) as [Hjs|Hjs].
  { rewrite bool_decide_eq_true_2 in Hrest by done. injection Hrest as <- _ _ _.
    rewrite bool_decide_eq_true_2; [done|]. destruct Hjs; auto. }
  rewrite (bool_decide_eq_false_2 _ Hjs) in Hrest.
  rewrite (bool_decide_eq_false_2 (l = "ts" ∨ l = "typescript" ∨ l = "js" ∨ l = "javascript"))
    by (intros [?|[?|[?|?]]]; auto).
  repeat case_bool_decide; by injection Hrest as <- _ _ _.
Qed.

Lemma runtime_of_Some language table :
  (∃ runtime kwds, (runtime, kwds) ∈ table ∧ language ∈ kwds) →
  ∃ runtime, runtime_of language table = Some runtime.
Proof.
  intros (runtime & kwds & Hin & Hkw).
  destruct (runtime_of language table) as [r|] eqn:Hr; [by eexists|].
  rewrite runtime_of_None in Hr. by destruct (Hr runtime kwds Hin).
Qed.

Lemma resolve_valid c language w valid w1 :
  isValidLanguage languageKeywords c (strings.ToLower language) w = (Ok valid, w1) →
  resolve c language w
  = if valid then
      (Ok (canonical_runtime (strings.ToLower language) +:+ ":default",
           default "" (samples !! strings.ToLower language),
           bool_decide (strings.ToLower language = "ts" ∨
                        strings.ToLower language = "typescript")), w1)
    else (Err (Errorf (strings.ToLower language +:+ " is not a supported language")), w1).
Proof.
  intros Hvalid.
  destruct (resolve c language w) as [[[[kind sample] ts]|e|msg] w2] eqn:Hres.
  - pose proof (resolve_kind _ _ _ _ _ _ _ Hres) as ->.
    pose proof (resolve_Ok _ _ _ _ _ _ _ _ _ Hres) as (-> & -> & _).
    unfold languageToKindAndSample in Hres.
    apply bind_Ok in Hres as (valid' & w3 & Hvalid' & Hrest).
    rewrite Hvalid in Hvalid'. injection Hvalid' as <- <-.
    destruct valid; [|done]. cbn [negb] in Hrest.
    destruct (if bool_decide (_ ∨ _) then _ else _) as [??]. by injection Hrest as _ _ <-.
  - unfold languageToKindAndSample, bind in Hres. rewrite Hvalid in Hres.
    destruct valid; cbn [negb] in Hres.
    + by destruct (if bool_decide (_ ∨ _) then _ else _) as [??].
    + by injection Hres as <- <-.
  - unfold languageToKindAndSample, bind in Hres. rewrite Hvalid in Hres.
    destruct valid; cbn [negb] in Hres; [|done].
    by destruct (if bool_decide (_ ∨ _) then _ else _) as [??].
Qed.

Lemma ToLower_ascii s : strings.is_ascii s = true → strings.is_ascii (strings.ToLower s) = true.
Proof.
  induction s as [|a s IH]; [done|]. cbn [strings.is_ascii strings.ToLower].
  intros [Ha%bool_decide_eq_true Hs]%andb_true_iff. rewrite IH by done.
  rewrite andb_true_r. apply bool_decide_eq_true. unfold strings.lower_byte.
  case_bool_decide; [|done]. rewrite nat_ascii_embedding; lia.
Qed.

(** X1: upper and lower case are not told apart in a language token.
    Two tokens of ASCII bytes with the same lowercase form are resolved
    in the same way, to the same result or the same error, in the same
    final world, and so is the lowercase form itself, which is again a
    token of ASCII bytes. *)
Theorem language_case_insensitive (c : CmdConfig) (w : World) (token token' : string) :
  strings.is_ascii token = true → strings.is_ascii token' = true →
  strings.ToLower token = strings.ToLower token' →
  resolve c token w = resolve c token' w ∧
  resolve c token w = resolve c (strings.ToLower token) w ∧
  strings.is_ascii (strings.ToLower token) = true.
Proof.
  intros Hascii _ Hlow. split_and!; [..|by apply ToLower_ascii].
  - unfold languageToKindAndSample. by rewrite Hlow.
  - unfold languageToKindAndSample. by rewrite ToLower_idemp.
Qed.

(** X2: creating a project does not need the host.  When the lowercased
    token is a keyword of some entry of the language table and the status
    check, the credential read or the host-info fetch fails, the token is
    accepted: the resolver returns the kind of its canonical runtime with
    the tag [default], the sample stored under the token, and the
    typescript mark for [ts] and [typescript] only. *)
Theorem offline_language_accepted (c : CmdConfig) (w : World) (token : string) :
  let language := strings.ToLower token in
  let sls := Serverless c in
  (∃ runtime kwds, (runtime, kwds) ∈ languageKeywords ∧ language ∈ kwds) →
  CheckServerlessStatus sls ≠ None ∨ (ReadCredentials sls).2 ≠ None ∨
  (GetHostInfo sls (APIHost (ReadCredentials sls).1)).2 ≠ None →
  (resolve c token w).1
  = Ok (canonical_runtime language +:+ ":default", default "" (samples !! language),
        bool_decide (language = "ts" ∨ language = "typescript")).
Proof.
  intros language sls [runtime Hfound]%runtime_of_Some Hfail.
  assert (∃ w1, isValidLanguage languageKeywords c language w = (Ok true, w1)) as [w1 Hvalid].
  { unfold isValidLanguage. rewrite Hfound. unfold validateRuntime. fold sls.
    case_bool_decide; [by eexists|]. unfold bind, ret.
    destruct (CheckServerlessStatus sls) as [e|]; [by eexists|].
    destruct (ReadCredentials sls) as [creds [e|]]; [by eexists|].
    cbn [fst snd] in Hfail.
    destruct (GetHostInfo sls (APIHost creds)) as [info [e|]]; [by eexists|].
    by destruct Hfail as [?|[?|?]]. }
  by rewrite (resolve_valid _ _ _ _ _ Hvalid).
Qed.

End resolution_facts.

Lemma offline_language_accepted_witness :
  let c := mkCmdConfig "init" ["proj"] Demo.offline in
  (languageToKindAndSample Demo.languageKeywords Demo.samples c "GoLang"
     (Demo.world [] [])).1
  = Ok ("go:default", ""%string, false) ∧
  (languageToKindAndSample Demo.languageKeywords Demo.samples c "TS"
     (Demo.world [] [])).1
  = Ok ("nodejs:default", ""%string, true).
Proof.
  intros c. split.
  - etrans.
    { apply (offline_language_accepted Demo.languageKeywords Demo.samples c
               (Demo.world [] []) "GoLang").
      - exists "go", ["go"; "golang"]. split; [|by right; left].
        vm_compute. do 2 right. by left.
      - left. discriminate. }
    by vm_compute.
  - etrans.
    { apply (offline_language_accepted Demo.languageKeywords Demo.samples c
               (Demo.world [] []) "TS").
      - exists "typescript", ["typescript"; "ts"]. split; [|by right; left].
        vm_compute. right. by left.
      - left. discriminate. }
    by vm_compute.
Defined.

Lemma language_case_insensitive_witness :
  let c := mkCmdConfig "init" ["proj"] Demo.offline in
  languageToKindAndSample Demo.languageKeywords Demo.samples c "PYTHON" (Demo.world [] [])
  = languageToKindAndSample Demo.languageKeywords Demo.samples c "Python" (Demo.world [] []).
Proof.
  intros c.
  exact (proj1 (language_case_insensitive Demo.languageKeywords Demo.samples c
                  (Demo.world [] []) "PYTHON" "Python" eq_refl eq_refl eq_refl)).
Defined.

(** ** What the file-system calls keep *)

Section keeping_facts.

Implicit Types (fs : FS) (here k : list string).

Lemma keeps_outside_refl here fs : keeps_outside here fs fs.
Proof. by split. Qed.

Lemma keeps_outside_trans here fs1 fs2 fs3 :
  keeps_outside here fs1 fs2 → keeps_outside here fs2 fs3 → keeps_outside here fs1 fs3.
Proof. intros [Hc1 H1] [Hc2 H2]. split; [congruence|]. eauto. Qed.

Lemma under_app here l : os.under here (here ++ l) = true.
Proof. unfold os.under. apply bool_decide_eq_true. by rewrite take_app_length. Qed.

Lemma under_refl here : os.under here here = true.
Proof. rewrite <-(app_nil_r here) at 2. apply under_app. Qed.

Lemma WriteFile_keeps here name data fs :
  os.under here (filepath.abs (cwd fs) name) = true →
  keeps_outside here fs (os.WriteFile name data fs).2.
Proof.
  intros Hunder. unfold os.WriteFile. case_bool_decide; [by split|].
  destruct (os.walk_parents _ _ _); [by split|].
  destruct (os.node_at _ _) as [[|?]|]; [by split|..];
    (split; [done|]; intros k n Hk Hn; cbn;
     rewrite lookup_insert_ne; [done|congruence]).
Qed.

Lemma node_at_None fs k : os.node_at fs k = None → nodes fs !! k = None.
Proof. by destruct k. Qed.

Lemma Mkdir_keeps here name fs : keeps_outside here fs (os.Mkdir name fs).2.
Proof.
  unfold os.Mkdir. case_bool_decide; [by split|].
  destruct (os.walk_parents _ _ _); [by split|].
  destruct (os.node_at _ _) eqn:Hat; [by split|].
  apply node_at_None in Hat. split; [done|]. intros k n _ Hn. cbn.
  rewrite lookup_insert_ne; [done|congruence].
Qed.

Lemma mkdir_walk_keeps m pre rest k n :
  m !! k = Some n → (os.mkdir_walk m pre rest).2 !! k = Some n.
Proof.
  revert m pre. induction rest as [|c rest IH]; intros m pre Hk; [done|].
  cbn. destruct (m !! (pre ++ [c])) as [[|?]|] eqn:Hc; [by apply IH|done|].
  apply IH. rewrite lookup_insert_ne; [done|congruence].
Qed.

Lemma MkdirAll_keeps here path fs : keeps_outside here fs (os.MkdirAll path fs).2.
Proof.
  unfold os.MkdirAll. case_bool_decide; [by split|].
  pose proof (mkdir_walk_keeps (nodes fs) [] (filepath.abs (cwd fs) path)) as Hkeep.
  destruct (os.mkdir_walk _ _ _) as [[?|] m']; (split; [done|]; intros k n _; apply Hkeep).
Qed.

Lemma RemoveAll_keeps path fs :
  keeps_outside (filepath.abs (cwd fs) path) fs (os.RemoveAll path fs).2.
Proof.
  destruct (RemoveAll_disk path fs) as [->|[->| ->]].
  - apply keeps_outside_refl.
  - split; [done|]. intros k n Hk Hn. cbn. by apply map_lookup_filter_Some.
  - split; [done|]. intros k n Hk Hn. cbn. apply map_lookup_filter_Some. auto.
Qed.

Lemma stays_inside_pure {A} cwd0 here (m : M A) :
  (∀ w, w_fs (m w).2 = w_fs w) → stays_inside cwd0 here m.
Proof. intros Hm w _. rewrite Hm. apply keeps_outside_refl. Qed.

Lemma stays_inside_bind {A B} cwd0 here (m : M A) (k : A → M B) :
  stays_inside cwd0 here m → (∀ a, stays_inside cwd0 here (k a)) →
  stays_inside cwd0 here (bind m k).
Proof.
  intros Hm Hk w Hcwd. specialize (Hm w Hcwd). unfold bind.
  destruct (m w) as [[a|e|msg] w1]; [|done..]. cbn [snd] in Hm.
  eapply keeps_outside_trans; [done|]. apply Hk. destruct Hm. congruence.
Qed.

Lemma stays_inside_fs_call cwd0 here op :
  (∀ fs, cwd fs = cwd0 → keeps_outside here fs (op fs).2) →
  stays_inside cwd0 here (fs_call op).
Proof.
  intros Hop w Hcwd. specialize (Hop (w_fs w) Hcwd). unfold fs_call.
  by destruct (op (w_fs w)) as [[e|] fs'].
Qed.

Lemma stays_inside_writeAFile cwd0 here path contents :
  os.under here (filepath.abs cwd0 path) = true →
  stays_inside cwd0 here (writeAFile path contents).
Proof.
  intros Hunder. apply stays_inside_fs_call. intros fs <-. by apply WriteFile_keeps.
Qed.

Lemma stays_inside_doMkdir cwd0 here path parents :
  stays_inside cwd0 here (doMkdir path parents).
Proof.
  unfold doMkdir. destruct parents; apply stays_inside_fs_call; intros fs _.
  - apply MkdirAll_keeps.
  - apply Mkdir_keeps.
Qed.

Lemma stays_inside_prepareProjectArea cwd0 project overwrite :
  stays_inside cwd0 (filepath.abs cwd0 project) (prepareProjectArea project overwrite).
Proof.
  unfold prepareProjectArea. apply stays_inside_bind; [by apply stays_inside_pure|].
  intros st. destruct (os.IsNotExist _); [by apply stays_inside_pure|].
  destruct st.2; [by apply stays_inside_pure|].
  destruct overwrite; [|by apply stays_inside_pure].
  apply stays_inside_fs_call. intros fs <-. apply RemoveAll_keeps.
Qed.

End keeping_facts.

(** ** Names without a separator *)

Section byte_facts.

Implicit Types (s t : string) (c sep : ascii).

Lemma has_byte_app c s t :
  strings.has_byte c (s +:+ t) = strings.has_byte c s || strings.has_byte c t.
Proof.
  induction s as [|a s IH]; [done|]. rewrite sapp_cons. cbn.
  by rewrite IH, orb_assoc.
Qed.

Lemma Split_bytes c s sep :
  strings.has_byte c s = false →
  Forall (λ t, strings.has_byte c t = false) (strings.Split s sep).
Proof.
  induction s as [|a s IH]; cbn; [by repeat constructor|].
  intros [Ha Hs]%orb_false_iff. specialize (IH Hs).
  destruct (decide (a = sep)); [by constructor|].
  pose proof (Split_nonempty s sep). destruct (strings.Split s sep) as [|tok toks]; [done|].
  inversion_clear IH. constructor; [|done]. cbn. by rewrite Ha.
Qed.

Lemma hd_Split_bytes c s sep :
  strings.has_byte c s = false → strings.has_byte c (hd "" (strings.Split s sep)) = false.
Proof.
  intros Hs%(Split_bytes _ _ sep). by destruct Hs.
Qed.

(** The runtime is read back from the kind it was put in. *)
Lemma hd_Split_kind runtime tag :
  strings.has_byte ":" runtime = false →
  hd "" (strings.Split (runtime +:+ ":" +:+ tag) ":") = runtime.
Proof.
  intros Hr. change (":" +:+ tag) with (String ":" tag).
  by rewrite Split_app_sep.
Qed.

Lemma fileExtensionForRuntime_bytes c runtime :
  c ≠ "j"%char → c ≠ "s"%char → c ≠ "p"%char → c ≠ "y"%char →
  strings.has_byte c runtime = false →
  strings.has_byte c (fileExtensionForRuntime runtime) = false.
Proof.
  intros ???? Hr. unfold fileExtensionForRuntime.
  repeat case_bool_decide; [| |done]; cbn; by rewrite !bool_decide_eq_false_2.
Qed.

Lemma canonical_runtime_slash language :
  strings.has_byte "/" language = false →
  strings.has_byte "/" (canonical_runtime language) = false.
Proof. intros Hl. unfold canonical_runtime. by repeat case_bool_decide. Qed.

Lemma plain_hello ext :
  strings.has_byte "/" ext = false → filepath.plain ("hello." +:+ ext).
Proof.
  intros Hext. unfold filepath.plain. split_and!; [done..|].
  by rewrite has_byte_app, Hext.
Qed.

End byte_facts.

(** ** What the directory calls make *)

Section making_facts.

Implicit Types (fs : FS) (k pre rest : list string).

Lemma Mkdir_ok name fs fs' :
  os.Mkdir name fs = (None, fs') →
  fs' = mkFS (cwd fs) (<[filepath.abs (cwd fs) name := Dir]> (nodes fs)).
Proof.
  unfold os.Mkdir. case_bool_decide; [done|].
  destruct (os.walk_parents _ _ _); [done|].
  destruct (os.node_at _ _); [done|]. by intros [= <-].
Qed.

(** Every entry on the disk after [MkdirAll] was there before, or is a
    directory on the way to the path. *)
Lemma mkdir_walk_new m pre rest k n :
  (os.mkdir_walk m pre rest).2 !! k = Some n →
  m !! k = Some n ∨ ∃ j, 1 ≤ j ≤ length rest ∧ k = pre ++ take j rest.
Proof.
  revert m pre. induction rest as [|c rest IH]; intros m pre; [by left|].
  cbn [os.mkdir_walk length].
  assert (∀ j, 1 ≤ j ≤ length rest →
            (pre ++ [c]) ++ take j rest = pre ++ take (S j) (c :: rest)) as Hstep.
  { intros j _. by rewrite <-app_assoc. }
  destruct (m !! (pre ++ [c])) as [[|?]|] eqn:Hc.
  - intros [?|(j & Hj & ->)]%IH; [by left|]. right. exists (S j). split; [lia|auto].
  - by left.
  - intros [Hk|(j & Hj & ->)]%IH.
    + destruct (decide (k = pre ++ [c])) as [->|Hne].
      * right. exists 1. split; [lia|done].
      * left. by rewrite lookup_insert_ne in Hk.
    + right. exists (S j). split; [lia|auto].
Qed.

Lemma MkdirAll_new path fs fs' k n :
  os.MkdirAll path fs = (None, fs') → nodes fs' !! k = Some n →
  nodes fs !! k = Some n ∨
  ∃ j, 1 ≤ j ≤ length (filepath.abs (cwd fs) path) ∧ k = take j (filepath.abs (cwd fs) path).
Proof.
  unfold os.MkdirAll. case_bool_decide; [done|].
  pose proof (mkdir_walk_new (nodes fs) [] (filepath.abs (cwd fs) path) k n) as Hnew.
  destruct (os.mkdir_walk _ _ _) as [[?|] m']; [done|]. intros [= <-]. apply Hnew.
Qed.

(** After a successful [MkdirAll] every location on the way to the path,
    and the path, is a directory. *)
Lemma mkdir_walk_made m pre rest m' j :
  os.mkdir_walk m pre rest = (None, m') → 1 ≤ j ≤ length rest →
  m' !! (pre ++ take j rest) = Some Dir.
Proof.
  revert m pre j. induction rest as [|c rest IH]; intros m pre j; cbn [length]; [lia|].
  cbn [os.mkdir_walk]. intros Hwalk Hj.
  assert (m' !! (pre ++ [c]) = Some Dir ∧
          (∀ i, 1 ≤ i ≤ length rest → m' !! ((pre ++ [c]) ++ take i rest) = Some Dir))
    as [Hhere Hbelow].
  { destruct (m !! (pre ++ [c])) as [[|?]|] eqn:Hc; [|done|].
    - split; [|intros; by eapply IH].
      pose proof (mkdir_walk_keeps m (pre ++ [c]) rest _ _ Hc) as Hkeep.
      by rewrite Hwalk in Hkeep.
    - split; [|intros; by eapply IH].
      pose proof (mkdir_walk_keeps (<[pre ++ [c] := Dir]> m) (pre ++ [c]) rest
                    (pre ++ [c]) Dir (lookup_insert_eq _ _ _)) as Hkeep.
      by rewrite Hwalk in Hkeep. }
  destruct j as [|[|j]]; [lia|done|].
  cbn [take].
  replace (pre ++ c :: take (S j) rest) with ((pre ++ [c]) ++ take (S j) rest)
    by (by rewrite <-app_assoc).
  apply Hbelow. lia.
Qed.

Lemma MkdirAll_made path fs fs' j :
  os.MkdirAll path fs = (None, fs') →
  1 ≤ j ≤ length (filepath.abs (cwd fs) path) →
  nodes fs' !! take j (filepath.abs (cwd fs) path) = Some Dir.
Proof.
  unfold os.MkdirAll. case_bool_decide; [done|].
  destruct (os.mkdir_walk _ _ _) as [[?|] m'] eqn:Hwalk; [done|]. intros [= <-] Hj.
  by apply (mkdir_walk_made _ [] _ _ _ Hwalk).
Qed.

(** A location at or below [here] on the way to a path below [here] is
    [here] followed by some of the names that lead to the path. *)
Lemma under_take here names j :
  os.under here (take j (here ++ names)) = true →
  ∃ i, take j (here ++ names) = here ++ take i names.
Proof.
  unfold os.under. intros Hu%bool_decide_eq_true.
  destruct (decide (length here ≤ j)) as [Hle|Hlt].
  - exists (j - length here). by rewrite take_app_ge.
  - exfalso. rewrite take_take in Hu. apply (f_equal length) in Hu.
    rewrite length_take, length_app in Hu. lia.
Qed.

End making_facts.

(** ** More on the [init] command *)

Section init_more.

Variable languageKeywords : list (string * list string).
Variable samples : gmap string string.
Variables gitignores ignoreForTypescript packageJSONForTypescript tsconfigJSON : string.
Variable yaml_Marshal : ServerlessSpec → string * option error.

Local Abbreviation init :=
  (RunServerlessExtraCreate languageKeywords samples gitignores ignoreForTypescript
     packageJSONForTypescript tsconfigJSON yaml_Marshal).
Local Abbreviation resolve := (languageToKindAndSample languageKeywords samples).

#[local] Arguments filepath.Join : simpl never.
#[local] Arguments filepath.abs : simpl never.

Ltac plain_names :=
  repeat (constructor; [first [by apply plain_hello
                              |unfold filepath.plain; split_and!; by vm_compute]|]);
  constructor.

Lemma stays_inside_bind_post {A B} (Q : A → Prop) cwd0 here (m : M A) (k : A → M B) :
  stays_inside cwd0 here m →
  (∀ w a w1, m w = (Ok a, w1) → Q a) →
  (∀ a, Q a → stays_inside cwd0 here (k a)) →
  stays_inside cwd0 here (bind m k).
Proof.
  intros Hm HQ Hk w Hcwd. specialize (Hm w Hcwd). unfold bind.
  destruct (m w) as [[a|e|msg] w1] eqn:Hrun; [|done..]. cbn [snd] in Hm.
  eapply keeps_outside_trans; [done|]. apply Hk; [by eapply HQ|].
  destruct Hm. congruence.
Qed.

Lemma stays_inside_generateSample cwd0 project kind config sample ts :
  strings.has_byte "/" kind = false →
  stays_inside cwd0 (filepath.abs cwd0 project)
    (generateSample kind config sample (filepath.Join [project; "packages"; "sample"]) ts).
Proof.
  intros Hkind. unfold generateSample.
  set (ext := fileExtensionForRuntime (hd "" (strings.Split kind ":"))).
  assert (strings.has_byte "/" ext = false) as Hext.
  { apply fileExtensionForRuntime_bytes; [done..|]. by apply hd_Split_bytes. }
  apply stays_inside_bind; [apply stays_inside_doMkdir|]. intros _.
  set (hello := filepath.Join [filepath.Join [project; "packages"; "sample"]; "hello"]).
  apply (stays_inside_bind_post
           (λ file, os.under (filepath.abs cwd0 project) (filepath.abs cwd0 file) = true)).
  - destruct ts; [|by apply stays_inside_pure].
    apply stays_inside_bind; [apply stays_inside_doMkdir|].
    intros _. by apply stays_inside_pure.
  - intros w file w1 Hfile. destruct ts.
    + apply bind_Ok in Hfile as ([] & w2 & _ & [= <- _]).
      change ("hello." +:+ "ts") with "hello.ts". subst hello.
      rewrite (abs_Join _ _ ["hello.ts"]) by plain_names.
      rewrite (abs_Join _ _ ["src"]) by plain_names.
      rewrite (abs_Join _ _ ["hello"]) by plain_names.
      rewrite (abs_Join _ _ ["packages"; "sample"]) by plain_names.
      rewrite <-!app_assoc. apply under_app.
    + injection Hfile as <- _. subst hello.
      rewrite (abs_Join _ _ ["hello." +:+ ext]) by plain_names.
      rewrite (abs_Join _ _ ["hello"]) by plain_names.
      rewrite (abs_Join _ _ ["packages"; "sample"]) by plain_names.
      rewrite <-!app_assoc. apply under_app.
  - intros file Hfile.
    apply stays_inside_bind; [by apply stays_inside_writeAFile|]. intros _.
    apply stays_inside_pure. intros w. unfold bind, deref.
    destruct (find_sample _ _) as [i|]; [|done].
    destruct (Packages config !! i); [|done]. unfold ret. by case_bool_decide.
Qed.

Lemma resolve_keeps_disk c language w : w_fs (resolve c language w).2 = w_fs w.
Proof. destruct (resolve_frame languageKeywords samples c language w) as (calls & -> & _). done. Qed.

(** X3: [init] changes nothing outside the project path.  Run with one
    positional argument and a language token that holds no separator,
    however it ends (also when it fails half way, and also when it
    overwrites), every entry the disk held that is not at or below the
    project path is still there, with the same content, and the working
    directory is the same. *)
Theorem init_stays_in_project (c : CmdConfig) (w : World) (project : string) :
  Args c = [project] →
  strings.has_byte "/" (strings.ToLower (Doit.GetString (w_doit w) (NS c) "language").1)
  = false →
  keeps_outside (filepath.abs (cwd (w_fs w)) project) (w_fs w) (w_fs (init c w).2).
Proof.
  intros Hargs Hlang. rewrite (init_one_arg _ _ _ _ _ _ _ _ _ _ Hargs).
  set (cwd0 := cwd (w_fs w)). set (here := filepath.abs cwd0 project).
  set (language := (Doit.GetString (w_doit w) (NS c) "language").1) in *.
  set (overwrite := (Doit.GetBool (w_doit w) (NS c) "overwrite").1).
  match goal with
  | |- keeps_outside _ _ (w_fs (?m w).2) =>
      cut (stays_inside cwd0 here m); [intros Hstays; exact (Hstays w eq_refl)|]
  end.
  clearbody language overwrite cwd0. subst here. set (here := filepath.abs cwd0 project).
  apply (stays_inside_bind_post (λ r, strings.has_byte "/" r.1.1 = false)).
  - apply stays_inside_pure. intros v. apply resolve_keeps_disk.
  - intros v [[kind sample] ts] v1 Hres. cbn.
    rewrite (resolve_kind _ _ _ _ _ _ _ _ _ Hres), has_byte_app.
    by rewrite canonical_runtime_slash.
  - intros [[kind sample] ts] Hkind. cbn in Hkind.
    apply stays_inside_bind; [apply stays_inside_prepareProjectArea|]. intros _.
    apply stays_inside_bind; [apply stays_inside_doMkdir|]. intros _.
    apply (stays_inside_bind_post
             (λ r, r.1 = filepath.Join [filepath.Join [project; "packages"; "sample"]; "hello"])).
    + by apply stays_inside_generateSample.
    + intros v [actionDir config] v1 Hgen. cbn.
      rewrite generateSample_parts in Hgen.
      apply bind_Ok in Hgen as ([] & v2 & _ & Hreg).
      destruct (register_sample_result kind configTemplate
                  (filepath.Join [filepath.Join [project; "packages"; "sample"]; "hello"]) v2)
        as [(i & pkg & _ & _ & _ & Heq)|[_ Heq]]; rewrite Heq in Hreg; [|done].
      by injection Hreg as <- _ _.
    + intros [actionDir config] Hdir. cbn in Hdir. subst actionDir.
      destruct (yaml_Marshal config) as [data err].
      apply stays_inside_bind; [by apply stays_inside_pure; intros v; destruct err|].
      intros _. subst here.
      apply stays_inside_bind.
      { apply stays_inside_writeAFile.
        rewrite (abs_Join _ _ ["project.yml"]) by plain_names. apply under_app. }
      intros _. apply stays_inside_bind.
      { apply stays_inside_writeAFile.
        rewrite (abs_Join _ _ [".gitignore"]) by plain_names. apply under_app. }
      intros _. apply stays_inside_bind.
      { destruct ts; [|by apply stays_inside_pure].
        repeat (apply stays_inside_bind; [|intros _]);
          apply stays_inside_writeAFile;
          rewrite (abs_Join _ (filepath.Join [_; "hello"]) [_]) by plain_names;
          rewrite (abs_Join _ _ ["hello"]) by plain_names;
          rewrite (abs_Join _ _ ["packages"; "sample"]) by plain_names;
          rewrite <-!app_assoc; apply under_app. }
      intros _. apply stays_inside_bind; [|by intros; apply stays_inside_pure].
      apply stays_inside_pure. intros v. unfold Fprint. by destruct (broken _).
Qed.

Lemma doMkdirAll_Ok path w u w' :
  doMkdir path true w = (Ok u, w') →
  ∃ fs', os.MkdirAll path (w_fs w) = (None, fs') ∧ w' = set_fs fs' w ∧
         cwd fs' = cwd (w_fs w).
Proof.
  intros Hrun. pose proof (doMkdir_cwd path true w) as Hcwd. rewrite Hrun in Hcwd.
  apply fs_call_Ok in Hrun as (fs' & Hop & ->). by exists fs'.
Qed.

(** The disk after a successful [write_sample]: the sample is in its
    file; the action directory and the locations on the way to it are
    directories; every other entry was there before, except the [src]
    directory made for typescript. *)
Lemma write_sample_disk kind sample samplePackage (ts : bool) w u w' :
  let cwd0 := cwd (w_fs w) in
  let hello := filepath.abs cwd0 (filepath.Join [samplePackage; "hello"]) in
  let suffix : string :=
    if ts then "ts" else fileExtensionForRuntime (hd "" (strings.Split kind ":")) in
  let file := hello ++ (if ts then ["src"; "hello." +:+ suffix] else ["hello." +:+ suffix]) in
  strings.has_byte "/" suffix = false →
  write_sample kind sample samplePackage ts w = (Ok u, w') →
  ∃ fs', w' = set_fs fs' w ∧ cwd fs' = cwd0 ∧
    nodes fs' !! file = Some (File sample) ∧
    (∀ j, 1 ≤ j ≤ length hello → is_Some (nodes fs' !! take j hello)) ∧
    (ts = true → is_Some (nodes fs' !! (hello ++ ["src"]))) ∧
    (∀ k n, nodes fs' !! k = Some n →
       nodes (w_fs w) !! k = Some n ∨ (∃ j, 1 ≤ j ≤ length hello ∧ k = take j hello) ∨
       k = hello ++ ["src"] ∧ ts = true ∨ k = file).
Proof.
  intros cwd0 hello suffix file Hplain. unfold write_sample.
  intros ([] & w1 & (fs1 & Hmk1 & -> & Hcwd1)%doMkdirAll_Ok & Hrest)%bind_Ok.
  fold suffix in Hrest. fold cwd0 in Hcwd1.
  assert (∀ k n, nodes fs1 !! k = Some n →
            nodes (w_fs w) !! k = Some n ∨ ∃ j, 1 ≤ j ≤ length hello ∧ k = take j hello)
    as Hnew1 by (intros k n; by apply MkdirAll_new).
  assert (∀ j, 1 ≤ j ≤ length hello → is_Some (nodes fs1 !! take j hello)) as Hmade1.
  { intros j Hj. eexists. by apply (MkdirAll_made _ _ _ _ Hmk1). }
  clear Hmk1. destruct ts.
  - apply bind_Ok in Hrest as (name & w2 & Hname & Hwrite).
    apply bind_Ok in Hname as ([] & w3 & Hsrc & [= <- <-]).
    unfold doMkdir in Hsrc. apply fs_call_Ok in Hsrc as (fs3 & ->%Mkdir_ok & ->).
    apply writeAFile_Ok in Hwrite as ->. cbn [w_fs set_fs cwd nodes] in *.
    rewrite Hcwd1.
    rewrite (abs_Join _ _ [_]) by plain_names.
    rewrite (abs_Join _ _ ["src"]) by plain_names. fold hello.
    rewrite <-app_assoc. cbn [app]. fold file.
    eexists. split_and!; [done|done|..]; cbn [cwd nodes].
    + apply lookup_insert_eq.
    + intros j Hj. rewrite !lookup_insert_is_Some'. auto.
    + intros _. rewrite !lookup_insert_is_Some'. auto.
    + intros k n Hk.
      destruct (decide (k = file)) as [->|Hfile]; [auto|].
      rewrite lookup_insert_ne in Hk by done.
      destruct (decide (k = hello ++ ["src"])) as [->|Hsrc]; [auto|].
      rewrite lookup_insert_ne in Hk by done.
      destruct (Hnew1 _ _ Hk); auto.
  - apply bind_Ok in Hrest as (name & w2 & [= <- <-] & Hwrite).
    apply writeAFile_Ok in Hwrite as ->. cbn [w_fs set_fs cwd nodes] in *.
    rewrite Hcwd1. rewrite (abs_Join _ _ [_]) by plain_names. fold hello file.
    eexists. split_and!; [done|done|..]; cbn [cwd nodes].
    + apply lookup_insert_eq.
    + intros j Hj. rewrite lookup_insert_is_Some'. auto.
    + done.
    + intros k n Hk.
      destruct (decide (k = file)) as [->|Hfile]; [auto|].
      rewrite lookup_insert_ne in Hk by done.
      destruct (Hnew1 _ _ Hk); auto.
Qed.

(** The disk after a successful [init]: [m] is the disk once the
    directories are made and the sample is written; each of its entries
    was on the disk [fs2] that the preparation left, or is a directory on
    the way to the action directory, the [src] directory or the sample
    file. *)
Lemma init_Ok_disk c w project w' :
  Args c = [project] →
  let language := strings.ToLower (Doit.GetString (w_doit w) (NS c) "language").1 in
  let overwrite := (Doit.GetBool (w_doit w) (NS c) "overwrite").1 in
  let ts := bool_decide (language = "ts" ∨ language = "typescript") in
  let here := filepath.abs (cwd (w_fs w)) project in
  let hello := here ++ ["packages"; "sample"; "hello"] in
  let file := hello ++ (if ts then ["src"; sample_file language] else [sample_file language]) in
  sane_language language →
  init c w = (Ok tt, w') →
  ∃ w1 fs2 m data,
    w_fs w1 = w_fs w ∧
    prepareProjectArea project overwrite w1 = (Ok tt, set_fs fs2 w1) ∧
    (∀ k n, m !! k = Some n →
       nodes fs2 !! k = Some n ∨ (∃ j, 1 ≤ j ∧ k = take j hello) ∨
       k = hello ++ ["src"] ∧ ts = true ∨ k = file) ∧
    (∀ j, 1 ≤ j ≤ length hello → is_Some (m !! take j hello)) ∧
    (ts = true → is_Some (m !! (hello ++ ["src"]))) ∧
    m !! file = Some (File (default "" (samples !! language))) ∧
    yaml_Marshal (scaffolded (canonical_runtime language +:+ ":default")) = (data, None) ∧
    w_fs w'
    = mkFS (cwd (w_fs w))
        (written_by_init gitignores ignoreForTypescript packageJSONForTypescript
           tsconfigJSON here data ts m).
Proof.
  intros Hargs language overwrite ts here hello file [Hslash Hcolon] Hrun.
  rewrite (init_one_arg _ _ _ _ _ _ _ _ _ _ Hargs) in Hrun.
  apply bind_Ok in Hrun as ([[kind sample] ts'] & w1 & Hres & Hrun).
  pose proof (resolve_keeps_disk c (Doit.GetString (w_doit w) (NS c) "language").1 w) as Hfs1.
  rewrite Hres in Hfs1. cbn [snd] in Hfs1.
  pose proof (resolve_kind _ _ _ _ _ _ _ _ _ Hres) as Hkind. fold language in Hkind.
  apply resolve_Ok in Hres as (Hsample & Hts & _). fold language in Hsample, Hts.
  fold ts in Hts. subst kind sample ts'.
  apply bind_Ok in Hrun as ([] & w2 & Hprep & Hrun).
  destruct (prepareProjectArea_Ok _ _ _ _ _ Hprep) as (fs2 & -> & Hcwd2).
  apply bind_Ok in Hrun as ([] & w3 & (fs3 & Hmk3 & -> & Hcwd3)%doMkdirAll_Ok & Hrun).
  apply bind_Ok in Hrun as ([actionDir config] & w4 & Hgen & Hrun).
  pose proof Hgen as Hgen'. apply generateSample_Ok in Hgen' as (-> & -> & _).
  rewrite generateSample_parts in Hgen.
  apply bind_Ok in Hgen as ([] & w4' & Hwrite & Hreg).
  assert (w4' = w4) as ->.
  { destruct (register_sample_result (canonical_runtime language +:+ ":default")
                configTemplate
                (filepath.Join [filepath.Join [project; "packages"; "sample"]; "hello"]) w4')
      as [(i & pkg & _ & _ & _ & Heq)|[_ Heq]]; rewrite Heq in Hreg; congruence. }
  clear Hreg.
  destruct (yaml_Marshal (scaffolded _)) as [data err] eqn:Hyaml.
  apply bind_Ok in Hrun as ([] & w5 & [-> ->]%check_Ok & Hrun).
  apply bind_Ok in Hrun as ([] & w6 & ->%writeAFile_Ok & Hrun).
  apply bind_Ok in Hrun as ([] & w7 & ->%writeAFile_Ok & Hrun).
  apply bind_Ok in Hrun as ([] & w8 & Htsfiles & Hrun).
  apply bind_Ok in Hrun as (printed & w9 & Hprint & [= <-]).
  assert (w_fs w9 = w_fs w8) as ->.
  { unfold Fprint in Hprint. destruct (broken _); by injection Hprint as _ <-. }
  clear Hprint.
  cbn [w_fs set_fs] in Hcwd2, Hcwd3, Hmk3, Hwrite.
  set (cwd0 := cwd (w_fs w)) in *. rewrite Hfs1 in Hcwd2. fold cwd0 in Hcwd2.
  assert (cwd fs3 = cwd0) as Hcwd3' by congruence.
  assert (filepath.abs cwd0 (filepath.Join [filepath.Join [project; "packages"; "sample"];
                                            "hello"]) = hello) as Hhello.
  { rewrite (abs_Join _ _ ["hello"]) by plain_names.
    rewrite (abs_Join _ _ ["packages"; "sample"]) by plain_names.
    by rewrite <-app_assoc. }
  assert (∀ k n, nodes fs3 !! k = Some n →
            nodes fs2 !! k = Some n ∨ ∃ j, 1 ≤ j ∧ k = take j hello) as Hnew3.
  { intros k n Hk. destruct (MkdirAll_new _ _ _ _ _ Hmk3 Hk) as [?|(j & [Hj Hle] & ->)];
      [by left|]. right. exists j. split; [done|].
    rewrite Hcwd2 in *. rewrite (abs_Join _ _ ["packages"; "sample"]) in * by plain_names.
    fold here in Hle |- *. subst hello.
    change ["packages"; "sample"; "hello"] with (["packages"; "sample"] ++ ["hello"]).
    rewrite (app_assoc here). by rewrite (take_app_le _ ["hello"]). }
  clear Hmk3.
  assert (strings.has_byte "/"
            (if ts then "ts"
             else fileExtensionForRuntime
                    (hd "" (strings.Split (canonical_runtime language +:+ ":default") ":")))
          = false) as Hplain.
  { destruct ts; [done|].
    change ":default" with (":" +:+ "default"). rewrite hd_Split_kind by done.
    apply fileExtensionForRuntime_bytes; [done..|]. by apply canonical_runtime_slash. }
  destruct (write_sample_disk _ _ _ _ _ _ _ Hplain Hwrite)
    as (fs4 & -> & Hcwd4 & Hfile & Hmade & Hsrc & Hnew4).
  cbn [w_fs set_fs] in Hcwd4, Hfile, Hmade, Hsrc, Hnew4, Htsfiles.
  rewrite Hcwd3' in Hcwd4, Hfile, Hmade, Hsrc, Hnew4. rewrite Hhello in *.
  set (suffix := if ts then "ts" else _) in *.
  assert ((if ts then ["src"; "hello." +:+ suffix] else ["hello." +:+ suffix])
          = (if ts then ["src"; sample_file language] else [sample_file language])) as Hname.
  { unfold sample_file, suffix. fold ts. destruct ts; [done|].
    change ":default" with (":" +:+ "default"). by rewrite hd_Split_kind. }
  rewrite Hname in *. fold file in Hfile, Hnew4.
  exists w1, fs2, (nodes fs4), data. split_and!; [done|done| |done|done|done|done|].
  { intros k n Hk. destruct (Hnew4 _ _ Hk) as [Hk3|[(j & [Hj _] & ->)|[?|?]]]; eauto.
    destruct (Hnew3 _ _ Hk3); auto. }
  cbn [w_fs set_fs cwd nodes] in Htsfiles.
  unfold written_by_init. rewrite Hcwd4 in *.
  rewrite !(abs_Join _ project [_]) in * by plain_names. fold here in Htsfiles |- *.
  destruct ts.
  - apply bind_Ok in Htsfiles as ([] & wa & ->%writeAFile_Ok & Htsfiles).
    apply bind_Ok in Htsfiles as ([] & wb & ->%writeAFile_Ok & Htsfiles).
    apply writeAFile_Ok in Htsfiles as ->. cbn [w_fs set_fs cwd nodes].
    rewrite !(abs_Join _ (filepath.Join [_; "hello"]) [_]) by plain_names.
    by rewrite Hhello.
  - by injection Htsfiles as <-.
Qed.

Local Abbreviation laid_out := (written_by_init gitignores ignoreForTypescript
                                  packageJSONForTypescript tsconfigJSON).

Lemma written_is_Some here data (ts : bool) m k :
  let hello := here ++ ["packages"; "sample"; "hello"] in
  is_Some (laid_out here data ts m !! k) ↔
  is_Some (m !! k) ∨
  k ∈ [here ++ [".gitignore"]; here ++ ["project.yml"]] ++
      (if ts then [hello ++ [".include"]; hello ++ ["tsconfig.json"]; hello ++ ["package.json"]]
       else []).
Proof.
  intros hello. unfold written_by_init. fold hello.
  destruct ts; rewrite !lookup_insert_is_Some'; set_unfold; intuition auto.
Qed.

Lemma written_other here data (ts : bool) m k :
  let hello := here ++ ["packages"; "sample"; "hello"] in
  k ∉ [here ++ [".gitignore"]; here ++ ["project.yml"]] ++
      (if ts then [hello ++ [".include"]; hello ++ ["tsconfig.json"]; hello ++ ["package.json"]]
       else []) →
  laid_out here data ts m !! k = m !! k.
Proof.
  intros hello Hk. unfold written_by_init. fold hello.
  destruct ts; rewrite !lookup_insert_ne; set_solver.
Qed.

(** X4: where the sample goes.  After a successful [init] the sample
    stored under the lowercased language is in the action directory
    [packages/sample/hello] below the project path: in [src/hello.ts] for
    typescript, and otherwise in [hello.] followed by the extension of the
    runtime the language stands for; no later step of [init] writes to
    that file. *)
Theorem init_sample_file (c : CmdConfig) (w w' : World) (project : string) :
  let language := strings.ToLower (Doit.GetString (w_doit w) (NS c) "language").1 in
  let ts := bool_decide (language = "ts" ∨ language = "typescript") in
  let hello := filepath.abs (cwd (w_fs w)) project ++ ["packages"; "sample"; "hello"] in
  Args c = [project] → sane_language language → init c w = (Ok tt, w') →
  nodes (w_fs w')
  !! (hello ++ (if ts then ["src"; sample_file language] else [sample_file language]))
  = Some (File (default "" (samples !! language))).
Proof.
  intros language ts hello Hargs Hsane Hrun.
  destruct (init_Ok_disk c w project w' Hargs Hsane Hrun)
    as (w1 & fs2 & m & data & _ & _ & _ & _ & _ & Hfile & _ & ->).
  cbn [nodes]. fold language ts hello in Hfile |- *.
  rewrite written_other; [done|]. subst hello.
  set (here := filepath.abs _ _). rewrite <-!app_assoc.
  destruct ts; cbn [app]; set_unfold; intros Hk;
    repeat (destruct Hk as [Hk|Hk]; [by apply app_inv_head in Hk|]); done.
Qed.

(** X5: overwriting starts afresh.  When the project path exists and
    [--overwrite] is set, after a successful [init] the entries at or
    below the project path are exactly those of the scaffold: nothing of
    what the path held before is left. *)
Theorem init_overwrite_fresh (c : CmdConfig) (w w' : World) (project : string) :
  let language := strings.ToLower (Doit.GetString (w_doit w) (NS c) "language").1 in
  let ts := bool_decide (language = "ts" ∨ language = "typescript") in
  let here := filepath.abs (cwd (w_fs w)) project in
  Args c = [project] → sane_language language → here ≠ [] →
  (os.Stat project (w_fs w)).2 = None →
  (Doit.GetBool (w_doit w) (NS c) "overwrite").1 = true →
  init c w = (Ok tt, w') →
  ∀ k, os.under here k = true →
    (is_Some (nodes (w_fs w') !! k) ↔ k ∈ scaffold here ts (sample_file language)).
Proof.
  intros language ts here Hargs Hsane Hroot Hstat Hover Hrun k Hunder.
  destruct (init_Ok_disk c w project w' Hargs Hsane Hrun)
    as (w1 & fs2 & m & data & Hfs1 & Hprep & Hnew & Hmade & Hsrc & Hfile & _ & ->).
  cbn [nodes]. fold language ts here in Hnew, Hmade, Hsrc, Hfile |- *.
  rewrite Hover, prepareProjectArea_present in Hprep by (by rewrite Hfs1).
  apply fs_call_Ok in Hprep as (fs2' & Hrm & Hfs2).
  assert (fs2' = fs2) as -> by (by injection Hfs2).
  rewrite Hfs1 in Hrm. pose proof (RemoveAll_ok _ _ _ k Hstat Hrm) as Hgone.
  fold here in Hgone. rewrite Hunder in Hgone.
  rewrite written_is_Some. unfold scaffold.
  set (hello := here ++ ["packages"; "sample"; "hello"]) in *.
  split.
  - intros [[n Hk]|Hk].
    + destruct (Hnew _ _ Hk) as [?|[(j & _ & ->)|[[-> Hts]| ->]]]; [congruence|..].
      * unfold hello in *. apply under_take in Hunder as [i ->].
        destruct i as [|[|[|i]]]; cbn [take]; rewrite ?app_nil_r, ?take_nil;
          (set_unfold; by auto 15).
      * rewrite Hts. (set_unfold; by auto 15).
      * destruct ts; (set_unfold; by auto 15).
    + destruct ts; set_unfold; intuition (subst; auto 15).
  - assert (∀ i, i ≤ 3 → is_Some (m !! (here ++ take i ["packages"; "sample"; "hello"])))
      as Hdirs.
    { intros i Hi. rewrite <-(take_app_add' here _ (length here)) by done.
      apply Hmade. subst hello. rewrite !length_app. cbn [length].
      destruct here; [done|]. cbn [length]. lia. }
    pose proof (Hdirs 0 ltac:(lia)) as H0. pose proof (Hdirs 1 ltac:(lia)) as H1.
    pose proof (Hdirs 2 ltac:(lia)) as H2. pose proof (Hdirs 3 ltac:(lia)) as H3.
    cbn [take] in H0, H1, H2, H3. rewrite app_nil_r in H0. fold hello in H3.
    assert (is_Some (m !! (hello ++ (if ts then ["src"; sample_file language]
                                     else [sample_file language])))) as Hfile'
      by (by eexists).
    clear Hfile Hnew Hmade Hdirs Hgone.
    destruct ts.
    + specialize (Hsrc eq_refl).
      set_unfold. intros Hk. intuition (subst k; auto 10).
    + set_unfold. intros Hk. intuition (subst k; auto 10).
Qed.

Lemma quiet_pure {A} (m : M A) : (∀ w, (m w).2 = w) → quiet m.
Proof. intros Hm w. by rewrite Hm. Qed.

Lemma quiet_bind {A B} (m : M A) (k : A → M B) :
  quiet m → (∀ a, quiet (k a)) → quiet (bind m k).
Proof.
  intros Hm Hk w. destruct (Hm w) as [Hout Hdoit]. unfold bind.
  destruct (m w) as [[a|e|msg] w1]; [|done..].
  destruct (Hk a w1) as [-> ->]. done.
Qed.

Lemma quiet_fs_call op : quiet (fs_call op).
Proof. intros w. by destruct (fs_call_frame op w) as (-> & -> & _). Qed.

Lemma quiet_check err : quiet (check err).
Proof. apply quiet_pure. by destruct err. Qed.

Lemma quiet_doMkdir path parents : quiet (doMkdir path parents).
Proof. unfold doMkdir. destruct parents; apply quiet_fs_call. Qed.

Lemma quiet_prepareProjectArea project overwrite :
  quiet (prepareProjectArea project overwrite).
Proof.
  unfold prepareProjectArea. apply quiet_bind; [by apply quiet_pure|]. intros st.
  destruct (os.IsNotExist _); [by apply quiet_pure|].
  destruct st.2; [by apply quiet_pure|].
  destruct overwrite; [apply quiet_fs_call|by apply quiet_pure].
Qed.

Lemma quiet_generateSample kind config sample samplePackage ts :
  quiet (generateSample kind config sample samplePackage ts).
Proof.
  unfold generateSample.
  apply quiet_bind; [apply quiet_doMkdir|]. intros _.
  apply quiet_bind.
  { destruct ts; [|by apply quiet_pure].
    apply quiet_bind; [apply quiet_doMkdir|]. intros _. by apply quiet_pure. }
  intros file. apply quiet_bind; [apply quiet_fs_call|]. intros _.
  apply quiet_bind.
  { apply quiet_pure. intros w. unfold deref.
    destruct (find_sample _ _); [|done]. by destruct (_ !! _). }
  intros pkg. apply quiet_pure. intros w. by destruct (negb _).
Qed.

Lemma quiet_resolve c language : quiet (resolve c language).
Proof.
  intros w. by destruct (resolve_frame languageKeywords samples c language w) as (calls & -> & _).
Qed.

Lemma announces_bind {A B} msg (m : M A) (k : A → M B) :
  quiet m → (∀ a, announces msg (k a)) → announces msg (bind m k).
Proof.
  intros Hm Hk w. destruct (Hm w) as [Hout Hdoit]. unfold bind.
  destruct (m w) as [[a|e|msg'] w1]; cbn [fst snd] in *; [|done..].
  destruct (Hk a w1) as [-> ->]. by rewrite Hout.
Qed.

Lemma announces_Fprint msg : announces msg (run Fprint msg ; ret tt).
Proof. intros w. unfold bind, Fprint, ret. by destruct (broken (w_out w)) eqn:Hb; cbn; rewrite ?Hb. Qed.

(** X6: what [init] prints.  However it is run, [init] leaves the options
    as they are and prints nothing before it has made the whole project:
    the message that names the project and the deploy command is printed,
    once, exactly when [init] returns without error, and a run that fails
    leaves the output as it was. *)
Theorem init_prints_on_success (c : CmdConfig) (w : World) :
  let project := nth 0 (Args c) "" in
  let msg := "A local functions project directory '" +:+ project +:+
             "' was created for you." +:+ newline +:+
             "You may deploy it by running the command shown on the next line:" +:+
             newline +:+ "  doctl serverless deploy " +:+ project +:+ newline in
  w_doit (init c w).2 = w_doit w ∧
  w_out (init c w).2
  = if succeeded (init c w).1 && negb (broken (w_out w))
    then mkWriter (written (w_out w) ++ [Text msg]) false
    else w_out w.
Proof.
  intros project msg. revert w. change (announces msg (init c)).
  unfold RunServerlessExtraCreate. fold project.
  apply announces_bind; [apply quiet_check|]. intros _.
  apply announces_bind; [by apply quiet_pure|]. intros overwrite.
  apply announces_bind; [by apply quiet_pure|]. intros language.
  apply announces_bind; [apply quiet_resolve|]. intros [[kind sample] ts].
  apply announces_bind; [apply quiet_prepareProjectArea|]. intros _.
  apply announces_bind; [apply quiet_doMkdir|]. intros _.
  apply announces_bind; [apply quiet_generateSample|]. intros [actionDir config].
  destruct (yaml_Marshal config) as [data err].
  apply announces_bind; [apply quiet_check|]. intros _.
  apply announces_bind; [apply quiet_fs_call|]. intros _.
  apply announces_bind; [apply quiet_fs_call|]. intros _.
  apply announces_bind.
  { destruct ts; [|by apply quiet_pure].
    apply quiet_bind; [apply quiet_fs_call|]. intros _.
    apply quiet_bind; [apply quiet_fs_call|]. intros _. apply quiet_fs_call. }
  intros _. apply announces_Fprint.
Qed.

Lemma written_project_yml here data (ts : bool) m :
  laid_out here data ts m !! (here ++ ["project.yml"]) = Some (File data).
Proof.
  unfold written_by_init.
  assert (here ++ [".gitignore"] ≠ here ++ ["project.yml"]) by (by intros ?%app_inv_head).
  destruct ts.
  - rewrite <-!app_assoc. cbn [app].
    do 3 rewrite lookup_insert_ne by (by intros ?%app_inv_head).
    rewrite lookup_insert_ne by done. apply lookup_insert_eq.
  - rewrite lookup_insert_ne by done. apply lookup_insert_eq.
Qed.

(** X7: the project file depends on the runtime only.  Two successful
    runs of [init] whose languages stand for the same runtime (such as
    [ts] and [javascript]) write the same contents to [project.yml],
    whatever the project paths, the samples and the disks are. *)
Theorem same_runtime_same_project_file (c c' : CmdConfig) (w w' v v' : World)
    (project project' : string) :
  let language := strings.ToLower (Doit.GetString (w_doit w) (NS c) "language").1 in
  let language' := strings.ToLower (Doit.GetString (w_doit v) (NS c') "language").1 in
  Args c = [project] → Args c' = [project'] →
  canonical_runtime language = canonical_runtime language' →
  init c w = (Ok tt, w') → init c' v = (Ok tt, v') →
  ∃ data,
    nodes (w_fs w') !! (filepath.abs (cwd (w_fs w)) project ++ ["project.yml"])
    = Some (File data) ∧
    nodes (w_fs v') !! (filepath.abs (cwd (w_fs v)) project' ++ ["project.yml"])
    = Some (File data).
Proof.
  intros language language' Hargs Hargs' Hsame Hrun Hrun'.
  destruct (init_Ok languageKeywords samples gitignores ignoreForTypescript
              packageJSONForTypescript tsconfigJSON yaml_Marshal c w project w' Hargs Hrun)
    as (kind & sample & ts & w1 & data & m & Hres & Hyaml & _ & ->).
  destruct (init_Ok languageKeywords samples gitignores ignoreForTypescript
              packageJSONForTypescript tsconfigJSON yaml_Marshal c' v project' v' Hargs' Hrun')
    as (kind' & sample' & ts' & v1 & data' & m' & Hres' & Hyaml' & _ & ->).
  apply resolve_kind in Hres, Hres'. fold language in Hres. fold language' in Hres'.
  rewrite Hres, Hsame, <-Hres', Hyaml' in Hyaml. injection Hyaml as ->.
  exists data. cbn [nodes w_fs]. by rewrite !written_project_yml.
Qed.

(** X8: a runtime the host does not offer.  When the lowercased token is
    a keyword of the language table, the runtime of its entry is not
    [nodejs], the host answers the status check, the credential read and
    the host-info fetch, and that runtime is not among those the host
    lists, the token is rejected as an unsupported language; [init]
    returns that error after exactly these three calls on the service,
    with the disk, the options and the output as they were. *)
Theorem unlisted_runtime_rejected (c : CmdConfig) (w : World)
    (project token runtime : string) :
  let language := strings.ToLower token in
  let sls := Serverless c in
  let creds := ReadCredentials sls in
  let info := GetHostInfo sls (APIHost creds.1) in
  let unsupported := Errorf (language +:+ " is not a supported language") in
  let w1 := mkWorld (w_fs w) (w_doit w) (w_out w)
              (w_calls w ++ [CallCheckServerlessStatus; CallReadCredentials;
                             CallGetHostInfo (APIHost creds.1)]) in
  Args c = [project] →
  (Doit.GetString (w_doit w) (NS c) "language").1 = token →
  runtime_of language languageKeywords = Some runtime → runtime ≠ "nodejs" →
  CheckServerlessStatus sls = None → creds.2 = None → info.2 = None →
  runtime ∉ dom (Runtimes info.1) →
  resolve c token w = (Err unsupported, w1) ∧ init c w = (Err unsupported, w1).
Proof.
  intros language sls creds info unsupported w1 Hargs Hflag Hfound Hnode Hstatus Hcreds
    Hinfo Hunlisted.
  assert (resolve c token w = (Err unsupported, w1)) as Hres.
  { assert (isValidLanguage languageKeywords c language w = (Ok false, w1)) as Hvalid.
    { unfold isValidLanguage. rewrite Hfound. unfold validateRuntime.
      rewrite bool_decide_eq_false_2 by done. fold sls.
      unfold bind, ret. rewrite Hstatus. fold creds.
      destruct creds as [cr e]. cbn [fst snd] in *. subst e.
      subst info. destruct (GetHostInfo sls (APIHost cr)) as [info e]. cbn [fst snd] in *.
      subst e. f_equal.
      - f_equal. apply not_true_is_false. by rewrite listed_runtime.
      - subst w1. unfold log_call. cbn. by rewrite <-!app_assoc. }
    by rewrite (resolve_valid _ _ _ _ _ _ _ Hvalid). }
  split; [done|].
  rewrite (init_one_arg _ _ _ _ _ _ _ _ _ _ Hargs), Hflag. unfold bind. by rewrite Hres.
Qed.

(** The walk along a path of plain names stops at the first of them
    that is a regular file, when more names follow. *)
Lemma walk_file fs cur dirs name rest data :
  Forall filepath.plain (dirs ++ name :: rest) → rest ≠ [] →
  (∀ j, j ≤ length dirs → os.node_at fs (cur ++ take j dirs) = Some Dir) →
  os.node_at fs (cur ++ dirs ++ [name]) = Some (File data) →
  os.walk fs cur (dirs ++ name :: rest) = os.Stopped ENOTDIR (cur ++ dirs ++ [name]) rest.
Proof.
  revert cur. induction dirs as [|d dirs IH]; intros cur Hplain Hrest Hdirs Hfile.
  - cbn [app os.walk] in *. inversion_clear Hplain as [|?? (H1 & H2 & H3 & _) _].
    pose proof (Hdirs 0 ltac:(lia)) as Hcur. cbn in Hcur. rewrite app_nil_r in Hcur.
    rewrite Hcur, step_name by done. destruct rest as [|c rest]; [done|].
    cbn [os.walk]. by rewrite Hfile.
  - cbn [app os.walk]. inversion_clear Hplain as [|?? (H1 & H2 & H3 & _) Hplain'].
    pose proof (Hdirs 0 ltac:(lia)) as Hcur. cbn in Hcur. rewrite app_nil_r in Hcur.
    rewrite Hcur, step_name by done.
    rewrite (IH (cur ++ [d])); [by rewrite <-!app_assoc|done|done| |by rewrite <-app_assoc].
    intros j Hj. rewrite <-app_assoc. apply (Hdirs (S j)). cbn [length]. lia.
Qed.

(** X9: a project path below a regular file.  When the project path is
    made of plain names, one of which, not the last, is a regular file
    in the directories the names before it lead to, [Stat] fails with an
    error other than not-exist; the preparation returns that error and
    removes nothing, with or without [--overwrite], and so does [init]
    once the language is resolved. *)
Theorem project_below_a_file (c : CmdConfig) (w : World) (name data : string)
    (dirs rest : list string) :
  let fs := w_fs w in
  let project := strings.Join (dirs ++ name :: rest) "/" in
  let notdir := PathError "stat" project ENOTDIR in
  Forall filepath.plain (dirs ++ name :: rest) → rest ≠ [] →
  (∀ j, j ≤ length dirs → os.node_at fs (cwd fs ++ take j dirs) = Some Dir) →
  os.node_at fs (cwd fs ++ dirs ++ [name]) = Some (File data) →
  (∀ overwrite, prepareProjectArea project overwrite w = (Err notdir, w)) ∧
  (Args c = [project] →
   ∀ r w1, resolve c (Doit.GetString (w_doit w) (NS c) "language").1 w = (Ok r, w1) →
     init c w = (Err notdir, w1)).
Proof.
  intros fs project notdir Hplain Hrest Hdirs Hfile.
  assert (Forall (λ t, strings.has_byte "/" t = false) (dirs ++ name :: rest)) as Hbytes.
  { eapply Forall_impl; [done|]. by intros t (_ & _ & _ & ?). }
  assert (project ≠ "" ∧ filepath.rooted project = false) as [Hne Hrel].
  { subst project. destruct (dirs ++ name :: rest) as [|n names] eqn:Hnames;
      [by destruct dirs|].
    inversion_clear Hplain as [|?? (Hn & _ & _ & Hslash) _].
    split; [|by apply rooted_Join_names].
    destruct names; [done|]. rewrite Join_cons by done. by destruct n. }
  assert (os.resolve fs project
          = os.Stopped ENOTDIR (cwd fs ++ dirs ++ [name]) rest) as Hwalk.
  { unfold os.resolve. rewrite Hrel. subst project.
    rewrite (Split_Join _ "/"%char); [by eapply walk_file|by destruct dirs|done]. }
  assert (∀ v overwrite, w_fs v = w_fs w →
            prepareProjectArea project overwrite v = (Err notdir, v)) as Hprep.
  { intros v overwrite Hv. unfold prepareProjectArea, bind, gets.
    rewrite Hv. fold fs. by rewrite (Stat_stopped _ _ _ _ _ Hne Hwalk). }
  split; [intros; by apply Hprep|].
  intros Hargs [[kind sample] ts] w1 Hres.
  rewrite (init_one_arg _ _ _ _ _ _ _ _ _ _ Hargs). unfold bind at 1. rewrite Hres.
  unfold bind at 1. rewrite Hprep; [done|].
  pose proof (resolve_keeps_disk c (Doit.GetString (w_doit w) (NS c) "language").1 w) as Hfs.
  by rewrite Hres in Hfs.
Qed.

End init_more.

(** ** More on the [web] qualifier *)

Section qualify_facts.

Lemma qualifyToken_idemp token : qualifyToken (qualifyToken token) = qualifyToken token.
Proof. unfold qualifyToken. by repeat case_bool_decide. Qed.

Lemma qualifyToken_comma_free tokens : comma_free tokens → comma_free (qualifyToken <$> tokens).
Proof.
  unfold comma_free. intros Hfree. apply Forall_fmap. eapply Forall_impl; [done|].
  intros t Ht. cbn. unfold qualifyToken. by case_bool_decide.
Qed.

Lemma Split_qualified original :
  strings.Split (qualifyWebWithSlash original) ","
  = qualifyToken <$> strings.Split original ",".
Proof.
  rewrite qualifyWebWithSlash_tokens. apply (Split_Join _ ","%char).
  - pose proof (Split_nonempty original ","). by destruct (strings.Split original ",").
  - apply qualifyToken_comma_free, Split_no_sep.
Qed.

Lemma no_web_left original : "web" ∉ strings.Split (qualifyWebWithSlash original) ",".
Proof.
  rewrite Split_qualified. intros (t & Ht & _)%list_elem_of_fmap.
  unfold qualifyToken in Ht. by case_bool_decide.
Qed.

(** X10: qualifying is done token by token and once is enough.  The
    tokens of the qualified list are the tokens of the original list, in
    the same order and number, with each [web] turned into [web/]; no
    token [web] is left, and qualifying the result again changes
    nothing. *)
Theorem qualifyWebWithSlash_idempotent (original : string) :
  let tokens := strings.Split original "," in
  let tokens' := strings.Split (qualifyWebWithSlash original) "," in
  tokens' = qualifyToken <$> tokens ∧
  length tokens' = length tokens ∧
  ("web" ∉ tokens') ∧
  qualifyWebWithSlash (qualifyWebWithSlash original) = qualifyWebWithSlash original.
Proof.
  intros tokens tokens'. split_and!.
  - apply Split_qualified.
  - subst tokens'. by rewrite Split_qualified, length_fmap.
  - apply no_web_left.
  - rewrite (qualifyWebWithSlash_tokens (qualifyWebWithSlash original)), Split_qualified.
    fold tokens. rewrite qualifyWebWithSlash_tokens. fold tokens. f_equal.
    rewrite <-list_fmap_compose. apply list_fmap_ext. intros i t _. apply qualifyToken_idemp.
Qed.

(** X11: a list is left as it is exactly when none of its tokens is
    [web]. *)
Theorem qualifyWebWithSlash_unchanged (original : string) :
  qualifyWebWithSlash original = original ↔ "web" ∉ strings.Split original ",".
Proof.
  split.
  - intros Hsame Hin. pose proof (no_web_left original) as Hnone.
    by rewrite Hsame in Hnone.
  - intros Hnone. rewrite qualifyWebWithSlash_tokens.
    rewrite <-(Join_Split original ","%char) at 2. f_equal.
    rewrite <-(list_fmap_id (strings.Split original ",")) at 2.
    apply Forall_fmap_ext_1, Forall_forall. intros t Ht. unfold qualifyToken.
    case_bool_decide; [by subst t|done].
Qed.

End qualify_facts.

(** ** The [get-metadata] command *)

Section metadata_facts.

Lemma GetBool_normalized c w key :
  Doit.GetBool (w_doit (adjustIncludeAndExclude c w).2) (NS c) key
  = Doit.GetBool (w_doit w) (NS c) key.
Proof.
  rewrite adjustIncludeAndExclude_run. cbn [snd w_doit set_doit].
  unfold normalized_include.
  destruct (Doit.GetString (w_doit w) (NS c) flagInclude) as [includes [e|]]; [done|].
  by case_bool_decide.
Qed.

(** X12: the get-metadata command, run with one positional argument.
    The project-reader option selects where the metadata comes from: the
    project reader of the service when it is set, the backend operation
    [get-metadata] otherwise; exactly one of the two is called, once.
    An error of that call is returned and nothing is displayed; without
    error the transcript is handed to the display of normal output as it
    came, with no rewriting of its lines. *)
Theorem get_metadata_policy (c : CmdConfig) (w : World) (directory : string) :
  Args c = [directory] →
  let w1 := (adjustIncludeAndExclude c w).2 in
  let reader := (Doit.GetBool (w_doit w) (NS c) flagProjectReader).1 in
  let res := if reader then ReadProject (Serverless c) directory [directory]
             else Exec (Serverless c) "get-metadata" [directory] (w_doit w1) in
  let call := if reader then CallReadProject directory
              else CallExec "get-metadata" [directory] in
  let w2 := log_call call w1 in
  let r := RunServerlessExtraGetMetadata c w in
  r = match res.2 with
      | Some e => (Err e, w2)
      | None => PrintServerlessTextOutput res.1 w2
      end ∧
  w_calls r.2 = w_calls w ++ [call] ∧
  (∀ e, res.2 = Some e → w_out r.2 = w_out w) ∧
  (res.2 = None → broken (w_out w) = false →
     r.1 = Ok tt ∧ written (w_out r.2) = written (w_out w) ++ [Display res.1]).
Proof.
  intros Hargs w1 reader res call w2 r.
  assert (w_out w1 = w_out w ∧ w_calls w1 = w_calls w) as [Hout Hcalls].
  { subst w1. by rewrite adjustIncludeAndExclude_run. }
  assert (r = match res.2 with
              | Some e => (Err e, w2)
              | None => PrintServerlessTextOutput res.1 w2
              end) as Hrun.
  { pose proof (GetBool_normalized c w flagProjectReader) as Hflag.
    subst r res call w2 w1. unfold RunServerlessExtraGetMetadata, bind at 1.
    rewrite adjustIncludeAndExclude_run in *. cbn [fst snd] in *.
    unfold bind at 1, check at 1, ensureOneArg.
    rewrite Hargs. cbn [length]. rewrite bool_decide_eq_true_2 by done.
    unfold ret at 1, bind at 1, gets at 1. rewrite Hflag. fold reader.
    cbn [nth]. unfold bind at 1. destruct reader.
    - destruct (ReadProject _ _ _) as [output [e|]]; by cbn.
    - unfold RunServerlessExec. rewrite Hargs.
      destruct (Exec _ _ _ _) as [output [e|]]; by cbn. }
  split; [done|]. rewrite Hrun. clear Hrun.
  destruct res as [output [e|]]; cbn [fst snd].
  - split_and!; [subst w2; cbn; by rewrite Hcalls|by intros|done].
  - unfold PrintServerlessTextOutput.
    assert (w_out w2 = w_out w) as -> by done.
    destruct (broken (w_out w)); cbn [fst snd w_calls set_out];
      (split_and!; [subst w2; cbn; by rewrite Hcalls|done|by intros]).
Qed.

End metadata_facts.

(** ** The further properties at work *)

Lemma init_stays_in_project_witness :
  let c := mkCmdConfig "init" ["proj"] Demo.offline in
  let w := Demo.populated [("init", "language", "python")] [("init", "overwrite", true)] in
  nodes (w_fs (Demo.init c w).2) !! ["home"; "dev"; "other.txt"] = Some (File "elsewhere").
Proof.
  intros c w.
  destruct (init_stays_in_project Demo.languageKeywords Demo.samples Demo.gitignores
              Demo.ignoreForTypescript Demo.packageJSONForTypescript Demo.tsconfigJSON
              Demo.yaml_Marshal c w "proj" eq_refl) as [_ Hkeep].
  - vm_compute. reflexivity.
  - apply Hkeep; vm_compute; reflexivity.
Defined.

Lemma init_sample_file_witness :
  let c := mkCmdConfig "init" ["proj"] Demo.offline in
  let w := Demo.populated [("init", "language", "Go")] [("init", "overwrite", true)] in
  nodes (w_fs (Demo.init c w).2)
  !! ["home"; "dev"; "proj"; "packages"; "sample"; "hello"; "hello.go"]
  = Some (File "package main").
Proof.
  intros c w.
  apply (init_sample_file Demo.languageKeywords Demo.samples Demo.gitignores
           Demo.ignoreForTypescript Demo.packageJSONForTypescript Demo.tsconfigJSON
           Demo.yaml_Marshal c w (Demo.init c w).2 "proj").
  - reflexivity.
  - split; vm_compute; reflexivity.
  - vm_compute. reflexivity.
Defined.

Lemma init_overwrite_fresh_witness :
  let c := mkCmdConfig "init" ["proj"] Demo.offline in
  let w := Demo.populated [("init", "language", "python")] [("init", "overwrite", true)] in
  nodes (w_fs (Demo.init c w).2) !! ["home"; "dev"; "proj"; "notes.txt"] = None ∧
  is_Some (nodes (w_fs (Demo.init c w).2) !! ["home"; "dev"; "proj"; "packages"; "sample"]).
Proof.
  intros c w.
  assert (∀ k, os.under ["home"; "dev"; "proj"] k = true →
            is_Some (nodes (w_fs (Demo.init c w).2) !! k)
            ↔ k ∈ scaffold ["home"; "dev"; "proj"] false "hello.py") as Hfresh.
  { apply (init_overwrite_fresh Demo.languageKeywords Demo.samples Demo.gitignores
             Demo.ignoreForTypescript Demo.packageJSONForTypescript Demo.tsconfigJSON
             Demo.yaml_Marshal c w (Demo.init c w).2 "proj").
    - reflexivity.
    - split; vm_compute; reflexivity.
    - vm_compute. discriminate.
    - vm_compute. reflexivity.
    - vm_compute. reflexivity.
    - vm_compute. reflexivity. }
  split.
  - apply eq_None_not_Some. intros Hsome%Hfresh; [|vm_compute; reflexivity].
    unfold scaffold in Hsome. cbn [app] in Hsome.
    repeat (apply elem_of_cons in Hsome as [Hsome|Hsome]; [discriminate|]).
    by apply elem_of_nil in Hsome.
  - apply Hfresh; [vm_compute; reflexivity|].
    unfold scaffold. cbn [app]. do 2 apply list_elem_of_further. apply list_elem_of_here.
Defined.

Lemma same_runtime_same_project_file_witness :
  let c := mkCmdConfig "init" ["one"] Demo.offline in
  let c' := mkCmdConfig "init" ["two"] Demo.offline in
  let w := Demo.world [("init", "language", "ts")] [] in
  let v := Demo.populated [("init", "language", "JavaScript")] [] in
  nodes (w_fs (Demo.init c w).2) !! ["home"; "dev"; "one"; "project.yml"]
  = nodes (w_fs (Demo.init c' v).2) !! ["home"; "dev"; "two"; "project.yml"].
Proof.
  intros c c' w v.
  destruct (same_runtime_same_project_file Demo.languageKeywords Demo.samples Demo.gitignores
              Demo.ignoreForTypescript Demo.packageJSONForTypescript Demo.tsconfigJSON
              Demo.yaml_Marshal c c' w (Demo.init c w).2 v (Demo.init c' v).2 "one" "two")
    as (data & Hone & Htwo).
  - reflexivity.
  - reflexivity.
  - vm_compute. reflexivity.
  - vm_compute. reflexivity.
  - vm_compute. reflexivity.
  - exact (eq_trans Hone (eq_sym Htwo)).
Defined.

Lemma unlisted_runtime_rejected_witness :
  let c := mkCmdConfig "init" ["proj"] (Demo.online (mkOutput [] "") None) in
  let w := Demo.world [("init", "language", "PHP")] [] in
  Demo.init c w
  = (Err (Errorf "php is not a supported language"),
     mkWorld (w_fs w) (w_doit w) (w_out w)
       [CallCheckServerlessStatus; CallReadCredentials; CallGetHostInfo "faas.example.com"]).
Proof.
  intros c w.
  refine (proj2 (unlisted_runtime_rejected Demo.languageKeywords Demo.samples Demo.gitignores
                   Demo.ignoreForTypescript Demo.packageJSONForTypescript Demo.tsconfigJSON
                   Demo.yaml_Marshal c w "proj" "PHP" "php"
                   eq_refl eq_refl eq_refl _ eq_refl eq_refl eq_refl _)).
  - discriminate.
  - vm_compute. discriminate.
Defined.

Lemma project_below_a_file_witness :
  let c := mkCmdConfig "init" ["other.txt/proj"] Demo.offline in
  let w := Demo.populated [("init", "language", "go")] [("init", "overwrite", true)] in
  (Demo.init c w).1 = Err (PathError "stat" "other.txt/proj" ENOTDIR) ∧
  w_fs (Demo.init c w).2 = w_fs w.
Proof.
  intros c w.
  destruct (project_below_a_file Demo.languageKeywords Demo.samples Demo.gitignores
              Demo.ignoreForTypescript Demo.packageJSONForTypescript Demo.tsconfigJSON
              Demo.yaml_Marshal c w "other.txt" "elsewhere" [] ["proj"]) as [_ Hinit].
  - repeat (constructor; [unfold filepath.plain; split_and!; by vm_compute|]). constructor.
  - discriminate.
  - intros [|j] Hj; [vm_compute; reflexivity|cbn in Hj; lia].
  - vm_compute. reflexivity.
  - unfold Demo.init.
    rewrite (Hinit eq_refl ("go:default", "package main", false)
               (log_call CallCheckServerlessStatus w)); [split; reflexivity|].
    vm_compute. reflexivity.
Defined.

Lemma get_metadata_policy_witness :
  let metadata := mkOutput ["Deployed actions"] "{}" in
  let c := mkCmdConfig "get-metadata" ["proj"] (Demo.online metadata None) in
  let w := Demo.world [] [("get-metadata", "project-reader", true)] in
  w_calls (RunServerlessExtraGetMetadata c w).2 = [CallReadProject "proj"] ∧
  written (w_out (RunServerlessExtraGetMetadata c w).2) = [Display metadata].
Proof.
  intros metadata c w.
  destruct (get_metadata_policy c w "proj" eq_refl) as (_ & Hcalls & _ & Hshown).
  split; [exact Hcalls|]. apply Hshown; reflexivity.
Defined.

(** * The image commands *)

Section image_facts.

Import images.

Variable intSize : Z.

Implicit Types (c : images.CmdConfig) (st : images.State).

Lemma after_calls_nil st : after_calls [] st = st.
Proof. unfold after_calls. rewrite app_nil_r. by destruct st. Qed.

Lemma after_calls_call k ks st : after_calls ks (call k st) = after_calls (k :: ks) st.
Proof. unfold after_calls, call. cbn. by rewrite <-app_assoc. Qed.

Lemma after_calls_snoc k ks st : call k (after_calls ks st) = after_calls (ks ++ [k]) st.
Proof. unfold after_calls, call. cbn. by rewrite <-app_assoc. Qed.

(** Signs are no digits. *)
Lemma digit_not_sign a : is_Some (strconv.digit a) → a ≠ "-"%char ∧ a ≠ "+"%char.
Proof. intros [d Hd]. split; intros ->; by vm_compute in Hd. Qed.

Lemma Atoi_loop_digits s n : all_digits s = true → is_Some (strconv.Atoi_loop s n).
Proof.
  revert n. induction s as [|a s IH]; intros n; cbn; [by eexists|].
  intros [[d Hd]%bool_decide_eq_true Hs]%andb_true_iff. rewrite Hd. by apply IH.
Qed.

(** A string of digits that is short enough for the fast path is a
    number: 1 to 9 digits on a 32-bit build, 1 to 18 digits on a 64-bit
    build. *)
Lemma Atoi_digits s :
  all_digits s = true →
  intSize = 32%Z ∧ 0 < strings.len s < 10 ∨ intSize = 64%Z ∧ 0 < strings.len s < 19 →
  (strconv.Atoi intSize s).2 = None.
Proof.
  intros Hs Hlen. unfold strconv.Atoi. rewrite bool_decide_eq_true_2 by done.
  destruct s as [|a s]; [cbn in Hlen; lia|].
  pose proof Hs as [[Hminus Hplus]%bool_decide_eq_true%digit_not_sign _]%andb_true_iff.
  rewrite !(bool_decide_eq_false_2 (a = _)) by done. cbn [orb andb].
  by destruct (Atoi_loop_digits (String a s) 0 Hs) as [v ->].
Qed.

Lemma Atoi_empty :
  strconv.Atoi intSize "" = (0%Z, Some (strconv.mkNumError "Atoi" "" strconv.ErrSyntax)).
Proof. unfold strconv.Atoi. by case_bool_decide. Qed.

(** X13: how [image get] reads its argument.  An argument that is a
    number is looked up by identifier, and by identifier only; any other
    argument that is not empty is looked up by slug; an empty argument is
    refused without any call.  So an argument of 1 to 9 digits on a
    32-bit build, of 1 to 18 digits on a 64-bit build, is never looked
    up as a slug.  In each case at most one call is made, its
    error is returned as it is, and without error the image found is
    displayed. *)
Theorem image_get_dispatch c st (rawID : string) :
  Args c = [rawID] →
  let r := RunImagesGet intSize c st in
  (∀ id, strconv.Atoi intSize rawID = (id, None) →
     r = match GetByID (Images c) (calls st) id with
         | (_, Some err) => (Some (Plain err), call (CallGetByID id) st)
         | (i, None) => Display [i] (call (CallGetByID id) st)
         end) ∧
  (∀ v cerr, strconv.Atoi intSize rawID = (v, Some cerr) → rawID ≠ "" →
     r = match GetBySlug (Images c) (calls st) rawID with
         | (_, Some err) => (Some (Plain err), call (CallGetBySlug rawID) st)
         | (i, None) => Display [i] (call (CallGetBySlug rawID) st)
         end) ∧
  (rawID = "" → r = (Some (Plain (Errorf "image identifier is required")), st)) ∧
  (all_digits rawID = true →
   intSize = 32%Z ∧ 0 < strings.len rawID < 10 ∨
   intSize = 64%Z ∧ 0 < strings.len rawID < 19 →
     ∃ id, calls r.2 = calls st ++ [CallGetByID id]).
Proof.
  intros Hargs r.
  assert (∀ id, strconv.Atoi intSize rawID = (id, None) →
            r = match GetByID (Images c) (calls st) id with
                | (_, Some err) => (Some (Plain err), call (CallGetByID id) st)
                | (i, None) => Display [i] (call (CallGetByID id) st)
                end) as Hid.
  { intros id Hid. subst r. unfold RunImagesGet. rewrite Hargs. cbn [length nth].
    rewrite bool_decide_eq_true_2 by done. cbn [negb]. rewrite Hid.
    by destruct (GetByID _ _ _) as [i [e|]]. }
  split_and!.
  - done.
  - intros v cerr Hcerr Hne. subst r. unfold RunImagesGet. rewrite Hargs. cbn [length nth].
    rewrite bool_decide_eq_true_2 by done. cbn [negb]. rewrite Hcerr.
    rewrite bool_decide_eq_true_2 by (destruct rawID; [done|cbn; lia]).
    by destruct (GetBySlug _ _ _) as [i [e|]].
  - intros ->. subst r. unfold RunImagesGet. rewrite Hargs. cbn [length nth].
    by rewrite Atoi_empty.
  - intros Hdigits Hlen. pose proof (Atoi_digits rawID Hdigits Hlen) as Hnum.
    destruct (strconv.Atoi intSize rawID) as [id e] eqn:Hatoi. cbn in Hnum. subst e.
    exists id. rewrite (Hid id eq_refl).
    destruct (GetByID _ _ _) as [i [e|]]; [done|].
    unfold Display. by destruct (broken _).
Qed.

(** The deletion loop touches nothing but the calls made on the service,
    and the calls it makes are deletions of numbers given as arguments,
    in the order of the arguments. *)
Lemma delete_each_calls c args st :
  ∃ n ids,
    Forall2 (λ el id, strconv.Atoi intSize el = (id, None)) (take n args) ids ∧
    (delete_each intSize c args st).2 = after_calls (CallDelete <$> ids) st.
Proof.
  revert st. induction args as [|el args IH]; intros st.
  - exists 0, []. split; [constructor|]. by rewrite after_calls_nil.
  - cbn [delete_each]. destruct (strconv.Atoi intSize el) as [id [e|]] eqn:Hel.
    + exists 0, []. split; [constructor|]. by rewrite after_calls_nil.
    + destruct (Delete _ _ _) as [e|].
      * exists 1, [id]. split; [by repeat constructor|done].
      * destruct (IH (call (CallDelete id) st)) as (n & ids & Hids & ->).
        exists (S n), (id :: ids). split; [by constructor|].
        by rewrite after_calls_call.
Qed.

(** X14: no deletion without a request.  [image delete] calls the
    service for deletions only, each for a number that is one of its
    arguments, and only when the force option is set or the user has
    confirmed; with the force option the user is not asked.  Nothing is
    displayed and the options are left as they are. *)
Theorem image_delete_only_on_request c st :
  let r := RunImagesDelete intSize c st in
  let force := (Doit.GetBool (doit st) (NS c) ArgForce).1 in
  ∃ ids questions,
    r.2 = mkState (doit st) (calls st ++ (CallDelete <$> ids)) (asked st ++ questions)
            (shown st) (broken st) ∧
    (∀ id, id ∈ ids → ∃ el, el ∈ Args c ∧ strconv.Atoi intSize el = (id, None)) ∧
    (ids ≠ [] → force = true ∨ Confirm c "delete image(s)" = None) ∧
    (force = true → questions = []) ∧
    (questions = [] ∨ questions = ["delete image(s)"]).
Proof.
  intros r force. subst r force. unfold RunImagesDelete.
  assert (∀ st', ∃ ids,
            (delete_each intSize c (Args c) st').2 = after_calls (CallDelete <$> ids) st' ∧
            ∀ id, id ∈ ids → ∃ el, el ∈ Args c ∧ strconv.Atoi intSize el = (id, None)) as Hloop.
  { intros st'. destruct (delete_each_calls c (Args c) st') as (n & ids & Hids & Heq).
    exists ids. split; [done|]. intros id Hid.
    apply list_elem_of_lookup in Hid as [i Hi].
    destruct (Forall2_lookup_r _ _ _ _ _ Hids Hi) as (el & Hel & Hatoi).
    exists el. split; [|done]. apply list_elem_of_lookup. exists i.
    by apply lookup_take_Some in Hel as [? _]. }
  assert (st = mkState (doit st) (calls st ++ (CallDelete <$> [])) (asked st ++ [])
                 (shown st) (broken st)) as Hsame.
  { cbn. rewrite !app_nil_r. by destruct st. }
  assert (∀ id : Z, id ∈ [] → ∃ el, el ∈ Args c ∧ strconv.Atoi intSize el = (id, None)) as Hnone
    by (by intros id ?%elem_of_nil).
  case_bool_decide as Hlen.
  { exists [], []. cbn [snd]. split_and!; auto. }
  destruct (Doit.GetBool (doit st) (NS c) ArgForce) as [force [e|]]; cbn [fst snd].
  { exists [], []. split_and!; auto. }
  destruct force.
  - destruct (Hloop st) as (ids & -> & Hids). exists ids, [].
    unfold after_calls. rewrite app_nil_r. split_and!; auto.
  - unfold AskForConfirm. destruct (Confirm c "delete image(s)") as [e|] eqn:Hconfirm.
    + rewrite bool_decide_eq_false_2 by done. exists [], ["delete image(s)"]. cbn.
      rewrite app_nil_r. split_and!; auto. done.
    + rewrite bool_decide_eq_true_2 by done.
      destruct (Hloop (mkState (doit st) (calls st) (asked st ++ ["delete image(s)"])
                         (shown st) (broken st))) as (ids & -> & Hids).
      exists ids, ["delete image(s)"]. split_and!; auto. done.
Qed.

Lemma delete_each_app c st pre ids rest :
  deleted_in_order intSize c st pre ids →
  delete_each intSize c (pre ++ rest) st
  = delete_each intSize c rest (after_calls (CallDelete <$> ids) st).
Proof.
  intros [Hnum Hdel]. revert st Hdel.
  induction Hnum as [|el id pre ids Hel Hnum IH]; intros st Hdel.
  - by rewrite after_calls_nil.
  - cbn [app delete_each]. rewrite Hel.
    pose proof (Hdel 0 id eq_refl) as H0. cbn in H0. rewrite app_nil_r in H0. rewrite H0.
    rewrite IH.
    + by rewrite after_calls_call.
    + intros i id' Hi. cbn [call calls]. rewrite <-app_assoc. apply (Hdel (S i) id' Hi).
Qed.

(** X15: deletion stops at the first failure and undoes nothing.  When
    the first arguments are numbers that the service deletes without
    error, the loop has deleted them, in order, when it comes to the next
    argument: if that argument is no number, the error of the number is
    returned and no further call is made; if the service fails to delete
    it, that error is returned after this one more call; in both cases
    the arguments after it are not looked at.  When there is no next
    argument the loop returns without error. *)
Theorem image_delete_stops_at_first_failure c st (pre : list string) (ids : list Z) :
  deleted_in_order intSize c st pre ids →
  let st' := after_calls (CallDelete <$> ids) st in
  delete_each intSize c pre st = (None, st') ∧
  (∀ el post v e, strconv.Atoi intSize el = (v, Some e) →
     delete_each intSize c (pre ++ el :: post) st = (Some (NumErr e), st')) ∧
  (∀ el post id e, strconv.Atoi intSize el = (id, None) →
     Delete (Images c) (calls st') id = Some e →
     delete_each intSize c (pre ++ el :: post) st
     = (Some (Plain e), after_calls (CallDelete <$> (ids ++ [id])) st)).
Proof.
  intros Hpre st'. split_and!.
  - rewrite <-(app_nil_r pre) at 1. by rewrite (delete_each_app _ _ _ _ _ Hpre).
  - intros el post v e Hel. rewrite (delete_each_app _ _ _ _ _ Hpre). fold st'.
    cbn [delete_each]. by rewrite Hel.
  - intros el post id e Hel Hdel. rewrite (delete_each_app _ _ _ _ _ Hpre). fold st'.
    cbn [delete_each]. rewrite Hel, Hdel. subst st'.
    by rewrite after_calls_snoc, fmap_app.
Qed.

(** X16: [image update] takes a number only.  An argument that is no
    number is refused with the error of the number: the name option is
    not read and the service is not called, so an image cannot be updated
    by its slug.  With a number, an unreadable name option stops the
    command before any call; otherwise exactly one update is requested,
    for that number and the name of the option. *)
Theorem image_update_needs_number c st (raw : string) :
  Args c = [raw] →
  let r := RunImagesUpdate intSize c st in
  let name := Doit.GetString (doit st) (NS c) ArgImageName in
  (∀ v e, strconv.Atoi intSize raw = (v, Some e) → r = (Some (NumErr e), st)) ∧
  (∀ id, strconv.Atoi intSize raw = (id, None) →
     (∀ e, name.2 = Some e → r = (Some (Plain e), st)) ∧
     (name.2 = None →
        calls r.2 = calls st ++ [CallUpdate id name.1] ∧
        ((Update (Images c) (calls st) id name.1).2 = None → broken st = false →
           r.1 = None ∧
           shown r.2 = shown st ++ [[(Update (Images c) (calls st) id name.1).1]]) ∧
        (∀ e, (Update (Images c) (calls st) id name.1).2 = Some e →
           r.1 = Some (Plain e) ∧ shown r.2 = shown st))).
Proof.
  intros Hargs r name. subst r name. unfold RunImagesUpdate. rewrite Hargs.
  cbn [length nth]. rewrite bool_decide_eq_true_2 by done. cbn [negb]. split.
  - by intros v e ->.
  - intros id ->. destruct (Doit.GetString _ _ _) as [name [e|]]; cbn [fst snd].
    + split; [by intros ? [= <-]|done].
    + split; [done|]. intros _.
      destruct (Update _ _ _ _) as [i [e|]]; cbn [fst snd].
      * split_and!; [done..|]. by intros ? [= <-].
      * unfold Display. cbn [broken call]. destruct (broken st) eqn:Hb.
        -- split_and!; [done| |done]. by intros _ Hno.
        -- split_and!; [done| |done]. by intros _ _.
Qed.

Lemma Display_shown item st :
  ∃ items,
    (Display item st).2
    = mkState (doit st) (calls st) (asked st) (shown st ++ items) (broken st) ∧
    ((Display item st).1 ≠ None → items = []) ∧
    ((Display item st).1 = None → items = [item]).
Proof.
  unfold Display. destruct (broken st) eqn:Hb; cbn [fst snd].
  - exists []. rewrite app_nil_r. split_and!; [by destruct st; cbn in *; subst|done..].
  - exists [item]. by split_and!.
Qed.

Lemma after_one_call k item st :
  let r := Display item (call k st) in
  ∃ ks items,
    r.2 = mkState (doit st) (calls st ++ ks) (asked st) (shown st ++ items) (broken st) ∧
    length ks ≤ 1 ∧ (∀ id, k ≠ CallDelete id → CallDelete id ∉ ks) ∧
    (r.1 ≠ None → items = []) ∧ (r.1 = None → length items = 1).
Proof.
  intros r. destruct (Display_shown item (call k st)) as (items & Hst & Herr & Hok).
  exists [k], items. split_and!; [done|done| |done|].
  - intros id Hk [<-|[]%elem_of_nil]%elem_of_cons. done.
  - intros Hnone. by rewrite (Hok Hnone).
Qed.

Lemma no_call_made (e : cmd_error) st :
  ∃ ks items,
    st = mkState (doit st) (calls st ++ ks) (asked st) (shown st ++ items) (broken st) ∧
    length ks ≤ 1 ∧ (∀ id, CallDelete id ∉ ks) ∧
    (Some e ≠ None → items = []) ∧ (Some e = None → length items = 1).
Proof.
  exists [], []. rewrite !app_nil_r.
  split_and!; [by destruct st|cbn; lia|by intros id ?%elem_of_nil|done..].
Qed.

Lemma failed_call (e : cmd_error) k st :
  (∀ id, k ≠ CallDelete id) →
  ∃ ks items,
    call k st = mkState (doit st) (calls st ++ ks) (asked st) (shown st ++ items) (broken st) ∧
    length ks ≤ 1 ∧ (∀ id, CallDelete id ∉ ks) ∧
    (Some e ≠ None → items = []) ∧ (Some e = None → length items = 1).
Proof.
  intros Hk. exists [k], []. rewrite !app_nil_r.
  split_and!; [done|done| |done..].
  intros id [<-|[]%elem_of_nil]%elem_of_cons. by apply (Hk id).
Qed.

Lemma list_with_read_only method k c st :
  (∀ public id, k public ≠ CallDelete id) →
  let r := list_with method k c st in
  ∃ ks items,
    r.2 = mkState (doit st) (calls st ++ ks) (asked st) (shown st ++ items) (broken st) ∧
    length ks ≤ 1 ∧ (∀ id, CallDelete id ∉ ks) ∧
    (r.1 ≠ None → items = []) ∧ (r.1 = None → length items = 1).
Proof.
  intros Hk r. subst r. unfold list_with.
  destruct (Doit.GetBool _ _ _) as [public [e|]]; [apply no_call_made|].
  destruct (method _ _) as [list [e|]]; [by apply failed_call|].
  destruct (after_one_call (k public) list st) as (ks & items & ? & ? & Hks & ? & ?).
  exists ks, items. split_and!; [done..| |done|done]. intros id. by apply Hks.
Qed.

(** X17: looking up changes nothing.  The four list commands, [image
    get] and [image update] never ask the service to delete an image,
    never put a question to the user and leave the options as they are;
    each makes at most one call on the service, and hands exactly one
    item to the display when it returns without error and none when it
    returns an error. *)
Theorem image_queries_never_delete
    (cmd : images.CmdConfig → images.State → option cmd_error * images.State) c st :
  cmd ∈ image_queries intSize →
  let r := cmd c st in
  ∃ ks items,
    r.2 = mkState (doit st) (calls st ++ ks) (asked st) (shown st ++ items) (broken st) ∧
    length ks ≤ 1 ∧ (∀ id, CallDelete id ∉ ks) ∧
    (r.1 ≠ None → items = []) ∧ (r.1 = None → length items = 1).
Proof.
  unfold image_queries. rewrite !elem_of_cons.
  intros [->|[->|[->|[->|[->|[->|[]%elem_of_nil]]]]]]; cbv zeta.
  - by apply list_with_read_only.
  - by apply list_with_read_only.
  - by apply list_with_read_only.
  - by apply list_with_read_only.
  - unfold RunImagesGet. destruct (negb _); [apply no_call_made|].
    destruct (strconv.Atoi intSize _) as [id [cerr|]].
    + case_bool_decide.
      * destruct (GetBySlug _ _ _) as [i [e|]]; [by apply failed_call|].
        destruct (after_one_call (CallGetBySlug (nth 0 (Args c) "")) [i] st)
          as (ks & items & ? & ? & Hks & ? & ?).
        exists ks, items. split_and!; [done..| |done|done]. intros id'. by apply Hks.
      * apply no_call_made.
    + destruct (GetByID _ _ _) as [i [e|]]; [by apply failed_call|].
      destruct (after_one_call (CallGetByID id) [i] st)
        as (ks & items & ? & ? & Hks & ? & ?).
      exists ks, items. split_and!; [done..| |done|done]. intros id'. by apply Hks.
  - unfold RunImagesUpdate. destruct (negb _); [apply no_call_made|].
    destruct (strconv.Atoi intSize _) as [id [cerr|]]; [apply no_call_made|].
    destruct (Doit.GetString _ _ _) as [name [e|]]; [apply no_call_made|].
    destruct (Update _ _ _ _) as [i [e|]]; [by apply failed_call|].
    destruct (after_one_call (CallUpdate id name) [i] st)
      as (ks & items & ? & ? & Hks & ? & ?).
    exists ks, items. split_and!; [done..| |done|done]. intros id'. by apply Hks.
Qed.

End image_facts.

Lemma image_get_dispatch_witness :
  let st := ImagesDemo.state [] [] in
  images.calls (images.RunImagesGet 64 (ImagesDemo.config ["042"]) st).2
  = [images.CallGetByID 42] ∧
  images.calls (images.RunImagesGet 64 (ImagesDemo.config ["9999999999"]) st).2
  = [images.CallGetByID 9999999999] ∧
  images.calls (images.RunImagesGet 32 (ImagesDemo.config ["9999999999"]) st).2
  = [images.CallGetBySlug "9999999999"] ∧
  images.calls (images.RunImagesGet 64 (ImagesDemo.config ["99999999999999999999"]) st).2
  = [images.CallGetBySlug "99999999999999999999"] ∧
  images.calls (images.RunImagesGet 32 (ImagesDemo.config ["ubuntu-22-04-x64"]) st).2
  = [images.CallGetBySlug "ubuntu-22-04-x64"] ∧
  (∃ id, images.calls (images.RunImagesGet 32 (ImagesDemo.config ["123456789"]) st).2
         = [images.CallGetByID id]).
Proof.
  intros st. split_and!.
  - destruct (image_get_dispatch 64 (ImagesDemo.config ["042"]) st "042" eq_refl)
      as (Hid & _).
    rewrite (Hid 42%Z eq_refl). reflexivity.
  - destruct (image_get_dispatch 64 (ImagesDemo.config ["9999999999"]) st "9999999999"
                eq_refl) as (Hid & _).
    rewrite (Hid 9999999999%Z eq_refl). reflexivity.
  - destruct (image_get_dispatch 32 (ImagesDemo.config ["9999999999"]) st "9999999999"
                eq_refl) as (_ & Hslug & _).
    rewrite (Hslug (2 ^ 31 - 1)%Z
               (strconv.mkNumError "Atoi" "9999999999" strconv.ErrRange));
      [reflexivity|vm_compute; reflexivity|discriminate].
  - destruct (image_get_dispatch 64 (ImagesDemo.config ["99999999999999999999"]) st
                "99999999999999999999" eq_refl) as (_ & Hslug & _).
    rewrite (Hslug (2 ^ 63 - 1)%Z
               (strconv.mkNumError "Atoi" "99999999999999999999" strconv.ErrRange));
      [reflexivity|vm_compute; reflexivity|discriminate].
  - destruct (image_get_dispatch 32 (ImagesDemo.config ["ubuntu-22-04-x64"]) st
                "ubuntu-22-04-x64" eq_refl) as (_ & Hslug & _).
    rewrite (Hslug 0%Z (strconv.mkNumError "Atoi" "ubuntu-22-04-x64" strconv.ErrSyntax));
      [reflexivity|vm_compute; reflexivity|discriminate].
  - destruct (image_get_dispatch 32 (ImagesDemo.config ["123456789"]) st "123456789"
                eq_refl) as (_ & _ & _ & Hdigits).
    apply Hdigits; [reflexivity|]. left. split; [reflexivity|]. cbn. lia.
Defined.

Lemma image_delete_stops_at_first_failure_witness :
  let c := ImagesDemo.config ["3"; "5"; "13"; "8"] in
  let st := ImagesDemo.state [] [] in
  images.delete_each 64 c ["3"; "5"; "x"; "8"] st
  = (Some (images.NumErr (strconv.mkNumError "Atoi" "x" strconv.ErrSyntax)),
     after_calls [images.CallDelete 3; images.CallDelete 5] st) ∧
  images.delete_each 64 c ["3"; "5"; "13"; "8"] st
  = (Some (images.Plain (ExternalErr "in use")),
     after_calls [images.CallDelete 3; images.CallDelete 5; images.CallDelete 13] st).
Proof.
  intros c st.
  assert (deleted_in_order 64 c st ["3"; "5"] [3; 5]%Z) as Hpre.
  { split; [by repeat constructor|].
    intros [|[|i]] id [= <-]; vm_compute; reflexivity. }
  destruct (image_delete_stops_at_first_failure 64 c st ["3"; "5"] [3; 5]%Z Hpre)
    as (_ & Hnum & Hdel).
  split.
  - exact (Hnum "x" ["8"] 0%Z _ eq_refl).
  - exact (Hdel "13" ["8"] 13%Z _ eq_refl eq_refl).
Defined.

Lemma image_update_needs_number_witness :
  let c := ImagesDemo.config ["ubuntu-22-04-x64"] in
  let st := ImagesDemo.state [("image", "image-name", "renamed")] [] in
  images.RunImagesUpdate 32 c st
  = (Some (images.NumErr (strconv.mkNumError "Atoi" "ubuntu-22-04-x64" strconv.ErrSyntax)),
     st).
Proof.
  intros c st.
  destruct (image_update_needs_number 32 c st "ubuntu-22-04-x64" eq_refl) as (Hnum & _).
  exact (Hnum 0%Z _ eq_refl).
Defined.

Lemma image_queries_never_delete_witness :
  let c := ImagesDemo.config [] in
  let st := ImagesDemo.state [] [("image", "public", true)] in
  ∃ ks items,
    (images.RunImagesListDistribution c st).2
    = images.mkState (images.doit st) (images.calls st ++ ks) (images.asked st)
        (images.shown st ++ items) (images.broken st) ∧
    length ks ≤ 1 ∧ (∀ id, images.CallDelete id ∉ ks) ∧
    ((images.RunImagesListDistribution c st).1 ≠ None → items = []) ∧
    ((images.RunImagesListDistribution c st).1 = None → length items = 1).
Proof.
  intros c st.
  apply (image_queries_never_delete 64 images.RunImagesListDistribution c st).
  unfold image_queries. apply list_elem_of_further, list_elem_of_here.
Defined.
